(** * Position-protection reconciler (Kalot2/protect): model and properties

    The repository holds several variants of one trading script that keeps a
    stop-loss and a take-profit order resting against an open futures
    position and closes the position at market after a profit drawdown:

    - [Trading]  : src/pkg/trading/trader.go       (library form, position cache)
    - [Part000]  : src/unnamed/part_000            (joint reset, LIMIT or STOP_MARKET)
    - [Totals]   : src/unnamed/part_001            (separate legs, summed quantities)
    - [Part002]  : src/unnamed/part_002            (joint reset, reduce-only filter)
    - [TopUp]    : src/unnamed/part_003            (selective cancel, top-up of a missing leg)

    Modelling choices.

    - Numbers.  The Go code holds float64 values; here they are rationals
      ([Q]).  Every finite float64 is a rational, comparisons and [math.Abs]
      are exact on them; sums, differences and the products by 0.5 are taken
      exactly.  The venue's decimal strings are represented by the number
      [strconv.ParseFloat] yields (0 when the text does not parse: the code
      drops the parse error); [fmt.Sprintf "%.2f"] and ["%.4f"] are rounding
      to two and four decimals.  This serves wherever a price matters by its
      side of the entry price only, or not at all.  Where a theorem states
      the price that is sent (the rounding to the tick), the methods are
      taken again in module [Binary64], with every operation rounded as
      binary64 rounds it.
    - Gateway.  The exchange client is the [World]: the resting orders, the
      position-risk listing, a clock, a script that tells for each successive
      call whether the venue answers or fails, and the trace of calls made.
    - Effects.  Every method is a function on [St] (the trader's maps and the
      world) in the state monad [Gw]; Go's [error] results are values. *)

From Stdlib Require Import QArith Qround Qabs Qminmax Qpower ZArith List Bool Lia Lqa.
From stdpp Require Import gmap strings.

Local Open Scope Z_scope.

(** ** Numbers *)

Definition Qltb (x y : Q) : bool := negb (Qle_bool y x).

(** [math.Round]: nearest integer, halves away from zero. *)
Definition Round (x : Q) : Z :=
  if Qle_bool 0 x then Qfloor (x + (1 # 2)) else - Qfloor (- x + (1 # 2)).

(** Nearest integer, halves to even: the rounding of [strconv.FormatFloat]. *)
Definition roundHalfEven (x : Q) : Z :=
  let f := Qfloor x in
  let d := (x - inject_Z f)%Q in
  if Qltb d (1 # 2) then f
  else if Qltb (1 # 2) d then f + 1
  else if Z.even f then f else f + 1.

(** [fmt.Sprintf("%.2f", x)] and [fmt.Sprintf("%.4f", x)], read back as numbers. *)
Definition Sprintf2 (x : Q) : Q := Qred (roundHalfEven (x * 100) # 100).
Definition Sprintf4 (x : Q) : Q := Qred (roundHalfEven (x * 10000) # 10000).

(** [roundToTickSize] with the quotient and the product taken exactly; in
    the arithmetic of the code it is [Binary64.roundToTickSize], which can
    land one tick away when the price is within [10^-6] of the middle
    between two ticks. *)
Definition roundToTickSize (price tickSize : Q) : Q :=
  (inject_Z (Round (price / tickSize)) * tickSize)%Q.

(** [math.Abs(qty - math.Abs(amt)) <= 0.0001] *)
Definition qtyMatches (qty amt : Q) : bool :=
  Qle_bool (Qabs (qty - Qabs amt)) (1 # 10000).

(** ** Data of the futures client *)

Inductive SideType := SideTypeBuy | SideTypeSell.
Inductive PositionSideType := PositionSideTypeLong | PositionSideTypeShort.
Inductive OrderType :=
  OrderTypeLimit | OrderTypeMarket | OrderTypeStopMarket | OrderTypeTakeProfitMarket.
Inductive TimeInForceType := TimeInForceTypeGTC.
Inductive WorkingType := WorkingTypeContractPrice.

Record PositionRisk := {
  Symbol : string;
  PositionAmt : Q;
  EntryPrice : Q;
  UnRealizedProfit : Q }.

Record Order := {
  OrderID : Z;
  Side : SideType;
  Typ : OrderType;
  OrigQuantity : Q;
  Price : Q;
  StopPrice : Q;
  ReduceOnly : bool }.

(** The fields set on a [CreateOrderService] before [Do]. *)
Record CreateOrder := {
  cSide : SideType;
  cPositionSide : option PositionSideType;
  cType : OrderType;
  cTimeInForce : option TimeInForceType;
  cQuantity : Q;
  cPrice : option Q;
  cStopPrice : option Q;
  cWorkingType : option WorkingType }.

Inductive Call :=
  | CallListOpenOrders
  | CallCancelOrder (id : Z)
  | CallCancelAllOpenOrders
  | CallCreateOrder (req : CreateOrder)
  | CallGetPositionRisk.

Inductive error :=
  | VenueError
  | ErrListOrders
  | ErrCancelOrders
  | ErrCreateStopLoss
  | ErrCreateTakeProfit
  | ErrProtectiveClose
  | ErrPositionNotFound.

Global Instance SideType_eq_dec : EqDecision SideType.
Proof. solve_decision. Defined.
Global Instance OrderType_eq_dec : EqDecision OrderType.
Proof. solve_decision. Defined.

Definition isLimit (o : Order) : bool := bool_decide (Typ o = OrderTypeLimit).
Definition isStopMarket (o : Order) : bool := bool_decide (Typ o = OrderTypeStopMarket).
Definition isSell (o : Order) : bool := bool_decide (Side o = SideTypeSell).
Definition isBuy (o : Order) : bool := bool_decide (Side o = SideTypeBuy).

(** ** The gateway *)

Record World := {
  book : list Order;            (* resting orders of the symbol *)
  nextID : Z;                   (* id the venue gives to the next order *)
  listing : list PositionRisk;  (* what the position-risk service answers *)
  script : list bool;           (* outcome of the calls to come; none left: success *)
  clock : Z;                    (* nanoseconds *)
  trace : list Call }.          (* calls made so far, oldest first *)

(** The receiver's maps.  [part_000] to [part_002] have the first two only. *)
Record Trader := {
  maxProfit : gmap string Q;
  positions : gmap string Q;
  lastPosition : gmap string PositionRisk;
  lastUpdate : gmap string Z }.

Record St := { tr : Trader; wd : World }.

Definition Gw (A : Type) : Type := St -> A * St.

Global Instance Gw_ret : MRet Gw := fun A (a : A) s => (a, s).
Global Instance Gw_bind : MBind Gw :=
  fun A B (k : A -> Gw B) (m : Gw A) s => let (a, s') := m s in k a s'.

Definition nextOutcome (w : World) : bool :=
  match script w with [] => true | b :: _ => b end.

(** One round trip to the venue: the call is recorded, the script advances. *)
Definition called (c : Call) (w : World) : World :=
  {| book := book w; nextID := nextID w; listing := listing w;
     script := tl (script w); clock := clock w; trace := trace w ++ [c] |}.

Definition withBook (b : list Order) (n : Z) (w : World) : World :=
  {| book := b; nextID := n; listing := listing w;
     script := script w; clock := clock w; trace := trace w |}.

Definition setWorld (w : World) (s : St) : St := {| tr := tr s; wd := w |}.
Definition setTrader (t : Trader) (s : St) : St := {| tr := t; wd := wd s |}.

(** The venue marks an order that closes a hedge-mode position as reduce-only. *)
Definition closes (r : CreateOrder) : bool :=
  match cSide r, cPositionSide r with
  | SideTypeSell, Some PositionSideTypeLong => true
  | SideTypeBuy, Some PositionSideTypeShort => true
  | _, _ => false
  end.

Definition rest (id : Z) (r : CreateOrder) : Order :=
  {| OrderID := id; Side := cSide r; Typ := cType r;
     OrigQuantity := cQuantity r;
     Price := default 0%Q (cPrice r);
     StopPrice := default 0%Q (cStopPrice r);
     ReduceOnly := closes r |}.

(** [NewListOpenOrdersService().Symbol(..).Do(ctx)] *)
Definition ListOpenOrders : Gw (error + list Order) := fun s =>
  let w := wd s in
  let w' := called CallListOpenOrders w in
  if nextOutcome w then (inr (book w), setWorld w' s)
  else (inl VenueError, setWorld w' s).

(** [NewCancelOrderService().Symbol(..).OrderID(id).Do(ctx)] *)
Definition CancelOrder (id : Z) : Gw (option error) := fun s =>
  let w := wd s in
  let w' := called (CallCancelOrder id) w in
  if nextOutcome w
  then (None, setWorld (withBook (filter (fun o => OrderID o ≠ id) (book w)) (nextID w) w') s)
  else (Some VenueError, setWorld w' s).

(** [NewCancelAllOpenOrdersService().Symbol(..).Do(ctx)] *)
Definition CancelAllOpenOrders : Gw (option error) := fun s =>
  let w := wd s in
  let w' := called CallCancelAllOpenOrders w in
  if nextOutcome w then (None, setWorld (withBook [] (nextID w) w') s)
  else (Some VenueError, setWorld w' s).

(** [NewCreateOrderService()...Do(ctx)]: a market order is filled at once and
    never rests; any other accepted order joins the book under a fresh id. *)
Definition CreateOrderDo (r : CreateOrder) : Gw (option error) := fun s =>
  let w := wd s in
  let w' := called (CallCreateOrder r) w in
  if nextOutcome w then
    match cType r with
    | OrderTypeMarket => (None, setWorld w' s)
    | _ => (None, setWorld (withBook (book w ++ [rest (nextID w) r]) (nextID w + 1) w') s)
    end
  else (Some VenueError, setWorld w' s).

(** [NewGetPositionRiskService().Do(ctx)] *)
Definition GetPositionRisk : Gw (error + list PositionRisk) := fun s =>
  let w := wd s in
  let w' := called CallGetPositionRisk w in
  if nextOutcome w then (inr (listing w), setWorld w' s)
  else (inl VenueError, setWorld w' s).

(** [time.Sleep(d)] *)
Definition Sleep (d : Z) : Gw unit := fun s =>
  let w := wd s in
  (tt, setWorld {| book := book w; nextID := nextID w; listing := listing w;
                   script := script w; clock := clock w + d; trace := trace w |} s).

Definition Second : Z := 1000000000.

Definition getTrader : Gw Trader := fun s => (tr s, s).
Definition putTrader (t : Trader) : Gw unit := fun s => (tt, setTrader t s).
Definition now : Gw Z := fun s => (clock (wd s), s).

Definition setMaxProfit (m : gmap string Q) (t : Trader) : Trader :=
  {| maxProfit := m; positions := positions t;
     lastPosition := lastPosition t; lastUpdate := lastUpdate t |}.
Definition setPositions (m : gmap string Q) (t : Trader) : Trader :=
  {| maxProfit := maxProfit t; positions := m;
     lastPosition := lastPosition t; lastUpdate := lastUpdate t |}.
Definition setCache (k : string) (p : PositionRisk) (at_ : Z) (t : Trader) : Trader :=
  {| maxProfit := maxProfit t; positions := positions t;
     lastPosition := <[k := p]> (lastPosition t);
     lastUpdate := <[k := at_]> (lastUpdate t) |}.

(** The closing side of a position of signed size [amt], as every variant
    computes it: sell/long by default, buy/short when [amt < 0]. *)
Definition closingSide (amt : Q) : SideType * PositionSideType :=
  if Qltb amt 0 then (SideTypeBuy, PositionSideTypeShort)
  else (SideTypeSell, PositionSideTypeLong).

(** The cache test at the head of [GetPosition] and of [run] in [part_003]:
    the entry and its time stamp are there and less than five seconds old. *)
Definition cached (symbol : string) (t : Trader) (clk : Z) : option PositionRisk :=
  match lastPosition t !! symbol with
  | Some lastPos =>
      match lastUpdate t !! symbol with
      | Some lastUpd => if clk - lastUpd <? 5 * Second then Some lastPos else None
      | None => None
      end
  | None => None
  end.

(** [&futures.PositionRisk{Symbol: symbol, PositionAmt: "0"}] *)
Definition flat (symbol : string) : PositionRisk :=
  {| Symbol := symbol; PositionAmt := 0; EntryPrice := 0; UnRealizedProfit := 0 |}.

(** ** src/pkg/trading/trader.go *)

Module Trading.

(** [PlaceOrder] *)
Definition PlaceOrder (side : SideType) (orderType : OrderType) (quantity price : Q)
  : Gw (option error) :=
  let base := {| cSide := side; cPositionSide := None; cType := orderType;
                 cTimeInForce := None; cQuantity := Sprintf4 quantity;
                 cPrice := None; cStopPrice := None; cWorkingType := None |} in
  if bool_decide (orderType = OrderTypeLimit)
  then CreateOrderDo {| cSide := side; cPositionSide := None; cType := orderType;
                        cTimeInForce := Some TimeInForceTypeGTC;
                        cQuantity := Sprintf4 quantity;
                        cPrice := Some (Sprintf2 price); cStopPrice := None;
                        cWorkingType := None |}
  else CreateOrderDo base.

(** [SetStopLoss] *)
Definition SetStopLoss (position : PositionRisk) (stopPrice : Q) : Gw (option error) :=
  let amt := PositionAmt position in
  if Qeq_bool amt 0 then mret None
  else
    let '(side, positionSide) := closingSide amt in
    CreateOrderDo {| cSide := side; cPositionSide := Some positionSide;
                     cType := OrderTypeStopMarket; cTimeInForce := None;
                     cQuantity := Sprintf4 (Qabs amt);
                     cPrice := None; cStopPrice := Some (Sprintf2 stopPrice);
                     cWorkingType := None |}.

(** [SetTakeProfit] *)
Definition SetTakeProfit (position : PositionRisk) (price : Q) : Gw (option error) :=
  let amt := PositionAmt position in
  if Qeq_bool amt 0 then mret None
  else
    let '(side, positionSide) := closingSide amt in
    CreateOrderDo {| cSide := side; cPositionSide := Some positionSide;
                     cType := OrderTypeLimit; cTimeInForce := Some TimeInForceTypeGTC;
                     cQuantity := Sprintf4 (Qabs amt);
                     cPrice := Some (Sprintf2 price); cStopPrice := None;
                     cWorkingType := None |}.

(** [CancelAllOrders] *)
Definition CancelAllOrders : Gw (option error) := CancelAllOpenOrders.

(** [GetPosition] *)
Definition GetPosition (symbol : string) : Gw (error + PositionRisk) :=
  t ← getTrader;
  clk ← now;
  match cached symbol t clk with
  | Some lastPos => mret (inr lastPos)
  | None =>
      r ← GetPositionRisk;
      match r with
      | inl err => mret (inl err)
      | inr ps =>
          match List.find (fun p => bool_decide (Symbol p = symbol)) ps with
          | Some p =>
              t ← getTrader; clk ← now;
              putTrader (setCache symbol p clk t);;
              mret (inr p)
          | None =>
              t ← getTrader; clk ← now;
              putTrader (setCache symbol (flat symbol) clk t);;
              mret (inl ErrPositionNotFound)
          end
      end
  end.

End Trading.

(** ** Shared pieces of the command-line variants *)

Definition SOLUSDC : string := "SOLUSDC".

(** [for _, x := range l { body }] where the body only falls through or
    [continue]s. *)
Fixpoint forEach {A : Type} (l : list A) (body : A -> Gw unit) : Gw unit :=
  match l with
  | [] => mret tt
  | x :: l' => body x;; forEach l' body
  end.

(** The side of a protective leg, as the placement code picks it:
    [if amt > 0 { sell, long } else { buy, short }]. *)
Definition legSide (amt : Q) : SideType * PositionSideType :=
  if Qltb 0 amt then (SideTypeSell, PositionSideTypeLong)
  else (SideTypeBuy, PositionSideTypeShort).

(** The stop-market and the limit request of a protective leg, and the market
    request of the protective close. *)
Definition stopOrder (amt stopPrice : Q) (wt : option WorkingType) : CreateOrder :=
  let '(side, positionSide) := legSide amt in
  {| cSide := side; cPositionSide := Some positionSide;
     cType := OrderTypeStopMarket; cTimeInForce := None;
     cQuantity := Sprintf4 (Qabs amt);
     cPrice := None; cStopPrice := Some (Sprintf2 stopPrice);
     cWorkingType := wt |}.

Definition profitOrder (amt price : Q) (wt : option WorkingType) : CreateOrder :=
  let '(side, positionSide) := legSide amt in
  {| cSide := side; cPositionSide := Some positionSide;
     cType := OrderTypeLimit; cTimeInForce := Some TimeInForceTypeGTC;
     cQuantity := Sprintf4 (Qabs amt);
     cPrice := Some (Sprintf2 price); cStopPrice := None;
     cWorkingType := wt |}.

Definition marketOrder (amt : Q) : CreateOrder :=
  let '(side, positionSide) := closingSide amt in
  {| cSide := side; cPositionSide := Some positionSide;
     cType := OrderTypeMarket; cTimeInForce := None;
     cQuantity := Sprintf4 (Qabs amt);
     cPrice := None; cStopPrice := None; cWorkingType := None |}.

(** [if amt > 0 { p = entry - off } else { p = entry + off }] and its mirror,
    the sum and the difference taken exactly ([Binary64.stopPrice] and
    [Binary64.takeProfitPrice] round them). *)
Definition below (amt entryPrice off : Q) : Q :=
  if Qltb 0 amt then (entryPrice - off)%Q else (entryPrice + off)%Q.
Definition above (amt entryPrice off : Q) : Q :=
  if Qltb 0 amt then (entryPrice + off)%Q else (entryPrice - off)%Q.

(** The scan for a stop-market and a limit order of the position's size
    ([hasValidStopLoss], [hasValidTakeProfit]). *)
Definition scanValid (amt : Q) (orders : list Order) : bool * bool :=
  fold_left
    (fun (acc : bool * bool) order =>
       if qtyMatches (OrigQuantity order) amt then
         if isStopMarket order then (true, acc.2)
         else if isLimit order then (acc.1, true)
         else acc
       else acc)
    orders (false, false).

(** The drawdown test: [maxProfit >= 200 && unPnl <= maxProfit*0.5]. *)
Definition drawdown (maxP unPnl : Q) : bool :=
  Qle_bool 200 maxP && Qle_bool unPnl (maxP * (1 # 2)).

(** The update of the high-water mark and the market close that end
    [checkProtectiveStopProfit] in [part_000], [part_002] and [part_003]:
    a missing entry reads as 0, and 0 is taken for "no entry yet". *)
Definition trackAndClose (position : PositionRisk) : Gw (option error) :=
  let amt := PositionAmt position in
  let unPnl := UnRealizedProfit position in
  t ← getTrader;
  let stored := default 0%Q (maxProfit t !! Symbol position) in
  let raise_ := Qeq_bool stored 0 || Qltb stored unPnl in
  (if raise_
   then putTrader (setMaxProfit (<[Symbol position := unPnl]> (maxProfit t)) t)
   else mret tt);;
  let maxP := if raise_ then unPnl else stored in
  if drawdown maxP unPnl then
    e ← CreateOrderDo (marketOrder amt);
    match e with
    | Some _ => mret (Some ErrProtectiveClose)
    | None =>
        t ← getTrader;
        putTrader (setMaxProfit (delete (Symbol position) (maxProfit t)) t);;
        mret None
    end
  else mret None.

(** ** src/unnamed/part_003 *)

Module TopUp.

Definition isTPSL (order : Order) : bool :=
  (isLimit order && ReduceOnly order) || isStopMarket order.

(** The body of the loop of [cancelAllTPSL]: an order of the position's size
    is passed over when a size is given; a failed cancel is logged and the
    loop goes on. *)
Definition cancelEach (currentAmt : Q) (order : Order) : Gw unit :=
  if isTPSL order then
    if negb (Qeq_bool currentAmt 0) && qtyMatches (OrigQuantity order) currentAmt
    then mret tt
    else _ ← CancelOrder (OrderID order); mret tt
  else mret tt.

(** [cancelAllTPSL(currentAmt)] *)
Definition cancelAllTPSL (currentAmt : Q) : Gw (option error) :=
  r ← ListOpenOrders;
  match r with
  | inl _ => mret (Some ErrListOrders)
  | inr orders => forEach orders (cancelEach currentAmt);; mret None
  end.

(** [checkAndSetStopLoss]: present in the file, not called by its [run]. *)
Definition checkAndSetStopLoss (position : PositionRisk) : Gw (option error) :=
  let amt := PositionAmt position in
  let entryPrice := EntryPrice position in
  if Qeq_bool amt 0 then mret None
  else
    r ← ListOpenOrders;
    match r with
    | inl _ => mret (Some ErrListOrders)
    | inr orders =>
        let hasValidStopLoss :=
          existsb (fun order => isStopMarket order && qtyMatches (OrigQuantity order) amt)
                  orders in
        if hasValidStopLoss then mret None
        else
          e ← cancelAllTPSL amt;
          match e with
          | Some _ => mret (Some ErrCancelOrders)
          | None =>
              Sleep (2 * Second);;
              e ← CreateOrderDo
                    (stopOrder amt (roundToTickSize (below amt entryPrice 1) (1 # 100)) None);
              match e with
              | Some _ => mret (Some ErrCreateStopLoss)
              | None => mret None
              end
          end
    end.

(** The placement of the missing legs, lines 228-308. *)
Definition placeMissing (amt entryPrice : Q) (hasValidStopLoss hasValidTakeProfit : bool)
  : Gw (option error) :=
  e ← (if hasValidStopLoss then mret None
       else CreateOrderDo
              (stopOrder amt (below amt entryPrice 1) (Some WorkingTypeContractPrice)));
  match e with
  | Some _ => mret (Some ErrCreateStopLoss)
  | None =>
      e ← (if hasValidTakeProfit then mret None
           else CreateOrderDo
                  (profitOrder amt (above amt entryPrice 2) (Some WorkingTypeContractPrice)));
      match e with
      | Some _ => mret (Some ErrCreateTakeProfit)
      | None => mret None
      end
  end.

(** The test on the remembered position, lines 176-198: when the amount or
    the entry price has moved, the protective orders of another size are
    cancelled and the orders are listed again. *)
Definition relist (amt entryPrice : Q) (orders : list Order) : Gw (error + list Order) :=
  t ← getTrader;
  let lastAmt := default 0%Q (PositionAmt <$> lastPosition t !! SOLUSDC) in
  let lastEntryPrice := default 0%Q (EntryPrice <$> lastPosition t !! SOLUSDC) in
  if Qltb (1 # 10000) (Qabs (lastAmt - amt))
     || Qltb (1 # 100) (Qabs (lastEntryPrice - entryPrice))
  then
    e ← cancelAllTPSL amt;
    match e with
    | Some _ => mret (inl ErrCancelOrders)
    | None =>
        Sleep (1 * Second);;
        r ← ListOpenOrders;
        match r with
        | inl _ => mret (inl ErrListOrders)
        | inr orders' => mret (inr orders')
        end
    end
  else mret (inr orders).

(** [checkProtectiveStopProfit] *)
Definition checkProtectiveStopProfit (position : PositionRisk) : Gw (option error) :=
  let amt := PositionAmt position in
  if Qeq_bool amt 0 then
    t ← getTrader;
    putTrader (setMaxProfit (delete (Symbol position) (maxProfit t)) t);;
    e ← cancelAllTPSL 0;
    match e with
    | Some _ => mret (Some ErrCancelOrders)
    | None => mret None
    end
  else
    let entryPrice := EntryPrice position in
    r ← ListOpenOrders;
    match r with
    | inl _ => mret (Some ErrListOrders)
    | inr orders =>
        r ← relist amt entryPrice orders;
        match r with
        | inl err => mret (Some err)
        | inr orders =>
            let '(hasValidStopLoss, hasValidTakeProfit) := scanValid amt orders in
            (* [if amt == 0 { ... return nil }] stands here in the source; the
               test cannot hold, a zero [amt] has returned above *)
            e ← placeMissing amt entryPrice hasValidStopLoss hasValidTakeProfit;
            match e with
            | Some err => mret (Some err)
            | None => trackAndClose position
            end
        end
    end.

(** One turn of the loop of [run]. *)
Definition runOnce : Gw unit :=
  t ← getTrader;
  clk ← now;
  r ← match cached SOLUSDC t clk with
      | Some lastPos => mret (Some lastPos)
      | None =>
          r ← GetPositionRisk;
          match r with
          | inl _ => Sleep (5 * Second);; mret None
          | inr ps =>
              let found :=
                List.find (fun p => negb (Qeq_bool (PositionAmt p) 0)
                                    && bool_decide (Symbol p = SOLUSDC)) ps in
              let currentPosition := default (flat SOLUSDC) found in
              t ← getTrader; clk ← now;
              putTrader (setCache SOLUSDC currentPosition clk t);;
              mret (Some currentPosition)
          end
      end;
  match r with
  | None => mret tt
  | Some currentPosition =>
      _ ← checkProtectiveStopProfit currentPosition;
      Sleep (1 * Second)
  end.

End TopUp.

(** ** src/unnamed/part_000 and src/unnamed/part_002

    The two files differ in the orders [cancelAllTPSL] picks and in [run]. *)

Section Joint.

Variable isTPSL : Order -> bool.

(** The body of the loop of [cancelAllTPSL]; a failed cancel is logged and
    the loop goes on. *)
Definition cancelEach_joint (order : Order) : Gw unit :=
  if isTPSL order then _ ← CancelOrder (OrderID order); mret tt
  else mret tt.

(** [cancelAllTPSL] *)
Definition cancelAllTPSL_joint : Gw (option error) :=
  r ← ListOpenOrders;
  match r with
  | inl _ => mret (Some ErrListOrders)
  | inr orders => forEach orders cancelEach_joint;; mret None
  end.

(** [checkAndSetStopLoss] *)
Definition checkAndSetStopLoss_joint (position : PositionRisk) : Gw (option error) :=
  let amt := PositionAmt position in
  let entryPrice := EntryPrice position in
  if Qeq_bool amt 0 then mret None
  else
    r ← ListOpenOrders;
    match r with
    | inl _ => mret (Some ErrListOrders)
    | inr orders =>
        let hasValidStopLoss :=
          existsb (fun order => isStopMarket order && qtyMatches (OrigQuantity order) amt)
                  orders in
        if hasValidStopLoss then mret None
        else
          e ← cancelAllTPSL_joint;
          match e with
          | Some _ => mret (Some ErrCancelOrders)
          | None =>
              Sleep (2 * Second);;
              e ← CreateOrderDo
                    (stopOrder amt (roundToTickSize (below amt entryPrice 1) (1 # 100)) None);
              match e with
              | Some _ => mret (Some ErrCreateStopLoss)
              | None => mret None
              end
          end
    end.

(** [checkProtectiveStopProfit] *)
Definition checkProtectiveStopProfit_joint (position : PositionRisk) : Gw (option error) :=
  let amt := PositionAmt position in
  if Qeq_bool amt 0 then
    t ← getTrader;
    putTrader (setMaxProfit (delete (Symbol position) (maxProfit t)) t);;
    e ← cancelAllTPSL_joint;
    match e with
    | Some _ => mret (Some ErrCancelOrders)
    | None => mret None
    end
  else
    let entryPrice := EntryPrice position in
    r ← ListOpenOrders;
    match r with
    | inl _ => mret (Some ErrListOrders)
    | inr orders =>
        let '(hasValidStopLoss, hasValidTakeProfit) := scanValid amt orders in
        e ← (if negb hasValidStopLoss || negb hasValidTakeProfit then
               e ← cancelAllTPSL_joint;
               match e with
               | Some _ => mret (Some ErrCancelOrders)
               | None =>
                   Sleep (2 * Second);;
                   e ← CreateOrderDo (stopOrder amt (below amt entryPrice 1) None);
                   match e with
                   | Some _ => mret (Some ErrCreateStopLoss)
                   | None =>
                       e ← CreateOrderDo (profitOrder amt (above amt entryPrice 2) None);
                       match e with
                       | Some _ => mret (Some ErrCreateTakeProfit)
                       | None => mret None
                       end
                   end
               end
             else mret None);
        match e with
        | Some err => mret (Some err)
        | None => trackAndClose position
        end
    end.

End Joint.

Module Part000.
Definition isTPSL (order : Order) : bool := isLimit order || isStopMarket order.
Definition cancelAllTPSL := cancelAllTPSL_joint isTPSL.
Definition checkAndSetStopLoss := checkAndSetStopLoss_joint isTPSL.
Definition checkProtectiveStopProfit := checkProtectiveStopProfit_joint isTPSL.

(** The body of [run] for one listed position [p]. *)
Definition visit (p : PositionRisk) : Gw unit :=
  if bool_decide (Symbol p = SOLUSDC) && negb (Qeq_bool (PositionAmt p) 0) then
    _ ← checkProtectiveStopProfit p;
    _ ← checkAndSetStopLoss p;
    mret tt
  else mret tt.
End Part000.

Module Part002.
Definition isTPSL (order : Order) : bool :=
  (isLimit order && ReduceOnly order) || isStopMarket order.
Definition cancelAllTPSL := cancelAllTPSL_joint isTPSL.
Definition checkAndSetStopLoss := checkAndSetStopLoss_joint isTPSL.
Definition checkProtectiveStopProfit := checkProtectiveStopProfit_joint isTPSL.

(** The body of [run] for one listed position [p]. *)
Definition visit (p : PositionRisk) : Gw unit :=
  if bool_decide (Symbol p = SOLUSDC) then
    _ ← checkProtectiveStopProfit p; mret tt
  else mret tt.
End Part002.

(** ** src/unnamed/part_001 *)

Module Totals.

Definition isTPSL (order : Order) : bool := isLimit order || isStopMarket order.

(** [cancelAllTPSL] *)
Definition cancelAllTPSL : Gw (option error) := cancelAllTPSL_joint isTPSL.

(** [totalStopLossQty], [totalTakeProfitQty]: the sum over the orders of a type. *)
Definition totalQty (pick : Order -> bool) (orders : list Order) : Q :=
  fold_left (fun total order => if pick order then (total + OrigQuantity order)%Q else total)
            orders 0%Q.

(** [hasStopLoss], [hasTakeProfit]: an order of the type on the closing side. *)
Definition hasLeg (pick : Order -> bool) (amt : Q) (orders : list Order) : bool :=
  existsb (fun order => (Qltb 0 amt && isSell order && pick order)
                        || (Qltb amt 0 && isBuy order && pick order)) orders.

(** [checkAndSetStopLoss] *)
Definition checkAndSetStopLoss (position : PositionRisk) : Gw (option error) :=
  let amt := PositionAmt position in
  if Qeq_bool amt 0 then mret None
  else
    r ← ListOpenOrders;
    match r with
    | inl _ => mret (Some ErrListOrders)
    | inr orders =>
        let totalStopLossQty := totalQty isStopMarket orders in
        e ← (if Qltb (1 # 10000) (Qabs (totalStopLossQty - Qabs amt)) then
               e ← cancelAllTPSL;
               match e with
               | Some _ => mret (Some ErrCancelOrders)
               | None =>
                   t ← getTrader;
                   putTrader (setPositions (<[SOLUSDC := amt]> (positions t)) t);;
                   Sleep (1 * Second);;
                   mret None
               end
             else mret None);
        match e with
        | Some err => mret (Some err)
        | None =>
            let entryPrice := EntryPrice position in
            if hasLeg isStopMarket amt orders then mret None
            else
              e ← CreateOrderDo
                    (stopOrder amt (roundToTickSize (below amt entryPrice 1) (1 # 100)) None);
              match e with
              | Some _ => mret (Some ErrCreateStopLoss)
              | None => mret None
              end
        end
    end.

(** [checkAndSetTakeProfit] *)
Definition checkAndSetTakeProfit (position : PositionRisk) : Gw (option error) :=
  let amt := PositionAmt position in
  if Qeq_bool amt 0 then mret None
  else
    r ← ListOpenOrders;
    match r with
    | inl _ => mret (Some ErrListOrders)
    | inr orders =>
        let totalTakeProfitQty := totalQty isLimit orders in
        e ← (if Qltb (1 # 10000) (Qabs (totalTakeProfitQty - Qabs amt)) then
               e ← cancelAllTPSL;
               match e with
               | Some _ => mret (Some ErrCancelOrders)
               | None => Sleep (1 * Second);; mret None
               end
             else mret None);
        match e with
        | Some err => mret (Some err)
        | None =>
            let entryPrice := EntryPrice position in
            if hasLeg isLimit amt orders then mret None
            else
              e ← CreateOrderDo
                    (profitOrder amt (roundToTickSize (above amt entryPrice 2) (1 # 100)) None);
              match e with
              | Some _ => mret (Some ErrCreateTakeProfit)
              | None => mret None
              end
        end
    end.

(** [checkProtectiveStopProfit] *)
Definition checkProtectiveStopProfit (position : PositionRisk) : Gw (option error) :=
  let amt := PositionAmt position in
  if Qeq_bool amt 0 then
    t ← getTrader;
    putTrader (setMaxProfit (delete (Symbol position) (maxProfit t)) t);;
    mret None
  else
    let unPnl := UnRealizedProfit position in
    t ← getTrader;
    (match maxProfit t !! Symbol position with
     | None => putTrader (setMaxProfit (<[Symbol position := unPnl]> (maxProfit t)) t)
     | Some stored =>
         if Qltb stored unPnl
         then putTrader (setMaxProfit (<[Symbol position := unPnl]> (maxProfit t)) t)
         else mret tt
     end);;
    t ← getTrader;
    let maxP := default 0%Q (maxProfit t !! Symbol position) in
    if drawdown maxP unPnl then
      e ← CreateOrderDo (marketOrder amt);
      match e with
      | Some _ => mret (Some ErrProtectiveClose)
      | None =>
          t ← getTrader;
          putTrader (setMaxProfit (delete (Symbol position) (maxProfit t)) t);;
          mret None
      end
    else mret None.

(** The body of [run] for one listed position [p]. *)
Definition visit (p : PositionRisk) : Gw unit :=
  if bool_decide (Symbol p = SOLUSDC) && negb (Qeq_bool (PositionAmt p) 0) then
    _ ← checkProtectiveStopProfit p;
    _ ← checkAndSetTakeProfit p;
    _ ← checkAndSetStopLoss p;
    mret tt
  else mret tt.

End Totals.

(** ** The arithmetic of the source: binary64

    Where a theorem speaks of the very price that is sent, the numbers are
    taken as the Go code has them: [float64] values, every operation rounded
    to the nearest binary64 number, halves to the even significand.  A finite
    binary64 number is the rational it denotes (the two zeros are one
    number); the fields of [PositionRisk] and [Order] are read as the numbers
    their decimal texts denote, and [ParseFloat] rounds them.  An operation
    whose result is not finite (an overflow, a division by zero) has no
    result here, and a method that meets one has no outcome: the embedding
    covers the runs in which every number is finite. *)

Module Binary64.

Definition pow2 (k : Z) : Q := (2 ^ k)%Q.

(** The exponent of [x]: [2^(ilog2 x) <= |x| < 2^(ilog2 x + 1)] for [x] other
    than zero. *)
Definition ilog2 (x : Q) : Z :=
  let k := Z.log2 (Z.abs (Qnum x)) - Z.log2 (Zpos (Qden x)) in
  if Qle_bool (pow2 k) (Qabs x) then k else k - 1.

(** The distance between the binary64 numbers around [x]: 52 bits below the
    exponent, which is not less than -1022 (the subnormal range). *)
Definition ulp (x : Q) : Q := pow2 (Z.max (ilog2 x) (-1022) - 52).

(** The binary64 number nearest to [x], halves to even, the exponent not
    bounded above. *)
Definition nearest (x : Q) : Q :=
  Qred (inject_Z (roundHalfEven (x / ulp x)) * ulp x).

(** Rounding to binary64: no finite result from [2^1024] on. *)
Definition round (x : Q) : option Q :=
  let r := nearest x in
  if Qle_bool (pow2 1024) (Qabs r) then None else Some r.

(** [x + y], [x - y], [x * y], [x / y] on [float64] *)
Definition add (x y : Q) : option Q := round (x + y).
Definition sub (x y : Q) : option Q := round (x - y).
Definition mul (x y : Q) : option Q := round (x * y).
Definition div (x y : Q) : option Q := if Qeq_bool y 0 then None else round (x / y).

(** [math.Round] on [float64]: the result is an integer, and binary64 holds
    it exactly (a binary64 number of 2^52 or more is an integer already). *)
Definition Round (x : Q) : Q := inject_Z (Round x).

(** [strconv.ParseFloat(text, 64)] of a decimal text: the nearest binary64
    number. *)
Definition ParseFloat (text : Q) : option Q := round text.

(** The constants [0.01] and [0.0001] of the source text, as [float64]. *)
Definition tickSize : Q := nearest (1 # 100).
Definition tolerance : Q := nearest (1 # 10000).

(** [roundToTickSize]: [math.Round(price/tickSize) * tickSize] *)
Definition roundToTickSize (price tickSize : Q) : option Q :=
  q ← div price tickSize; mul (Round q) tickSize.

(** The gateway monad with a way out: [None] when a number is not finite. *)
Definition Fw (A : Type) : Type := St -> option (A * St).

#[global] Instance Fw_ret : MRet Fw := fun A (a : A) s => Some (a, s).
#[global] Instance Fw_bind : MBind Fw :=
  fun A B (k : A -> Fw B) (m : Fw A) s =>
    match m s with Some (a, s') => k a s' | None => None end.

Definition lift {A : Type} (m : Gw A) : Fw A := fun s => Some (m s).
Definition finite {A : Type} (x : option A) : Fw A :=
  fun s => match x with Some a => Some (a, s) | None => None end.

(** The price of the stop ([stopPrice], lines 95-111 of part_000 and
    107-123 of part_001) and of the take-profit ([price], lines 190-205 of
    part_001). *)
Definition stopPrice (amt entryPrice : Q) : option Q :=
  p ← (if Qltb 0 amt then sub entryPrice 1 else add entryPrice 1);
  roundToTickSize p tickSize.

Definition takeProfitPrice (amt entryPrice : Q) : option Q :=
  p ← (if Qltb 0 amt then add entryPrice 2 else sub entryPrice 2);
  roundToTickSize p tickSize.

Module Part000.

(** The scan for a stop of the position's size, with its [break],
    lines 71-81. *)
Fixpoint hasValidStopLoss (amt : Q) (orders : list Order) : option bool :=
  match orders with
  | [] => Some false
  | order :: orders' =>
      if isStopMarket order then
        qty ← ParseFloat (OrigQuantity order);
        d ← sub qty (Qabs amt);
        if Qle_bool (Qabs d) tolerance then Some true
        else hasValidStopLoss amt orders'
      else hasValidStopLoss amt orders'
  end.

(** What follows the scan, lines 83-129: without a valid stop the protective
    orders are cancelled and the stop is created. *)
Definition resetStopLoss (amt entryPrice : Q) (hasValidStopLoss : bool)
  : Fw (option error) :=
  if hasValidStopLoss then mret None
  else
    e ← lift Part000.cancelAllTPSL;
    match e with
    | Some _ => mret (Some ErrCancelOrders)
    | None =>
        lift (Sleep (2 * Second));;
        p ← finite (stopPrice amt entryPrice);
        e ← lift (CreateOrderDo (stopOrder amt p None));
        match e with
        | Some _ => mret (Some ErrCreateStopLoss)
        | None => mret None
        end
    end.

(** [checkAndSetStopLoss] of part_000 *)
Definition checkAndSetStopLoss (position : PositionRisk) : Fw (option error) :=
  amt ← finite (ParseFloat (PositionAmt position));
  entryPrice ← finite (ParseFloat (EntryPrice position));
  if Qeq_bool amt 0 then mret None
  else
    r ← lift ListOpenOrders;
    match r with
    | inl _ => mret (Some ErrListOrders)
    | inr orders =>
        valid ← finite (hasValidStopLoss amt orders);
        resetStopLoss amt entryPrice valid
    end.

End Part000.

Module Totals.

(** [totalStopLossQty], [totalTakeProfitQty]: the sum, term by term. *)
Fixpoint totalQty (pick : Order -> bool) (total : Q) (orders : list Order) : option Q :=
  match orders with
  | [] => Some total
  | order :: orders' =>
      if pick order then
        qty ← ParseFloat (OrigQuantity order);
        total' ← add total qty;
        totalQty pick total' orders'
      else totalQty pick total orders'
  end.

(** [math.Abs(total - math.Abs(amt)) > 0.0001] *)
Definition off (total amt : Q) : option bool :=
  d ← sub total (Qabs amt); Some (Qltb tolerance (Qabs d)).

(** [checkAndSetStopLoss] of part_001 from the test of the total on,
    lines 79-141. *)
Definition restoreStopLoss (position : PositionRisk) (amt : Q) (orders : list Order)
    (reset : bool) : Fw (option error) :=
  e ← (if reset then
         e ← lift Totals.cancelAllTPSL;
         match e with
         | Some _ => mret (Some ErrCancelOrders)
         | None =>
             t ← lift getTrader;
             lift (putTrader (setPositions (<[SOLUSDC := amt]> (positions t)) t));;
             lift (Sleep (1 * Second));;
             mret None
         end
       else mret None);
  match e with
  | Some err => mret (Some err)
  | None =>
      entryPrice ← finite (ParseFloat (EntryPrice position));
      if Totals.hasLeg isStopMarket amt orders then mret None
      else
        p ← finite (stopPrice amt entryPrice);
        e ← lift (CreateOrderDo (stopOrder amt p None));
        match e with
        | Some _ => mret (Some ErrCreateStopLoss)
        | None => mret None
        end
  end.

(** [checkAndSetStopLoss] of part_001 *)
Definition checkAndSetStopLoss (position : PositionRisk) : Fw (option error) :=
  amt ← finite (ParseFloat (PositionAmt position));
  if Qeq_bool amt 0 then mret None
  else
    r ← lift ListOpenOrders;
    match r with
    | inl _ => mret (Some ErrListOrders)
    | inr orders =>
        totalStopLossQty ← finite (totalQty isStopMarket 0 orders);
        reset ← finite (off totalStopLossQty amt);
        restoreStopLoss position amt orders reset
    end.

(** [checkAndSetTakeProfit] of part_001 from the test of the total on,
    lines 166-224. *)
Definition restoreTakeProfit (position : PositionRisk) (amt : Q) (orders : list Order)
    (reset : bool) : Fw (option error) :=
  e ← (if reset then
         e ← lift Totals.cancelAllTPSL;
         match e with
         | Some _ => mret (Some ErrCancelOrders)
         | None => lift (Sleep (1 * Second));; mret None
         end
       else mret None);
  match e with
  | Some err => mret (Some err)
  | None =>
      entryPrice ← finite (ParseFloat (EntryPrice position));
      if Totals.hasLeg isLimit amt orders then mret None
      else
        p ← finite (takeProfitPrice amt entryPrice);
        e ← lift (CreateOrderDo (profitOrder amt p None));
        match e with
        | Some _ => mret (Some ErrCreateTakeProfit)
        | None => mret None
        end
  end.

(** [checkAndSetTakeProfit] of part_001 *)
Definition checkAndSetTakeProfit (position : PositionRisk) : Fw (option error) :=
  amt ← finite (ParseFloat (PositionAmt position));
  if Qeq_bool amt 0 then mret None
  else
    r ← lift ListOpenOrders;
    match r with
    | inl _ => mret (Some ErrListOrders)
    | inr orders =>
        totalTakeProfitQty ← finite (totalQty isLimit 0 orders);
        reset ← finite (off totalTakeProfitQty amt);
        restoreTakeProfit position amt orders reset
    end.

End Totals.

End Binary64.

(** ** Sample states *)

Definition noMaps : Trader :=
  {| maxProfit := ∅; positions := ∅; lastPosition := ∅; lastUpdate := ∅ |}.

(** A venue with the orders [b] resting, answering the position-risk call
    with [l] and the calls to come as [sc] tells. *)
Definition venue (b : list Order) (l : list PositionRisk) (sc : list bool) : World :=
  {| book := b; nextID := 1 + foldr Z.max 0 (OrderID <$> b); listing := l;
     script := sc; clock := 0; trace := [] |}.

Definition idle : St := {| tr := noMaps; wd := venue [] [] [] |}.

Definition long1 : PositionRisk :=
  {| Symbol := SOLUSDC; PositionAmt := 1; EntryPrice := 100; UnRealizedProfit := 0 |}.

Definition btc : PositionRisk :=
  {| Symbol := "BTCUSDT"; PositionAmt := 1 # 100; EntryPrice := 60000;
     UnRealizedProfit := 0 |}.

(** The venue answers every call to come. *)
Definition reliable (s : St) : Prop := Forall (fun b => b = true) (script (wd s)).

Definition short25 : PositionRisk :=
  {| Symbol := SOLUSDC; PositionAmt := - (5 # 2); EntryPrice := 50; UnRealizedProfit := 0 |}.

(** A sell stop of the position's size resting above the entry price. *)
Definition staleStop : Order :=
  {| OrderID := 7; Side := SideTypeSell; Typ := OrderTypeStopMarket;
     OrigQuantity := 1; Price := 0; StopPrice := 150; ReduceOnly := true |}.

(** ** The high-water mark, in the words of the specification *)

(** The mark after an observation [unPnl]: the observation itself on first
    sight, the larger of the stored mark and the observation afterwards. *)
Definition raised (stored : option Q) (unPnl : Q) : Q :=
  match stored with
  | None => unPnl
  | Some m => if Qltb m unPnl then unPnl else m
  end.

(** The largest of the observations seen. *)
Definition maxPnl (pnls : list Q) : Q :=
  match pnls with
  | [] => 0%Q
  | x :: rest => fold_left Qmax rest x
  end.

(** No observation of the sequence meets the drawdown test against the
    largest observation up to it. *)
Definition calm (pnls : list Q) : Prop :=
  forall seen x rest, pnls = seen ++ x :: rest -> drawdown (maxPnl (seen ++ [x])) x = false.

(** The monitor run over successive observations: [step] is the method that
    takes one observation. *)
Definition observe (step : PositionRisk -> Gw (option error))
    (obs : list PositionRisk) (s : St) : St :=
  fold_left (fun s p => (step p s).2) obs s.

(** Every largest observation that the monitor reads back later satisfies
    [ok]. *)
Definition marksAre (ok : Q -> Prop) (pnls : list Q) : Prop :=
  forall seen x rest, pnls = seen ++ x :: rest -> seen <> [] -> ok (maxPnl seen).

Definition withPnl (p : PositionRisk) (unPnl : Q) : PositionRisk :=
  {| Symbol := Symbol p; PositionAmt := PositionAmt p; EntryPrice := EntryPrice p;
     UnRealizedProfit := unPnl |}.

Definition marked (sym : string) (m : Q) (s : St) : St :=
  setTrader (setMaxProfit (<[sym := m]> (maxProfit (tr s))) (tr s)) s.

(** ** The target configuration (invariant I2), in the words of the specification *)

(** Exactly one stop-market and exactly one limit order, each of the
    position's size within 0.0001, and no other reduce-only order. *)
Definition targetConfiguration (amt : Q) (bk : list Order) : bool :=
  (length (List.filter isStopMarket bk) =? 1)%nat
  && (length (List.filter isLimit bk) =? 1)%nat
  && forallb (fun o => if isStopMarket o || isLimit o
                       then qtyMatches (OrigQuantity o) amt
                       else negb (ReduceOnly o)) bk.

(** Two stops and a limit of the size of [long1], all on the closing side. *)
Definition twoStops : list Order :=
  [ {| OrderID := 1; Side := SideTypeSell; Typ := OrderTypeStopMarket;
       OrigQuantity := 1; Price := 0; StopPrice := 99; ReduceOnly := true |};
    {| OrderID := 2; Side := SideTypeSell; Typ := OrderTypeStopMarket;
       OrigQuantity := 1; Price := 0; StopPrice := 99; ReduceOnly := true |};
    {| OrderID := 3; Side := SideTypeSell; Typ := OrderTypeLimit;
       OrigQuantity := 1; Price := 102; StopPrice := 0; ReduceOnly := true |} ].

(** ** What the properties speak of *)

(** The orders [cancelAllTPSL(currentAmt)] goes on to cancel. *)
Definition doomed (currentAmt : Q) (o : Order) : Prop :=
  TopUp.isTPSL o = true /\ qtyMatches (OrigQuantity o) currentAmt = false.

(** Every call [m] adds to the trace satisfies [P]. *)
Definition issues {A : Type} (P : Call -> Prop) (m : Gw A) : Prop :=
  forall s, exists cs, trace (wd (m s).2) = trace (wd s) ++ cs /\ Forall P cs.

(** A request is a protective leg well placed for [position]: it is on the
    closing side, a stop below the entry price and a limit above it for a
    long, the reverse for a short. *)
Definition wellPlaced (position : PositionRisk) (r : CreateOrder) : Prop :=
  let amt := PositionAmt position in
  let entry := EntryPrice position in
  ((0 < amt)%Q -> cSide r = SideTypeSell /\ cPositionSide r = Some PositionSideTypeLong) /\
  ((amt < 0)%Q -> cSide r = SideTypeBuy /\ cPositionSide r = Some PositionSideTypeShort) /\
  match cType r with
  | OrderTypeStopMarket =>
      exists sp, cStopPrice r = Some sp /\
                 ((0 < amt)%Q -> (sp < entry)%Q) /\ ((amt < 0)%Q -> (entry < sp)%Q)
  | OrderTypeLimit =>
      exists p, cPrice r = Some p /\
                ((0 < amt)%Q -> (entry < p)%Q) /\ ((amt < 0)%Q -> (p < entry)%Q)
  | _ => True
  end.

Definition placesWell (position : PositionRisk) (c : Call) : Prop :=
  match c with CallCreateOrder r => wellPlaced position r | _ => True end.

Definition tick : Q := 1 # 100.

(** In the words of the specification: [n] is an integer nearest to [x]; [p]
    is [x] rounded to the tick, a nearest integer of [x / tick] times the
    tick. *)
Definition nearestInteger (x : Q) (n : Z) : Prop :=
  forall m : Z, (Qabs (x - inject_Z n) <= Qabs (x - inject_Z m))%Q.
Definition roundedToTick (x p : Q) : Prop :=
  exists n : Z, nearestInteger (x / tick) n /\ (p == inject_Z n * tick)%Q.

(** [p] is a multiple of the tick within half a tick and [eps] of [x]. *)
Definition nearTick (eps x p : Q) : Prop :=
  exists n : Z, (p == inject_Z n * tick)%Q /\ (Qabs (p - x) <= tick * (1 # 2) + eps)%Q.

(** What binary64 can add to the half tick, for prices up to [10^9]. *)
Definition slack : Q := 1 # 1000000.

(** The stop-loss and the take-profit request for [position]: the type, the
    closing side, the quantity [|amt|] of the position with four decimals,
    and a price on the tick next to [entryPrice -/+ 1], [entryPrice +/- 2]. *)
Definition stopLeg (position : PositionRisk) (c : CreateOrder) : Prop :=
  let amt := PositionAmt position in
  cType c = OrderTypeStopMarket /\ cTimeInForce c = None /\ cPrice c = None /\
  (cSide c, cPositionSide c) = ((legSide amt).1, Some (legSide amt).2) /\
  (exists a, Binary64.ParseFloat amt = Some a /\ cQuantity c = Sprintf4 (Qabs a)) /\
  exists p, cStopPrice c = Some p /\ nearTick slack (below amt (EntryPrice position) 1) p.

Definition limitLeg (position : PositionRisk) (c : CreateOrder) : Prop :=
  let amt := PositionAmt position in
  cType c = OrderTypeLimit /\ cTimeInForce c = Some TimeInForceTypeGTC /\
  cStopPrice c = None /\
  (cSide c, cPositionSide c) = ((legSide amt).1, Some (legSide amt).2) /\
  (exists a, Binary64.ParseFloat amt = Some a /\ cQuantity c = Sprintf4 (Qabs a)) /\
  exists p, cPrice c = Some p /\ nearTick slack (above amt (EntryPrice position) 2) p.

(** No order is created but one that is [L]. *)
Definition creates (L : CreateOrder -> Prop) (c : Call) : Prop :=
  match c with CallCreateOrder r => L r | _ => True end.

(** The run of [m] from [s] has an outcome, and every call it adds to the
    trace satisfies [P]. *)
Definition runs {A : Type} (P : Call -> Prop) (m : Binary64.Fw A) (s : St) : Prop :=
  exists a s', m s = Some (a, s') /\
               exists cs, trace (wd s') = trace (wd s) ++ cs /\ Forall P cs.

(** The run of [m] from [s] returns nil and leaves one order resting, the
    one it has just sent, which is [L]. *)
Definition places (L : CreateOrder -> Prop) (m : Binary64.Fw (option error)) (s : St)
  : Prop :=
  exists s' c, m s = Some (None, s') /\ L c /\
               book (wd s') = [rest (nextID (wd s)) c] /\
               last (trace (wd s')) = Some (CallCreateOrder c).

(** A book of a thousand orders at most, none of more than [10^9] units. *)
Definition tame (s : St) : Prop :=
  Forall (fun o => (Qabs (OrigQuantity o) <= 1000000000)%Q) (book (wd s)) /\
  (length (book (wd s)) <= 1000)%nat.

(** A long of one unit entered at [entryPrice]. *)
Definition longAt (entryPrice : Q) : PositionRisk :=
  {| Symbol := SOLUSDC; PositionAmt := 1; EntryPrice := entryPrice;
     UnRealizedProfit := 0 |}.

(** The legs [placeMissing] adds to the book. *)
Definition newLegs (amt entryPrice : Q) (n : Z) (hasSL hasTP : bool) : list Order :=
  (if hasSL then []
   else [rest n (stopOrder amt (below amt entryPrice 1) (Some WorkingTypeContractPrice))])
  ++ (if hasTP then []
      else [rest (if hasSL then n else n + 1)
              (profitOrder amt (above amt entryPrice 2) (Some WorkingTypeContractPrice))]).

(** A stop of the size of [long1] next to a stop left from a larger position. *)
Definition fitStop : Order :=
  {| OrderID := 1; Side := SideTypeSell; Typ := OrderTypeStopMarket;
     OrigQuantity := 1; Price := 0; StopPrice := 99; ReduceOnly := true |}.
Definition oversizeStop : Order :=
  {| OrderID := 2; Side := SideTypeSell; Typ := OrderTypeStopMarket;
     OrigQuantity := 3; Price := 0; StopPrice := 99; ReduceOnly := true |}.

(** ** What the further properties speak of *)

(** The orders for which [cancelAllTPSL(currentAmt)] of [part_003] sends a
    cancel: the protective ones, less those of the position's size when a
    size is given. *)
Definition cancels (currentAmt : Q) (o : Order) : bool :=
  TopUp.isTPSL o
  && negb (negb (Qeq_bool currentAmt 0) && qtyMatches (OrigQuantity o) currentAmt).

(** The cancel calls for the orders of [l] picked by [f], in the order of [l]. *)
Definition cancelCalls (f : Order -> bool) (l : list Order) : list Call :=
  (fun o => CallCancelOrder (OrderID o)) <$> List.filter f l.

(** The ids of the orders of [l] picked by [f]. *)
Definition pickedIds (f : Order -> bool) (l : list Order) : list Z :=
  OrderID <$> List.filter f l.

(** A call that is not the creation of an order. *)
Definition notCreate (c : Call) : Prop :=
  match c with CallCreateOrder _ => False | _ => True end.

(** A call that is not a cancel. *)
Definition notCancel (c : Call) : Prop :=
  match c with CallCancelOrder _ | CallCancelAllOpenOrders => False | _ => True end.

(** A book with a stop of another size, a reduce-only limit of another size
    and a limit that is not reduce-only. *)
Definition mixedBook : list Order :=
  [ {| OrderID := 1; Side := SideTypeSell; Typ := OrderTypeStopMarket;
       OrigQuantity := 3; Price := 0; StopPrice := 99; ReduceOnly := true |};
    {| OrderID := 2; Side := SideTypeSell; Typ := OrderTypeLimit;
       OrigQuantity := 3; Price := 102; StopPrice := 0; ReduceOnly := true |};
    {| OrderID := 3; Side := SideTypeBuy; Typ := OrderTypeLimit;
       OrigQuantity := 5; Price := 95; StopPrice := 0; ReduceOnly := false |} ].

(** ** One turn of the loops of [run] *)

(** [run] of [part_000] and of [part_001]: on each tick of the five-second
    ticker the positions are fetched; a failed fetch is logged and the tick
    is over. *)
Definition run_part_000 : Gw unit :=
  r ← GetPositionRisk;
  match r with
  | inl _ => mret tt
  | inr ps => forEach ps Part000.visit
  end.

Definition run_part_001 : Gw unit :=
  r ← GetPositionRisk;
  match r with
  | inl _ => mret tt
  | inr ps => forEach ps Totals.visit
  end.

(** [run] of [part_002]: a failed fetch is followed by a wait of five
    seconds, a turn by a wait of one second. *)
Definition run_part_002 : Gw unit :=
  r ← GetPositionRisk;
  match r with
  | inl _ => Sleep (5 * Second)
  | inr ps => forEach ps Part002.visit;; Sleep Second
  end.

(** A position-risk entry of SOLUSDC, flat, next to the one of another symbol. *)
Definition flatListing : list PositionRisk := [btc; flat SOLUSDC].

(** The test of [part_003] for a position that has moved since it was
    remembered: the amount by more than 0.0001 or the entry price by more
    than 0.01 (nothing remembered reads as 0). *)
Definition moved (t : Trader) (amt entryPrice : Q) : bool :=
  Qltb (1 # 10000) (Qabs (default 0%Q (PositionAmt <$> lastPosition t !! SOLUSDC) - amt))
  || Qltb (1 # 100) (Qabs (default 0%Q (EntryPrice <$> lastPosition t !! SOLUSDC) - entryPrice)).

(** A listing of the orders, or the market order of the protective close. *)
Definition listOrClose (amt : Q) (c : Call) : Prop :=
  c = CallListOpenOrders \/ c = CallCreateOrder (marketOrder amt).

(** A stop of twice the size of [long1] on its closing side, and the limit of
    its size. *)
Definition doubleStopBook : list Order :=
  [ {| OrderID := 1; Side := SideTypeSell; Typ := OrderTypeStopMarket;
       OrigQuantity := 2; Price := 0; StopPrice := 99; ReduceOnly := true |};
    {| OrderID := 2; Side := SideTypeSell; Typ := OrderTypeLimit;
       OrigQuantity := 1; Price := 102; StopPrice := 0; ReduceOnly := true |} ].

(** A limit of twice the size of [long1] on its closing side, and the stop of
    its size. *)
Definition doubleLimitBook : list Order :=
  [ {| OrderID := 1; Side := SideTypeSell; Typ := OrderTypeLimit;
       OrigQuantity := 2; Price := 102; StopPrice := 0; ReduceOnly := true |};
    {| OrderID := 2; Side := SideTypeSell; Typ := OrderTypeStopMarket;
       OrigQuantity := 1; Price := 0; StopPrice := 99; ReduceOnly := true |} ].

(** The cache of [Trader] is keyed by symbol: what is remembered under a
    symbol is a position of that symbol. *)
Definition keyed (t : Trader) : Prop :=
  forall k p, lastPosition t !! k = Some p -> Symbol p = k.

(** * Properties *)

(** ** Numbers *)

Lemma Qltb_lt x y : Qltb x y = true <-> (x < y)%Q.
Proof.
  unfold Qltb. rewrite negb_true_iff. split.
  - intros H. apply Qnot_le_lt. intros Hle. apply Qle_bool_iff in Hle. congruence.
  - intros H. destruct (Qle_bool y x) eqn:E; [|done].
    apply Qle_bool_iff in E. exfalso. eapply Qlt_not_le; eauto.
Qed.

Lemma Qltb_ge x y : Qltb x y = false <-> (y <= x)%Q.
Proof.
  unfold Qltb. rewrite negb_false_iff. apply Qle_bool_iff.
Qed.

Lemma Qmake_scale (n : Z) (d : positive) : (n # d == inject_Z n * (1 # d))%Q.
Proof. unfold Qeq, inject_Z, Qmult. simpl. lia. Qed.

(** The floor brackets its argument; stated over an opaque [f] for [lra]. *)
Lemma floor_bracket x : exists f : Q, f = inject_Z (Qfloor x) /\ (f <= x < f + 1)%Q.
Proof.
  exists (inject_Z (Qfloor x)). split; [done|]. split.
  - apply Qfloor_le.
  - pose proof (Qlt_floor x) as H. rewrite inject_Z_plus in H. exact H.
Qed.

Lemma roundHalfEven_near x : (Qabs (inject_Z (roundHalfEven x) - x) <= 1 # 2)%Q.
Proof.
  destruct (floor_bracket x) as (f & Hf & Hlo & Hhi).
  apply Qabs_Qle_condition. unfold roundHalfEven. rewrite <- Hf.
  destruct (Qltb _ _) eqn:E1.
  { apply Qltb_lt in E1. rewrite <- Hf. split; lra. }
  apply Qltb_ge in E1.
  destruct (Qltb (1 # 2) _) eqn:E2.
  { apply Qltb_lt in E2. rewrite inject_Z_plus, <- Hf.
    change (inject_Z 1) with 1%Q. split; lra. }
  apply Qltb_ge in E2.
  destruct (Z.even _); [|rewrite inject_Z_plus]; rewrite <- Hf;
    change (inject_Z 1) with 1%Q; split; lra.
Qed.

Lemma Round_near x : (Qabs (inject_Z (Round x) - x) <= 1 # 2)%Q.
Proof.
  apply Qabs_Qle_condition. unfold Round.
  destruct (Qle_bool 0 x) eqn:E.
  - destruct (floor_bracket (x + (1 # 2))) as (f & Hf & Hlo & Hhi).
    rewrite <- Hf. split; lra.
  - destruct (floor_bracket (- x + (1 # 2))) as (f & Hf & Hlo & Hhi).
    rewrite inject_Z_opp, <- Hf. split; lra.
Qed.

Lemma Sprintf4_near x : (Qabs (Sprintf4 x - x) <= 1 # 20000)%Q.
Proof.
  unfold Sprintf4. rewrite Qred_correct, Qmake_scale.
  pose proof (roundHalfEven_near (x * 10000)) as H.
  apply Qabs_Qle_condition in H. apply Qabs_Qle_condition.
  set (n := inject_Z _) in *. split; lra.
Qed.

Lemma Sprintf2_near x : (Qabs (Sprintf2 x - x) <= 1 # 200)%Q.
Proof.
  unfold Sprintf2. rewrite Qred_correct, Qmake_scale.
  pose proof (roundHalfEven_near (x * 100)) as H.
  apply Qabs_Qle_condition in H. apply Qabs_Qle_condition.
  set (n := inject_Z _) in *. split; lra.
Qed.

Lemma roundToTickSize_near x : (Qabs (roundToTickSize x (1 # 100) - x) <= 1 # 200)%Q.
Proof.
  unfold roundToTickSize.
  pose proof (Round_near (x / (1 # 100))) as H.
  apply Qabs_Qle_condition in H. apply Qabs_Qle_condition.
  set (n := inject_Z _) in *.
  assert (x / (1 # 100) == x * 100)%Q as E by (field).
  rewrite E in H. split; lra.
Qed.

Lemma qtyMatches_Sprintf4 amt : qtyMatches (Sprintf4 (Qabs amt)) amt = true.
Proof.
  unfold qtyMatches. apply Qle_bool_iff.
  pose proof (Sprintf4_near (Qabs amt)) as H.
  set (a := Qabs amt) in *. set (b := Sprintf4 a) in *.
  apply Qabs_Qle_condition in H. apply Qabs_Qle_condition. split; lra.
Qed.

Lemma roundHalfEven_integer (y : Q) (n : Z) : (y == inject_Z n)%Q -> roundHalfEven y = n.
Proof.
  intros Hy. unfold roundHalfEven.
  assert (Qfloor y = n) as Hf by (rewrite Hy; apply Qfloor_Z).
  rewrite Hf.
  assert (Qltb (y - inject_Z n) (1 # 2) = true) as ->; [|done].
  apply Qltb_lt. rewrite Hy. set (z := inject_Z n). lra.
Qed.

(** ** src/pkg/trading/trader.go *)

Lemma GetPosition_cached (symbol : string) (s : St) (p : PositionRisk) :
  cached symbol (tr s) (clock (wd s)) = Some p ->
  Trading.GetPosition symbol s = (inr p, s).
Proof.
  intros H. unfold Trading.GetPosition, mbind, Gw_bind, getTrader, now. simpl.
  rewrite H. reflexivity.
Qed.

Lemma find_absent (symbol : string) (ps : list PositionRisk) :
  (forall p, In p ps -> Symbol p <> symbol) ->
  List.find (fun p => bool_decide (Symbol p = symbol)) ps = None.
Proof.
  induction ps as [|p ps IH]; intros H; simpl; [done|].
  rewrite bool_decide_eq_false_2 by (apply H; simpl; auto).
  apply IH. intros q Hq. apply H. simpl; auto.
Qed.

(** What [GetPosition] does when the listing has no entry of the symbol: the
    flat position goes into the cache, and the caller gets an error. *)
Lemma GetPosition_absent (symbol : string) (s : St) :
  cached symbol (tr s) (clock (wd s)) = None ->
  nextOutcome (wd s) = true ->
  (forall p, In p (listing (wd s)) -> Symbol p <> symbol) ->
  let r := Trading.GetPosition symbol s in
  r.1 = inl ErrPositionNotFound /\
  lastPosition (tr r.2) !! symbol = Some (flat symbol) /\
  lastUpdate (tr r.2) !! symbol = Some (clock (wd s)).
Proof.
  intros Hc Hok Habs.
  unfold Trading.GetPosition, mbind, Gw_bind, getTrader, now, GetPositionRisk. simpl.
  rewrite Hc, Hok. simpl. rewrite (find_absent _ _ Habs). simpl.
  repeat split; apply lookup_insert_eq.
Qed.

(** C7, the failing input: the cache is empty and the venue lists another
    symbol only.  [GetPosition] stores the flat position for SOLUSDC and
    returns the error "position not found"; asked again at once, it returns
    the flat position from the cache without calling the venue. *)
Theorem GetPosition_absent_symbol_is_an_error :
  let s := {| tr := noMaps; wd := venue [] [btc] [] |} in
  let r := Trading.GetPosition SOLUSDC s in
  r.1 = inl ErrPositionNotFound /\
  trace (wd r.2) = [CallGetPositionRisk] /\
  lastPosition (tr r.2) !! SOLUSDC = Some (flat SOLUSDC) /\
  lastUpdate (tr r.2) !! SOLUSDC = Some 0 /\
  Trading.GetPosition SOLUSDC r.2 = (inr (flat SOLUSDC), r.2).
Proof. vm_compute. repeat split. Qed.

(** The loop of [part_003] does the same look-up in line and carries on with
    the flat position it has made. *)
Lemma runOnce_absent_symbol_goes_on_flat :
  let s := {| tr := noMaps; wd := venue [] [btc] [] |} in
  let r := TopUp.runOnce s in
  lastPosition (tr r.2) !! SOLUSDC = Some (flat SOLUSDC) /\
  trace (wd r.2) = [CallGetPositionRisk; CallListOpenOrders].
Proof. vm_compute. repeat split. Qed.

(** C8: when the position-risk call is made (the cache has no fresh entry)
    and the venue fails it, [GetPosition] returns the venue's error and the
    trader's maps, [lastPosition] and [lastUpdate] among them, are as before;
    the one call made is the failed one. *)
Theorem GetPosition_gateway_failure (symbol : string) (s : St) :
  cached symbol (tr s) (clock (wd s)) = None ->
  nextOutcome (wd s) = false ->
  let r := Trading.GetPosition symbol s in
  r.1 = inl VenueError /\
  tr r.2 = tr s /\
  lastPosition (tr r.2) = lastPosition (tr s) /\
  lastUpdate (tr r.2) = lastUpdate (tr s) /\
  trace (wd r.2) = trace (wd s) ++ [CallGetPositionRisk].
Proof.
  intros Hc Hfail.
  unfold Trading.GetPosition, mbind, Gw_bind, getTrader, now, GetPositionRisk. simpl.
  rewrite Hc, Hfail. simpl. repeat split.
Qed.

Lemma GetPosition_gateway_failure_witness :
  let s := {| tr := noMaps; wd := venue [] [long1] [false] |} in
  let r := Trading.GetPosition SOLUSDC s in
  r.1 = inl VenueError /\
  tr r.2 = tr s /\
  lastPosition (tr r.2) = lastPosition (tr s) /\
  lastUpdate (tr r.2) = lastUpdate (tr s) /\
  trace (wd r.2) = trace (wd s) ++ [CallGetPositionRisk].
Proof.
  apply (GetPosition_gateway_failure SOLUSDC
           {| tr := noMaps; wd := venue [] [long1] [false] |});
    reflexivity.
Defined.

(** C9: for a position whose amount is zero, [SetStopLoss] and
    [SetTakeProfit] return nil and leave the state as it was: nothing is
    added to the trace of calls, no order is created. *)
Theorem SetStopLoss_SetTakeProfit_zero (position : PositionRisk) (stopPrice price : Q)
    (s : St) :
  (PositionAmt position == 0)%Q ->
  Trading.SetStopLoss position stopPrice s = (None, s) /\
  Trading.SetTakeProfit position price s = (None, s).
Proof.
  intros H. apply Qeq_bool_iff in H.
  unfold Trading.SetStopLoss, Trading.SetTakeProfit. rewrite H. split; reflexivity.
Qed.

Lemma SetStopLoss_SetTakeProfit_zero_witness :
  Trading.SetStopLoss (flat SOLUSDC) 99 idle = (None, idle) /\
  Trading.SetTakeProfit (flat SOLUSDC) 102 idle = (None, idle).
Proof.
  apply (SetStopLoss_SetTakeProfit_zero (flat SOLUSDC) 99 102 idle). reflexivity.
Defined.

(** For any other amount the order is sent: the silent return is the zero
    case alone. *)
Lemma SetStopLoss_sends (position : PositionRisk) (stopPrice : Q) (s : St) :
  ~ (PositionAmt position == 0)%Q ->
  exists r, trace (wd (Trading.SetStopLoss position stopPrice s).2)
            = trace (wd s) ++ [CallCreateOrder r]
            /\ cType r = OrderTypeStopMarket.
Proof.
  intros H. unfold Trading.SetStopLoss.
  destruct (Qeq_bool _ _) eqn:E; [apply Qeq_bool_iff in E; contradiction|].
  destruct (closingSide _) as [side ps]. eexists. split.
  - unfold CreateOrderDo. destruct (nextOutcome _); reflexivity.
  - reflexivity.
Qed.

(** ** The gateway *)

Lemma reliable_next (s : St) : reliable s -> nextOutcome (wd s) = true.
Proof.
  unfold reliable, nextOutcome. destruct (script (wd s)); [done|].
  intros H. by inversion H.
Qed.

Lemma reliable_called (c : Call) (s : St) (b : list Order) (n : Z) :
  reliable s -> reliable (setWorld (withBook b n (called c (wd s))) s).
Proof.
  unfold reliable. simpl. destruct (script (wd s)); simpl; [done|].
  intros H. by inversion H.
Qed.

Lemma reliable_called' (c : Call) (s : St) :
  reliable s -> reliable (setWorld (called c (wd s)) s).
Proof.
  unfold reliable. simpl. destruct (script (wd s)); simpl; [done|].
  intros H. by inversion H.
Qed.

(** ** src/unnamed/part_003: the selective cancel *)

Lemma cancelEach_loop (currentAmt : Q) (orders : list Order) :
  ~ (currentAmt == 0)%Q ->
  forall s, let s' := (forEach orders (TopUp.cancelEach currentAmt) s).2 in
  tr s' = tr s /\
  nextID (wd s') = nextID (wd s) /\
  (exists cs, trace (wd s') = trace (wd s) ++ cs /\
     Forall (fun c => exists o, o ∈ orders /\ doomed currentAmt o
                               /\ c = CallCancelOrder (OrderID o)) cs) /\
  (forall o, o ∈ book (wd s') -> o ∈ book (wd s)) /\
  (forall o, o ∈ book (wd s) ->
     (forall o', o' ∈ orders -> doomed currentAmt o' -> OrderID o' <> OrderID o) ->
     o ∈ book (wd s')).
Proof.
  intros Hnz. induction orders as [|x orders IH]; intros s.
  { simpl. repeat split; try done. exists []. by rewrite app_nil_r. }
  cbn [forEach]. unfold mbind, Gw_bind.
  destruct (TopUp.cancelEach currentAmt x s) as [u s1] eqn:E1.
  specialize (IH s1). cbn zeta in IH |- *.
  destruct (forEach orders (TopUp.cancelEach currentAmt) s1) as [u' s2] eqn:E2.
  simpl in IH |- *.
  destruct IH as (Htr & Hid & (cs & Hcs & Hall) & Hsub & Hkeep).
  assert (Hall' : Forall (fun c => exists o, o ∈ x :: orders /\ doomed currentAmt o
                               /\ c = CallCancelOrder (OrderID o)) cs).
  { eapply Forall_impl; [exact Hall|]. intros c (o & Ho & Hd & ->).
    exists o. split; [by apply list_elem_of_further|done]. }
  unfold TopUp.cancelEach in E1.
  destruct (TopUp.isTPSL x) eqn:Ex.
  2:{ inversion E1; subst s1. repeat split; try done. by exists cs. 
      intros o Ho Hne. apply Hkeep; [done|]. intros o' Ho'. apply Hne.
      by apply list_elem_of_further. }
  assert (Qeq_bool currentAmt 0 = false) as Hz.
  { destruct (Qeq_bool currentAmt 0) eqn:E; [|done].
    apply Qeq_bool_iff in E. contradiction. }
  rewrite Hz in E1. simpl in E1.
  destruct (qtyMatches (OrigQuantity x) currentAmt) eqn:Em.
  { inversion E1; subst s1. repeat split; try done. by exists cs.
    intros o Ho Hne. apply Hkeep; [done|]. intros o' Ho'. apply Hne.
    by apply list_elem_of_further. }
  unfold mbind, Gw_bind, CancelOrder in E1.
  assert (Hx : doomed currentAmt x) by done.
  destruct (nextOutcome (wd s)); inversion E1; subst s1; clear E1; simpl in *.
  - repeat split; try done.
    + exists (CallCancelOrder (OrderID x) :: cs). split.
      * rewrite Hcs. by rewrite <- app_assoc.
      * constructor; [|done]. exists x. split; [apply list_elem_of_here|done].
    + intros o Ho. apply Hsub in Ho. apply list_elem_of_filter in Ho. tauto.
    + intros o Ho Hne. apply Hkeep.
      * apply list_elem_of_filter. split; [|done].
        intros Heq. eapply Hne; [apply list_elem_of_here|done|done].
      * intros o' Ho'. apply Hne. by apply list_elem_of_further.
  - repeat split; try done.
    + exists (CallCancelOrder (OrderID x) :: cs). split.
      * rewrite Hcs. by rewrite <- app_assoc.
      * constructor; [|done]. exists x. split; [apply list_elem_of_here|done].
    + intros o Ho Hne. apply Hkeep; [done|].
      intros o' Ho'. apply Hne. by apply list_elem_of_further.
Qed.



(** On that book the venue, answering, cancels the stop of the other size
    and that one only. *)
Lemma cancelAllTPSL_cancels_mismatched :
  let s := {| tr := noMaps; wd := venue [fitStop; oversizeStop] [] [] |} in
  let r := TopUp.cancelAllTPSL 1 s in
  r.1 = None /\ book (wd r.2) = [fitStop] /\
  trace (wd r.2) = [CallListOpenOrders; CallCancelOrder 2].
Proof. vm_compute. repeat split. Qed.

(** ** What a computation sends to the venue *)

Section Issues.

Context (P : Call -> Prop).

Lemma issues_silent {A : Type} (m : Gw A) :
  (forall s, trace (wd (m s).2) = trace (wd s)) -> issues P m.
Proof. intros H s. exists []. rewrite app_nil_r. split; [apply H|constructor]. Qed.

Lemma issues_ret {A : Type} (a : A) : issues P (mret a).
Proof. by apply issues_silent. Qed.

Lemma issues_bind {A B : Type} (m : Gw A) (k : A -> Gw B) :
  issues P m -> (forall a, issues P (k a)) -> issues P (m ≫= k).
Proof.
  intros Hm Hk s. unfold mbind, Gw_bind.
  destruct (Hm s) as (cs1 & E1 & F1). destruct (m s) as [a s1]. simpl in E1.
  destruct (Hk a s1) as (cs2 & E2 & F2).
  exists (cs1 ++ cs2). split.
  - by rewrite E2, E1, app_assoc.
  - by apply Forall_app.
Qed.

Lemma issues_one {A : Type} (c : Call) (m : Gw A) :
  (forall s, trace (wd (m s).2) = trace (wd s) ++ [c]) -> P c -> issues P m.
Proof. intros H Hc s. exists [c]. split; [apply H|by repeat constructor]. Qed.

Lemma issues_ListOpenOrders : P CallListOpenOrders -> issues P ListOpenOrders.
Proof.
  apply issues_one. intros s. unfold ListOpenOrders. by destruct (nextOutcome _).
Qed.

Lemma issues_GetPositionRisk : P CallGetPositionRisk -> issues P GetPositionRisk.
Proof.
  apply issues_one. intros s. unfold GetPositionRisk. by destruct (nextOutcome _).
Qed.

Lemma issues_CancelOrder (id : Z) : P (CallCancelOrder id) -> issues P (CancelOrder id).
Proof.
  apply issues_one. intros s. unfold CancelOrder. by destruct (nextOutcome _).
Qed.

Lemma issues_CreateOrderDo (r : CreateOrder) :
  P (CallCreateOrder r) -> issues P (CreateOrderDo r).
Proof.
  apply issues_one. intros s. unfold CreateOrderDo.
  by destruct (nextOutcome _), (cType r).
Qed.

Lemma issues_Sleep (d : Z) : issues P (Sleep d).
Proof. by apply issues_silent. Qed.

Lemma issues_getTrader : issues P getTrader.
Proof. by apply issues_silent. Qed.

Lemma issues_putTrader (t : Trader) : issues P (putTrader t).
Proof. by apply issues_silent. Qed.

Lemma issues_now : issues P now.
Proof. by apply issues_silent. Qed.

Lemma issues_forEach {A : Type} (l : list A) (body : A -> Gw unit) :
  (forall x, issues P (body x)) -> issues P (forEach l body).
Proof.
  intros H. induction l as [|x l IH]; simpl.
  - apply issues_ret.
  - apply issues_bind; [apply H|intros _; apply IH].
Qed.

End Issues.

(** Walks through a method: binds, branches and loops are taken apart, the
    calls to the venue are left as goals on the call sent. *)
Ltac issues_step :=
  first
    [ apply issues_ret | apply issues_Sleep | apply issues_getTrader
    | apply issues_putTrader | apply issues_now
    | apply issues_bind; [|intros ?]
    | apply issues_forEach; intros ?
    | apply issues_ListOpenOrders | apply issues_GetPositionRisk
    | apply issues_CancelOrder | apply issues_CreateOrderDo
    | match goal with
      | |- issues _ (if ?b then _ else _) => destruct b eqn:?
      | |- issues _ (match ?x with _ => _ end) => destruct x eqn:?
      | |- issues _ (let '(_, _) := ?x in _) => destruct x eqn:?
      end ].
Ltac issues_walk := repeat issues_step.

(** ** Sides and prices of the orders placed *)

Lemma legSide_pos (amt : Q) :
  (0 < amt)%Q -> legSide amt = (SideTypeSell, PositionSideTypeLong).
Proof. intros H. unfold legSide. by apply Qltb_lt in H as ->. Qed.

Lemma legSide_neg (amt : Q) :
  (amt < 0)%Q -> legSide amt = (SideTypeBuy, PositionSideTypeShort).
Proof.
  intros H. unfold legSide.
  assert (Qltb 0 amt = false) as ->; [|done]. apply Qltb_ge. lra.
Qed.

Lemma closingSide_pos (amt : Q) :
  (0 < amt)%Q -> closingSide amt = (SideTypeSell, PositionSideTypeLong).
Proof.
  intros H. unfold closingSide.
  assert (Qltb amt 0 = false) as ->; [|done]. apply Qltb_ge. lra.
Qed.

Lemma closingSide_neg (amt : Q) :
  (amt < 0)%Q -> closingSide amt = (SideTypeBuy, PositionSideTypeShort).
Proof. intros H. unfold closingSide. by apply Qltb_lt in H as ->. Qed.

Lemma below_pos amt e off : (0 < amt)%Q -> below amt e off = (e - off)%Q.
Proof. intros H. unfold below. by apply Qltb_lt in H as ->. Qed.
Lemma below_neg amt e off : (amt < 0)%Q -> below amt e off = (e + off)%Q.
Proof.
  intros H. unfold below. assert (Qltb 0 amt = false) as ->; [|done].
  apply Qltb_ge. lra.
Qed.
Lemma above_pos amt e off : (0 < amt)%Q -> above amt e off = (e + off)%Q.
Proof. intros H. unfold above. by apply Qltb_lt in H as ->. Qed.
Lemma above_neg amt e off : (amt < 0)%Q -> above amt e off = (e - off)%Q.
Proof.
  intros H. unfold above. assert (Qltb 0 amt = false) as ->; [|done].
  apply Qltb_ge. lra.
Qed.

(** A stop sent at a price within 0.01 of [entry -/+ 1] is well placed. *)
Lemma stopOrder_wellPlaced (position : PositionRisk) (x : Q) (wt : option WorkingType) :
  (Qabs (x - below (PositionAmt position) (EntryPrice position) 1) <= 1 # 200)%Q ->
  wellPlaced position (stopOrder (PositionAmt position) x wt).
Proof.
  intros Hx. unfold wellPlaced, stopOrder. cbn zeta.
  pose proof (Sprintf2_near x) as Hs.
  apply Qabs_Qle_condition in Hx. apply Qabs_Qle_condition in Hs.
  set (amt := PositionAmt position) in *. set (e := EntryPrice position) in *.
  set (y := Sprintf2 x) in *.
  split; [|split].
  - intros H. by rewrite (legSide_pos _ H).
  - intros H. by rewrite (legSide_neg _ H).
  - destruct (legSide amt) as [sd ps]. simpl. exists y. split; [done|]. split; intros H.
    + rewrite (below_pos _ _ _ H) in Hx. lra.
    + rewrite (below_neg _ _ _ H) in Hx. lra.
Qed.

Lemma profitOrder_wellPlaced (position : PositionRisk) (x : Q) (wt : option WorkingType) :
  (Qabs (x - above (PositionAmt position) (EntryPrice position) 2) <= 1 # 200)%Q ->
  wellPlaced position (profitOrder (PositionAmt position) x wt).
Proof.
  intros Hx. unfold wellPlaced, profitOrder. cbn zeta.
  pose proof (Sprintf2_near x) as Hs.
  apply Qabs_Qle_condition in Hx. apply Qabs_Qle_condition in Hs.
  set (amt := PositionAmt position) in *. set (e := EntryPrice position) in *.
  set (y := Sprintf2 x) in *.
  split; [|split].
  - intros H. by rewrite (legSide_pos _ H).
  - intros H. by rewrite (legSide_neg _ H).
  - destruct (legSide amt) as [sd ps]. simpl. exists y. split; [done|]. split; intros H.
    + rewrite (above_pos _ _ _ H) in Hx. lra.
    + rewrite (above_neg _ _ _ H) in Hx. lra.
Qed.

Lemma marketOrder_wellPlaced (position : PositionRisk) :
  wellPlaced position (marketOrder (PositionAmt position)).
Proof.
  unfold wellPlaced, marketOrder. cbn zeta. split; [|split].
  - intros H. by rewrite (closingSide_pos _ H).
  - intros H. by rewrite (closingSide_neg _ H).
  - by destruct (closingSide _).
Qed.

Lemma Qabs_self (x : Q) : (Qabs (x - x) <= 1 # 200)%Q.
Proof. apply Qabs_Qle_condition. split; lra. Qed.

Create HintDb placed.

#[local] Hint Resolve stopOrder_wellPlaced profitOrder_wellPlaced marketOrder_wellPlaced
  roundToTickSize_near Qabs_self : placed.

Ltac placed_walk :=
  repeat first [ solve [auto with placed] | issues_step ]; simpl; auto with placed.

Lemma trackAndClose_placesWell (position : PositionRisk) :
  issues (placesWell position) (trackAndClose position).
Proof. unfold trackAndClose. placed_walk. Qed.

Lemma joint_cancel_placesWell (position : PositionRisk) (f : Order -> bool) :
  issues (placesWell position) (cancelAllTPSL_joint f).
Proof. unfold cancelAllTPSL_joint, cancelEach_joint. placed_walk. Qed.

Lemma topup_cancel_placesWell (position : PositionRisk) (a : Q) :
  issues (placesWell position) (TopUp.cancelAllTPSL a).
Proof. unfold TopUp.cancelAllTPSL, TopUp.cancelEach. placed_walk. Qed.

#[local] Hint Resolve trackAndClose_placesWell joint_cancel_placesWell
  topup_cancel_placesWell : placed.

(** C4, as amended: every request a reconciling method of any variant sends
    for [position] is well placed: on the closing side (sell/long for a long,
    buy/short for a short), a stop-market below the entry price and a limit
    above it for a long, the reverse for a short.  From an empty book the
    legs are placed: sell stop 99 and sell limit 102 for the long at 100,
    buy stop 51 and buy limit 48 for the short at 50. *)
Theorem placed_legs_close_the_position (position : PositionRisk) :
  issues (placesWell position) (Totals.checkAndSetStopLoss position) /\
  issues (placesWell position) (Totals.checkAndSetTakeProfit position) /\
  issues (placesWell position) (Totals.checkProtectiveStopProfit position) /\
  issues (placesWell position) (Part000.checkAndSetStopLoss position) /\
  issues (placesWell position) (Part000.checkProtectiveStopProfit position) /\
  issues (placesWell position) (Part002.checkAndSetStopLoss position) /\
  issues (placesWell position) (Part002.checkProtectiveStopProfit position) /\
  issues (placesWell position) (TopUp.checkAndSetStopLoss position) /\
  issues (placesWell position) (TopUp.checkProtectiveStopProfit position) /\
  (Side <$> book (wd (TopUp.checkProtectiveStopProfit long1 idle).2),
   StopPrice <$> book (wd (TopUp.checkProtectiveStopProfit long1 idle).2),
   Price <$> book (wd (TopUp.checkProtectiveStopProfit long1 idle).2))
  = ([SideTypeSell; SideTypeSell], [99; 0], [0; 102])%Q /\
  (Side <$> book (wd (TopUp.checkProtectiveStopProfit short25 idle).2),
   StopPrice <$> book (wd (TopUp.checkProtectiveStopProfit short25 idle).2),
   Price <$> book (wd (TopUp.checkProtectiveStopProfit short25 idle).2))
  = ([SideTypeBuy; SideTypeBuy], [51; 0], [0; 48])%Q.
Proof.
  repeat apply conj.
  - unfold Totals.checkAndSetStopLoss, Totals.cancelAllTPSL. placed_walk.
  - unfold Totals.checkAndSetTakeProfit, Totals.cancelAllTPSL. placed_walk.
  - unfold Totals.checkProtectiveStopProfit. placed_walk.
  - unfold Part000.checkAndSetStopLoss, checkAndSetStopLoss_joint. placed_walk.
  - unfold Part000.checkProtectiveStopProfit, checkProtectiveStopProfit_joint. placed_walk.
  - unfold Part002.checkAndSetStopLoss, checkAndSetStopLoss_joint. placed_walk.
  - unfold Part002.checkProtectiveStopProfit, checkProtectiveStopProfit_joint. placed_walk.
  - unfold TopUp.checkAndSetStopLoss. placed_walk.
  - unfold TopUp.checkProtectiveStopProfit, TopUp.placeMissing, TopUp.relist. placed_walk.
  - vm_compute. reflexivity.
  - vm_compute. reflexivity.
Qed.

(** C4 as stated fails on the orders taken for valid: for the long of 1 at
    100, the sell stop of quantity 1 resting at 150, above the entry price,
    passes the test of [part_000] (type and quantity) and the test of
    [part_001] (side and type); both variants return nil, cancel nothing and
    place nothing. *)
Lemma valid_stop_above_entry :
  let s := {| tr := noMaps; wd := venue [staleStop] [] [] |} in
  isStopMarket staleStop && qtyMatches (OrigQuantity staleStop) (PositionAmt long1) = true /\
  Totals.hasLeg isStopMarket (PositionAmt long1) [staleStop] = true /\
  (let r := Part000.checkAndSetStopLoss long1 s in
   r.1 = None /\ book (wd r.2) = [staleStop] /\ trace (wd r.2) = [CallListOpenOrders]) /\
  (let r := Totals.checkAndSetStopLoss long1 s in
   r.1 = None /\ book (wd r.2) = [staleStop] /\ trace (wd r.2) = [CallListOpenOrders]) /\
  ~ (StopPrice staleStop < EntryPrice long1)%Q.
Proof. vm_compute. repeat split. intros H. discriminate H. Qed.

(** ** The protective-exit monitor of [part_001] *)

Lemma Qeq_bool_false (x y : Q) : ~ (x == y)%Q -> Qeq_bool x y = false.
Proof.
  intros H. destruct (Qeq_bool x y) eqn:E; [|done].
  apply Qeq_bool_iff in E. contradiction.
Qed.

Lemma marketOrder_type (amt : Q) : cType (marketOrder amt) = OrderTypeMarket.
Proof. unfold marketOrder. by destruct (closingSide _). Qed.

(** One observation of a position that is not flat. *)
Lemma monitor_step (position : PositionRisk) (s : St) :
  ~ (PositionAmt position == 0)%Q ->
  let sym := Symbol position in
  let unPnl := UnRealizedProfit position in
  let maxP := raised (maxProfit (tr s) !! sym) unPnl in
  let r := Totals.checkProtectiveStopProfit position s in
  book (wd r.2) = book (wd s) /\
  (drawdown maxP unPnl = false ->
     r.1 = None /\ trace (wd r.2) = trace (wd s) /\
     maxProfit (tr r.2) !! sym = Some maxP) /\
  (drawdown maxP unPnl = true ->
     trace (wd r.2) = trace (wd s) ++ [CallCreateOrder (marketOrder (PositionAmt position))] /\
     (nextOutcome (wd s) = true -> r.1 = None /\ maxProfit (tr r.2) !! sym = None) /\
     (nextOutcome (wd s) = false ->
        r.1 = Some ErrProtectiveClose /\ maxProfit (tr r.2) !! sym = Some maxP)).
Proof.
  intros Hnz. cbn zeta. unfold Totals.checkProtectiveStopProfit.
  rewrite (Qeq_bool_false _ _ Hnz).
  unfold mbind, Gw_bind, getTrader, putTrader, mret, Gw_ret, CreateOrderDo, raised.
  rewrite marketOrder_type.
  destruct (maxProfit (tr s) !! Symbol position) as [m|] eqn:Em; simpl;
    [destruct (Qltb m (UnRealizedProfit position)) eqn:Elt; simpl|];
    rewrite ?lookup_insert_eq, ?Em; simpl;
    (destruct (drawdown _ _) eqn:Ed; simpl;
     [destruct (nextOutcome (wd s)) eqn:Eo; simpl|]);
    repeat (first [split | intro]); try done;
    simpl; rewrite ?lookup_delete_eq, ?lookup_insert_eq; done.
Qed.

Lemma monitor_flat (position : PositionRisk) (s : St) :
  (PositionAmt position == 0)%Q ->
  let r := Totals.checkProtectiveStopProfit position s in
  r.1 = None /\ maxProfit (tr r.2) !! Symbol position = None /\ wd r.2 = wd s.
Proof.
  intros Hz. apply Qeq_bool_iff in Hz. cbn zeta.
  unfold Totals.checkProtectiveStopProfit. rewrite Hz.
  unfold mbind, Gw_bind, getTrader, putTrader, mret, Gw_ret. simpl.
  repeat split. apply lookup_delete_eq.
Qed.

Lemma drawdown_spec (maxP unPnl : Q) :
  drawdown maxP unPnl = true <-> (200 <= maxP /\ unPnl <= maxP * (1 # 2))%Q.
Proof.
  unfold drawdown. rewrite andb_true_iff, !Qle_bool_iff. reflexivity.
Qed.

Lemma drawdown_comp (m m' unPnl : Q) :
  (m == m')%Q -> drawdown m unPnl = drawdown m' unPnl.
Proof.
  intros H. apply eq_true_iff_eq. rewrite !drawdown_spec. by rewrite H.
Qed.

(** C3, as amended: on an observation of a position that is not flat, with
    [maxP] the high-water mark after the observation, the monitor sends a
    market order on the closing side (sell for a long, buy for a short) for
    [|amt|] with four decimals, once, exactly when [maxP >= 200] and
    [unPnl <= maxP * 0.5]; if the venue accepts the order the entry of the
    symbol is deleted, if the venue rejects it the error is returned and the
    entry stays at [maxP]; when the test fails nothing is sent and the entry
    is [maxP]. *)
Theorem protective_close_on_drawdown (position : PositionRisk) (s : St) :
  ~ (PositionAmt position == 0)%Q ->
  let amt := PositionAmt position in
  let sym := Symbol position in
  let unPnl := UnRealizedProfit position in
  let maxP := raised (maxProfit (tr s) !! sym) unPnl in
  let r := Totals.checkProtectiveStopProfit position s in
  let close := marketOrder amt in
  (cType close = OrderTypeMarket /\ cQuantity close = Sprintf4 (Qabs amt) /\
   ((0 < amt)%Q -> cSide close = SideTypeSell) /\
   ((amt < 0)%Q -> cSide close = SideTypeBuy)) /\
  ((200 <= maxP /\ unPnl <= maxP * (1 # 2))%Q ->
     trace (wd r.2) = trace (wd s) ++ [CallCreateOrder close] /\
     (nextOutcome (wd s) = true -> r.1 = None /\ maxProfit (tr r.2) !! sym = None) /\
     (nextOutcome (wd s) = false ->
        r.1 = Some ErrProtectiveClose /\ maxProfit (tr r.2) !! sym = Some maxP)) /\
  (~ (200 <= maxP /\ unPnl <= maxP * (1 # 2))%Q ->
     trace (wd r.2) = trace (wd s) /\ r.1 = None /\
     maxProfit (tr r.2) !! sym = Some maxP).
Proof.
  intros Hnz. cbn zeta.
  destruct (monitor_step position s Hnz) as (_ & Hquiet & Hfire).
  split; [|split].
  - unfold marketOrder. repeat split.
    + by destruct (closingSide _).
    + by destruct (closingSide _).
    + intros H. by rewrite (closingSide_pos _ H).
    + intros H. by rewrite (closingSide_neg _ H).
  - intros H. apply drawdown_spec in H. by apply Hfire.
  - intros H. destruct (drawdown _ _) eqn:Ed.
    + apply drawdown_spec in Ed. contradiction.
    + destruct (Hquiet eq_refl) as (? & ? & ?). by repeat split.
Qed.

Lemma protective_close_on_drawdown_witness :
  let p := withPnl long1 140 in
  let s := marked SOLUSDC 300 idle in
  ~ (PositionAmt p == 0)%Q /\
  trace (wd (Totals.checkProtectiveStopProfit p s).2)
  = trace (wd s) ++ [CallCreateOrder (marketOrder (PositionAmt p))] /\
  maxProfit (tr (Totals.checkProtectiveStopProfit p s).2) !! SOLUSDC = None.
Proof.
  assert (H : ~ (PositionAmt (withPnl long1 140) == 0)%Q) by (intros H; discriminate H).
  split; [exact H|].
  destruct (protective_close_on_drawdown (withPnl long1 140) (marked SOLUSDC 300 idle) H)
    as (_ & Hfire & _).
  destruct Hfire as (Ht & Hok & _).
  { vm_compute. split; discriminate. }
  split; [exact Ht | apply Hok; reflexivity].
Defined.

(** C3 as stated fails when the venue rejects the market order: with the mark
    at 300 and the observation 140 the test holds and the order is sent, but
    the method returns the error and the entry is still 300. *)
Lemma rejected_close_keeps_the_mark :
  let p := withPnl long1 140 in
  let s := {| tr := setMaxProfit {[SOLUSDC := 300%Q]} noMaps; wd := venue [] [] [false] |} in
  let r := Totals.checkProtectiveStopProfit p s in
  drawdown 300 140 = true /\
  trace (wd r.2)
  = [CallCreateOrder
       {| cSide := SideTypeSell; cPositionSide := Some PositionSideTypeLong;
          cType := OrderTypeMarket; cTimeInForce := None; cQuantity := 1;
          cPrice := None; cStopPrice := None; cWorkingType := None |}] /\
  r.1 = Some ErrProtectiveClose /\
  maxProfit (tr r.2) !! SOLUSDC = Some 300%Q.
Proof. vm_compute. repeat split. Qed.

(** ** The high-water mark over a sequence of observations *)

Lemma calm_prefix (l1 l2 : list Q) : calm (l1 ++ l2) -> calm l1.
Proof.
  intros H seen x rest ->. apply (H seen x (rest ++ l2)).
  by rewrite <- app_assoc.
Qed.

Lemma marksAre_prefix (ok : Q -> Prop) (l1 l2 : list Q) :
  marksAre ok (l1 ++ l2) -> marksAre ok l1.
Proof.
  intros H seen x rest ->. apply (H seen x (rest ++ l2)).
  by rewrite <- app_assoc.
Qed.

Lemma maxPnl_snoc (l : list Q) (x : Q) :
  l <> [] -> maxPnl (l ++ [x]) = Qmax (maxPnl l) x.
Proof.
  destruct l as [|y l]; [done|]. intros _. simpl. by rewrite fold_left_app.
Qed.

Lemma raised_max (m m' x : Q) : (m == m')%Q -> (raised (Some m) x == Qmax m' x)%Q.
Proof.
  intros H. unfold raised. destruct (Qltb m x) eqn:E.
  - apply Qltb_lt in E. symmetry. apply Q.max_r. rewrite <- H. lra.
  - apply Qltb_ge in E. rewrite H. symmetry. apply Q.max_l. by rewrite <- H.
Qed.

Section HighWaterMark.

(** A monitor [step] that, on an observation which does not meet the drawdown
    test, leaves the mark [raised] by the observation, provided the stored
    mark it reads is [ok]. *)
Variable step : PositionRisk -> Gw (option error).
Variable ok : Q -> Prop.

Hypothesis ok_comp : forall m m', (m == m')%Q -> ok m' -> ok m.

Hypothesis step_quiet : forall (p : PositionRisk) (s : St),
  ~ (PositionAmt p == 0)%Q ->
  (forall m, maxProfit (tr s) !! Symbol p = Some m -> ok m) ->
  drawdown (raised (maxProfit (tr s) !! Symbol p) (UnRealizedProfit p))
           (UnRealizedProfit p) = false ->
  maxProfit (tr (step p s).2) !! Symbol p
  = Some (raised (maxProfit (tr s) !! Symbol p) (UnRealizedProfit p)).

Lemma observe_snoc (l : list PositionRisk) (p : PositionRisk) (s : St) :
  observe step (l ++ [p]) s = (step p (observe step l s)).2.
Proof. unfold observe. by rewrite fold_left_app. Qed.

(** After a calm run of observations from a fresh start the entry holds the
    largest of them. *)
Lemma mark_after (sym : string) (s : St) (l : list PositionRisk) :
  maxProfit (tr s) !! sym = None ->
  l <> [] ->
  Forall (fun p => Symbol p = sym /\ ~ (PositionAmt p == 0)%Q) l ->
  calm (UnRealizedProfit <$> l) ->
  marksAre ok (UnRealizedProfit <$> l) ->
  exists m, maxProfit (tr (observe step l s)) !! sym = Some m
            /\ (m == maxPnl (UnRealizedProfit <$> l))%Q.
Proof.
  intros Hfresh. induction l as [|p l IH] using rev_ind; [done|].
  intros _ Hall Hcalm Hok.
  apply Forall_app in Hall as [Hl Hp]. inversion Hp as [|? ? [Hsym Hnz] _]; subst.
  rewrite fmap_app in Hcalm, Hok. simpl in Hcalm, Hok.
  rewrite observe_snoc, fmap_app. simpl.
  pose proof (step_quiet p (observe step l s) Hnz) as Hquiet.
  pose proof (Hcalm (UnRealizedProfit <$> l) (UnRealizedProfit p) [] eq_refl) as Hd.
  destruct (decide (l = [])) as [->|Hl0].
  - simpl in *. unfold observe in Hquiet |- *. simpl in Hquiet |- *.
    rewrite Hfresh in Hquiet. simpl in Hquiet.
    rewrite Hquiet; [by eexists|done|done].
  - destruct IH as (m & Hm & Hmax);
      [done|done|by apply calm_prefix in Hcalm|by apply marksAre_prefix in Hok|].
    rewrite Hm in Hquiet.
    assert (Hne : UnRealizedProfit <$> l <> []) by (by destruct l).
    rewrite (maxPnl_snoc _ _ Hne) in Hd |- *.
    pose proof (raised_max m _ (UnRealizedProfit p) Hmax) as Hr.
    rewrite <- (drawdown_comp _ _ _ Hr) in Hd.
    rewrite Hquiet; [by eexists| |done].
    intros m' [= <-]. apply (ok_comp _ _ Hmax).
    by apply (Hok (UnRealizedProfit <$> l) (UnRealizedProfit p) []).
Qed.

(** The mark after each observation, and from one observation to the next. *)
Lemma mark_grows (sym : string) (seen rest : list PositionRisk) (s : St) :
  seen <> [] ->
  Forall (fun p => Symbol p = sym /\ ~ (PositionAmt p == 0)%Q) (seen ++ rest) ->
  maxProfit (tr s) !! sym = None ->
  calm (UnRealizedProfit <$> (seen ++ rest)) ->
  marksAre ok (UnRealizedProfit <$> (seen ++ rest)) ->
  (exists m, maxProfit (tr (observe step seen s)) !! sym = Some m
             /\ (m == maxPnl (UnRealizedProfit <$> seen))%Q) /\
  (forall p rest', rest = p :: rest' ->
     exists m m', maxProfit (tr (observe step seen s)) !! sym = Some m
                  /\ maxProfit (tr (observe step (seen ++ [p]) s)) !! sym = Some m'
                  /\ (m <= m')%Q).
Proof.
  intros Hne Hall Hfresh Hcalm Hok.
  assert (Hseen : exists m, maxProfit (tr (observe step seen s)) !! sym = Some m
                            /\ (m == maxPnl (UnRealizedProfit <$> seen))%Q).
  { apply mark_after; try done.
    - by apply Forall_app in Hall as [? _].
    - rewrite fmap_app in Hcalm. by apply calm_prefix in Hcalm.
    - rewrite fmap_app in Hok. by apply marksAre_prefix in Hok. }
  split; [exact Hseen|].
  intros p rest' ->. destruct Hseen as (m & Hm & Hmax).
  change (p :: rest') with ([p] ++ rest') in Hall, Hcalm, Hok.
  rewrite app_assoc in Hall, Hcalm, Hok. rewrite fmap_app in Hcalm, Hok.
  destruct (mark_after sym s (seen ++ [p])) as (m' & Hm' & Hmax'); try done.
  - by destruct seen.
  - by apply Forall_app in Hall as [? _].
  - by apply calm_prefix in Hcalm.
  - by apply marksAre_prefix in Hok.
  - exists m, m'. split; [done|]. split; [done|].
    rewrite Hmax, Hmax', fmap_app. simpl.
    rewrite maxPnl_snoc by (by destruct seen). apply Q.le_max_l.
Qed.

End HighWaterMark.

(** The monitor of [part_001] reads any stored mark rightly. *)
Lemma Totals_step_quiet (p : PositionRisk) (s : St) :
  ~ (PositionAmt p == 0)%Q ->
  (forall m, maxProfit (tr s) !! Symbol p = Some m -> True) ->
  drawdown (raised (maxProfit (tr s) !! Symbol p) (UnRealizedProfit p))
           (UnRealizedProfit p) = false ->
  maxProfit (tr (Totals.checkProtectiveStopProfit p s).2) !! Symbol p
  = Some (raised (maxProfit (tr s) !! Symbol p) (UnRealizedProfit p)).
Proof.
  intros Hnz _ Hd. destruct (monitor_step p s Hnz) as (_ & Hquiet & _).
  by destruct (Hquiet Hd) as (_ & _ & ?).
Qed.

(** The monitor that ends [checkProtectiveStopProfit] in the other variants
    reads a stored mark rightly unless the mark is 0. *)
Lemma trackAndClose_step_quiet (p : PositionRisk) (s : St) :
  ~ (PositionAmt p == 0)%Q ->
  (forall m, maxProfit (tr s) !! Symbol p = Some m -> ~ (m == 0)%Q) ->
  drawdown (raised (maxProfit (tr s) !! Symbol p) (UnRealizedProfit p))
           (UnRealizedProfit p) = false ->
  maxProfit (tr (trackAndClose p s).2) !! Symbol p
  = Some (raised (maxProfit (tr s) !! Symbol p) (UnRealizedProfit p)).
Proof.
  intros _ Hok. unfold trackAndClose, raised, mbind, Gw_bind, getTrader, putTrader,
    mret, Gw_ret.
  destruct (maxProfit (tr s) !! Symbol p) as [m|] eqn:Em; simpl.
  - rewrite (Qeq_bool_false m 0) by (by apply Hok). simpl.
    destruct (Qltb m (UnRealizedProfit p)); simpl; intros ->; simpl;
      by rewrite ?lookup_insert_eq.
  - intros ->. simpl. by rewrite lookup_insert_eq.
Qed.

Lemma forEach_tr {A : Type} (l : list A) (body : A -> Gw unit) :
  (forall x s, tr (body x s).2 = tr s) -> forall s, tr (forEach l body s).2 = tr s.
Proof.
  intros H. induction l as [|x l IH]; intros s; [done|].
  cbn [forEach]. unfold mbind, Gw_bind.
  pose proof (H x s) as Hx. destruct (body x s) as [u s1]. simpl in Hx.
  by rewrite IH.
Qed.

Lemma CancelOrder_tr (id : Z) (s : St) : tr (CancelOrder id s).2 = tr s.
Proof. unfold CancelOrder. by destruct (nextOutcome _). Qed.

Lemma cancelAllTPSL_joint_tr (f : Order -> bool) (s : St) :
  tr (cancelAllTPSL_joint f s).2 = tr s.
Proof.
  unfold cancelAllTPSL_joint, mbind, Gw_bind, ListOpenOrders.
  destruct (nextOutcome _); [|done].
  set (s1 := setWorld _ s).
  pose proof (forEach_tr (book (wd s)) (cancelEach_joint f)) as H.
  destruct (forEach _ _ s1) as [u s2] eqn:E. simpl.
  replace s2 with (forEach (book (wd s)) (cancelEach_joint f) s1).2 by (by rewrite E).
  transitivity (tr s1); [|done].
  apply H. intros x s'. unfold cancelEach_joint.
  destruct (f x); [|done]. unfold mbind, Gw_bind.
  pose proof (CancelOrder_tr (OrderID x) s') as Hc.
  by destruct (CancelOrder _ _).
Qed.

Lemma cancelAllTPSL_tr (a : Q) (s : St) : tr (TopUp.cancelAllTPSL a s).2 = tr s.
Proof.
  unfold TopUp.cancelAllTPSL, mbind, Gw_bind, ListOpenOrders.
  destruct (nextOutcome _); [|done].
  set (s1 := setWorld _ s).
  pose proof (forEach_tr (book (wd s)) (TopUp.cancelEach a)) as H.
  destruct (forEach _ _ s1) as [u s2] eqn:E. simpl.
  replace s2 with (forEach (book (wd s)) (TopUp.cancelEach a) s1).2 by (by rewrite E).
  transitivity (tr s1); [|done].
  apply H. intros x s'. unfold TopUp.cancelEach.
  destruct (TopUp.isTPSL x); [|done]. destruct (_ && _); [done|].
  unfold mbind, Gw_bind.
  pose proof (CancelOrder_tr (OrderID x) s') as Hc.
  by destruct (CancelOrder _ _).
Qed.

(** An observation of the flat position deletes the entry, in every variant. *)
Lemma flat_deletes (q : PositionRisk) (s : St) :
  (PositionAmt q == 0)%Q ->
  maxProfit (tr (Totals.checkProtectiveStopProfit q s).2) !! Symbol q = None /\
  maxProfit (tr (Part000.checkProtectiveStopProfit q s).2) !! Symbol q = None /\
  maxProfit (tr (Part002.checkProtectiveStopProfit q s).2) !! Symbol q = None /\
  maxProfit (tr (TopUp.checkProtectiveStopProfit q s).2) !! Symbol q = None.
Proof.
  intros Hz. split; [by destruct (monitor_flat q s Hz) as (_ & ? & _)|].
  apply Qeq_bool_iff in Hz.
  unfold Part000.checkProtectiveStopProfit, Part002.checkProtectiveStopProfit,
    checkProtectiveStopProfit_joint, TopUp.checkProtectiveStopProfit.
  rewrite Hz. unfold mbind, Gw_bind, getTrader, putTrader. simpl.
  set (s1 := setTrader _ s).
  assert (H1 : maxProfit (tr s1) !! Symbol q = None) by apply lookup_delete_eq.
  pose proof (cancelAllTPSL_joint_tr Part000.isTPSL s1) as E0.
  pose proof (cancelAllTPSL_joint_tr Part002.isTPSL s1) as E2.
  pose proof (cancelAllTPSL_tr 0 s1) as E3.
  destruct (cancelAllTPSL_joint Part000.isTPSL s1) as [[?|] ?],
           (cancelAllTPSL_joint Part002.isTPSL s1) as [[?|] ?],
           (TopUp.cancelAllTPSL 0 s1) as [[?|] ?]; simpl in *;
    rewrite E0, E2, E3; done.
Qed.

(** C2, as amended: a position that is not flat is observed from a fresh
    start (no entry for the symbol) and no observation of the sequence meets
    the drawdown test.  In [part_001], after each observation (after every
    non-empty prefix [seen] of the sequence) the entry equals the largest
    unrealized PnL seen so far, and it does not decrease from one observation
    to the next.  The same holds for the monitor that ends
    [checkProtectiveStopProfit] in [part_000], [part_002] and [part_003] as
    long as no mark read back is 0.  An observation of the flat position
    deletes the entry, in every variant. *)
Theorem high_water_mark (sym : string) (seen rest : list PositionRisk) (s : St) :
  seen <> [] ->
  Forall (fun p => Symbol p = sym /\ ~ (PositionAmt p == 0)%Q) (seen ++ rest) ->
  maxProfit (tr s) !! sym = None ->
  calm (UnRealizedProfit <$> (seen ++ rest)) ->
  let holds (step : PositionRisk -> Gw (option error)) :=
    (exists m, maxProfit (tr (observe step seen s)) !! sym = Some m
               /\ (m == maxPnl (UnRealizedProfit <$> seen))%Q) /\
    (forall p rest', rest = p :: rest' ->
       exists m m', maxProfit (tr (observe step seen s)) !! sym = Some m
                    /\ maxProfit (tr (observe step (seen ++ [p]) s)) !! sym = Some m'
                    /\ (m <= m')%Q) in
  holds Totals.checkProtectiveStopProfit /\
  (marksAre (fun m => ~ (m == 0)%Q) (UnRealizedProfit <$> (seen ++ rest)) ->
   holds trackAndClose) /\
  (forall q s', (PositionAmt q == 0)%Q ->
     maxProfit (tr (Totals.checkProtectiveStopProfit q s').2) !! Symbol q = None /\
     maxProfit (tr (Part000.checkProtectiveStopProfit q s').2) !! Symbol q = None /\
     maxProfit (tr (Part002.checkProtectiveStopProfit q s').2) !! Symbol q = None /\
     maxProfit (tr (TopUp.checkProtectiveStopProfit q s').2) !! Symbol q = None).
Proof.
  intros Hne Hall Hfresh Hcalm. cbn zeta. split; [|split].
  - apply (mark_grows Totals.checkProtectiveStopProfit (fun _ => True)); try done.
    apply Totals_step_quiet.
  - intros Hok.
    apply (mark_grows trackAndClose (fun m => ~ (m == 0)%Q)); try done.
    + intros m m' E Hm' Hm. apply Hm'. by rewrite <- E.
    + apply trackAndClose_step_quiet.
  - intros q s'. apply flat_deletes.
Qed.

Lemma high_water_mark_witness :
  let seen := [withPnl long1 50; withPnl long1 120] in
  exists m, maxProfit (tr (observe Totals.checkProtectiveStopProfit seen idle)) !! SOLUSDC
            = Some m
            /\ (m == maxPnl (UnRealizedProfit <$> seen))%Q.
Proof.
  refine (proj1 (proj1 (high_water_mark SOLUSDC
                   [withPnl long1 50; withPnl long1 120] [withPnl long1 90] idle _ _ _ _))).
  - discriminate.
  - repeat constructor; intros H; discriminate H.
  - reflexivity.
  - intros seen x rest E.
    destruct seen as [|a [|b [|c seen]]]; simpl in E; inversion E; subst; try reflexivity.
    by destruct seen.
Defined.

(** C2 as stated fails at a protective close: the observations 300, 140, 100
    of a long that stays open leave the entry at 300, then deleted (the close
    is sent and accepted), then at 100, while the largest seen is 300. *)
Lemma mark_restarts_after_close :
  let obs := [withPnl long1 300; withPnl long1 140; withPnl long1 100] in
  let after n := maxProfit (tr (observe Totals.checkProtectiveStopProfit (take n obs) idle))
                 !! SOLUSDC in
  after 1%nat = Some 300%Q /\
  after 2%nat = None /\
  after 3%nat = Some 100%Q /\
  (maxPnl (UnRealizedProfit <$> obs) == 300)%Q /\
  ~ (100 == maxPnl (UnRealizedProfit <$> obs))%Q.
Proof. vm_compute. repeat split. intros H. discriminate H. Qed.

(** Where a missing entry is read as 0, a mark of exactly 0 is taken for no
    entry: after the observations 0 and -10 the entry is -10. *)
Lemma zero_mark_is_overwritten :
  let obs := [withPnl long1 0; withPnl long1 (-10)] in
  maxProfit (tr (observe trackAndClose obs idle)) !! SOLUSDC = Some (-10)%Q /\
  maxProfit (tr (observe Totals.checkProtectiveStopProfit obs idle)) !! SOLUSDC = Some 0%Q.
Proof. vm_compute. repeat split. Qed.

(** ** A failed placement *)

(** In [part_003] a rejected stop-loss ends the placement: the take-profit is
    not sent. *)
Lemma placeMissing_stop_rejected (amt entryPrice : Q) (hasValidTakeProfit : bool) (s : St) :
  nextOutcome (wd s) = false ->
  let r := TopUp.placeMissing amt entryPrice false hasValidTakeProfit s in
  r.1 = Some ErrCreateStopLoss /\
  trace (wd r.2)
  = trace (wd s)
    ++ [CallCreateOrder (stopOrder amt (below amt entryPrice 1) (Some WorkingTypeContractPrice))].
Proof.
  intros H. unfold TopUp.placeMissing, mbind, Gw_bind, CreateOrderDo. rewrite H. done.
Qed.

(** C6, the failing input: the long of 1 at 100, no resting order, the venue
    answering the listings and rejecting the stop-market order.
    [checkProtectiveStopProfit] of [part_002] and of [part_003] return the
    stop-loss error and send nothing after the rejected stop: no limit order
    is attempted.  In [part_001] the pass goes on after the rejected
    take-profit and sends the stop. *)
Theorem rejected_stop_suppresses_take_profit :
  (let r := Part002.checkProtectiveStopProfit long1
              {| tr := noMaps; wd := venue [] [] [true; true; false] |} in
   r.1 = Some ErrCreateStopLoss /\
   book (wd r.2) = [] /\
   trace (wd r.2)
   = [CallListOpenOrders; CallListOpenOrders;
      CallCreateOrder (stopOrder 1 99 None)]) /\
  (let r := TopUp.checkProtectiveStopProfit long1
              {| tr := setCache SOLUSDC long1 0 noMaps;
                 wd := venue [] [] [true; false] |} in
   r.1 = Some ErrCreateStopLoss /\
   book (wd r.2) = [] /\
   trace (wd r.2)
   = [CallListOpenOrders;
      CallCreateOrder (stopOrder 1 99 (Some WorkingTypeContractPrice))]) /\
  (let r := Totals.visit long1 {| tr := noMaps; wd := venue [] [] [true; true; false] |} in
   trace (wd r.2)
   = [CallListOpenOrders; CallListOpenOrders;
      CallCreateOrder (profitOrder 1 102 None);
      CallListOpenOrders; CallListOpenOrders;
      CallCreateOrder (stopOrder 1 99 None)]).
Proof. vm_compute. repeat split. Qed.

(** ** The pass of [part_003] on a venue that answers every call *)

Lemma run_bind {A B : Type} (m : Gw A) (k : A -> Gw B) (s s' : St) (a : A) :
  m s = (a, s') -> (m ≫= k) s = k a s'.
Proof. intros H. unfold mbind, Gw_bind. by rewrite H. Qed.

Lemma ListOpenOrders_ok (s : St) :
  reliable s ->
  ListOpenOrders s = (inr (book (wd s)), setWorld (called CallListOpenOrders (wd s)) s).
Proof. intros H. unfold ListOpenOrders. by rewrite (reliable_next _ H). Qed.

Lemma CreateOrderDo_ok (r : CreateOrder) (s : St) :
  reliable s -> cType r <> OrderTypeMarket ->
  CreateOrderDo r s
  = (None, setWorld (withBook (book (wd s) ++ [rest (nextID (wd s)) r]) (nextID (wd s) + 1)
                       (called (CallCreateOrder r) (wd s))) s).
Proof.
  intros H Ht. unfold CreateOrderDo. rewrite (reliable_next _ H). by destruct (cType r).
Qed.

Lemma cancelEach_loop_reliable (a : Q) (orders : list Order) (s : St) :
  reliable s -> reliable (forEach orders (TopUp.cancelEach a) s).2.
Proof.
  revert s. induction orders as [|x orders IH]; intros s H; [done|].
  cbn [forEach]. unfold mbind, Gw_bind.
  destruct (TopUp.cancelEach a x s) as [u s1] eqn:E. apply IH.
  unfold TopUp.cancelEach in E.
  destruct (TopUp.isTPSL x); [|by inversion E; subst].
  destruct (_ && _); [by inversion E; subst|].
  unfold mbind, Gw_bind, CancelOrder in E. rewrite (reliable_next _ H) in E.
  inversion E; subst. by apply reliable_called.
Qed.

Lemma cancelAllTPSL_ok (a : Q) (s : St) :
  ~ (a == 0)%Q -> reliable s ->
  exists s', TopUp.cancelAllTPSL a s = (None, s') /\ reliable s' /\ tr s' = tr s /\
             nextID (wd s') = nextID (wd s) /\
             (forall o, o ∈ book (wd s') -> o ∈ book (wd s)).
Proof.
  intros Hnz H. unfold TopUp.cancelAllTPSL.
  rewrite (run_bind _ _ _ _ _ (ListOpenOrders_ok s H)).
  set (s1 := setWorld _ s).
  assert (H1 : reliable s1) by (by apply reliable_called').
  pose proof (cancelEach_loop a (book (wd s)) Hnz s1) as HL.
  pose proof (cancelEach_loop_reliable a (book (wd s)) s1 H1) as HR.
  cbn zeta in HL. unfold mbind, Gw_bind.
  destruct (forEach (book (wd s)) (TopUp.cancelEach a) s1) as [u s2]. simpl in *.
  destruct HL as (Htr & Hid & _ & Hsub & _).
  exists s2. by repeat split.
Qed.

Lemma relist_ok (amt entryPrice : Q) (s : St) :
  ~ (amt == 0)%Q -> reliable s ->
  exists s', TopUp.relist amt entryPrice (book (wd s)) s = (inr (book (wd s')), s') /\
             reliable s' /\ tr s' = tr s /\ nextID (wd s') = nextID (wd s) /\
             (forall o, o ∈ book (wd s') -> o ∈ book (wd s)).
Proof.
  intros Hnz H. unfold TopUp.relist, mbind at 1, Gw_bind at 1, getTrader.
  destruct (_ || _).
  - destruct (cancelAllTPSL_ok amt s Hnz H) as (s1 & E1 & H1 & Ht1 & Hn1 & Hsub1).
    rewrite (run_bind _ _ _ _ _ E1).
    unfold mbind at 1, Gw_bind at 1, Sleep.
    set (s2 := setWorld _ s1).
    assert (H2 : reliable s2) by exact H1.
    rewrite (run_bind _ _ _ _ _ (ListOpenOrders_ok s2 H2)).
    exists (setWorld (called CallListOpenOrders (wd s2)) s2).
    split; [reflexivity|]. repeat split; try done.
    by apply reliable_called'.
  - exists s. by repeat split.
Qed.

Lemma stopOrder_type (amt x : Q) wt : cType (stopOrder amt x wt) = OrderTypeStopMarket.
Proof. unfold stopOrder. by destruct (legSide _). Qed.
Lemma profitOrder_type (amt x : Q) wt : cType (profitOrder amt x wt) = OrderTypeLimit.
Proof. unfold profitOrder. by destruct (legSide _). Qed.
Lemma stopOrder_quantity (amt x : Q) wt : cQuantity (stopOrder amt x wt) = Sprintf4 (Qabs amt).
Proof. unfold stopOrder. by destruct (legSide _). Qed.
Lemma profitOrder_quantity (amt x : Q) wt :
  cQuantity (profitOrder amt x wt) = Sprintf4 (Qabs amt).
Proof. unfold profitOrder. by destruct (legSide _). Qed.

Lemma placeMissing_ok (amt entryPrice : Q) (hasSL hasTP : bool) (s : St) :
  reliable s ->
  exists s', TopUp.placeMissing amt entryPrice hasSL hasTP s = (None, s') /\
             reliable s' /\ tr s' = tr s /\
             book (wd s') = book (wd s) ++ newLegs amt entryPrice (nextID (wd s)) hasSL hasTP.
Proof.
  intros H. unfold TopUp.placeMissing, newLegs.
  destruct hasSL.
  - unfold mbind at 1, Gw_bind at 1, mret at 1, Gw_ret at 1.
    destruct hasTP.
    + exists s. repeat split; try done. simpl. by rewrite app_nil_r.
    + rewrite (run_bind _ _ _ _ _ (CreateOrderDo_ok _ s H
                 ltac:(rewrite profitOrder_type; discriminate))).
      eexists. split; [reflexivity|]. repeat split. by apply reliable_called.
  - rewrite (run_bind _ _ _ _ _ (CreateOrderDo_ok _ s H
               ltac:(rewrite stopOrder_type; discriminate))).
    set (s1 := setWorld _ s).
    assert (H1 : reliable s1) by (by apply reliable_called).
    destruct hasTP.
    + exists s1. repeat split; try done.
    + rewrite (run_bind _ _ _ _ _ (CreateOrderDo_ok _ s1 H1
                 ltac:(rewrite profitOrder_type; discriminate))).
      eexists. split; [reflexivity|]. repeat split.
      * by apply reliable_called.
      * simpl. by rewrite <- app_assoc.
Qed.

Lemma trackAndClose_ok (position : PositionRisk) (s : St) :
  reliable s ->
  (trackAndClose position s).1 = None /\
  book (wd (trackAndClose position s).2) = book (wd s).
Proof.
  intros H. unfold trackAndClose, mbind, Gw_bind, getTrader, putTrader, mret, Gw_ret,
    CreateOrderDo.
  rewrite marketOrder_type.
  destruct (_ || _); simpl; destruct (drawdown _ _); simpl; try done;
    rewrite (reliable_next _ H); done.
Qed.

Lemma scanValid_from (amt : Q) (orders : list Order) (a b : bool) :
  fold_left
    (fun (acc : bool * bool) order =>
       if qtyMatches (OrigQuantity order) amt then
         if isStopMarket order then (true, acc.2)
         else if isLimit order then (acc.1, true)
         else acc
       else acc)
    orders (a, b)
  = (a || existsb (fun o => qtyMatches (OrigQuantity o) amt && isStopMarket o) orders,
     b || existsb (fun o => qtyMatches (OrigQuantity o) amt && isLimit o) orders).
Proof.
  revert a b. induction orders as [|o orders IH]; intros a b; simpl.
  - by rewrite !orb_false_r.
  - destruct (qtyMatches _ _); simpl; [|apply IH].
    unfold isStopMarket, isLimit.
    destruct (Typ o); simpl; rewrite IH; simpl;
      by rewrite ?orb_true_r, ?orb_false_r, ?orb_true_l.
Qed.

Lemma scanValid_spec (amt : Q) (orders : list Order) :
  scanValid amt orders
  = (existsb (fun o => qtyMatches (OrigQuantity o) amt && isStopMarket o) orders,
     existsb (fun o => qtyMatches (OrigQuantity o) amt && isLimit o) orders).
Proof. unfold scanValid. by rewrite scanValid_from. Qed.

Lemma rest_stop_matches (n : Z) (amt x : Q) wt :
  isStopMarket (rest n (stopOrder amt x wt)) = true /\
  isLimit (rest n (stopOrder amt x wt)) = false /\
  qtyMatches (OrigQuantity (rest n (stopOrder amt x wt))) amt = true.
Proof.
  unfold isStopMarket, isLimit, rest. simpl.
  rewrite stopOrder_type, stopOrder_quantity. repeat split. apply qtyMatches_Sprintf4.
Qed.

Lemma rest_profit_matches (n : Z) (amt x : Q) wt :
  isLimit (rest n (profitOrder amt x wt)) = true /\
  isStopMarket (rest n (profitOrder amt x wt)) = false /\
  qtyMatches (OrigQuantity (rest n (profitOrder amt x wt))) amt = true.
Proof.
  unfold isStopMarket, isLimit, rest. simpl.
  rewrite profitOrder_type, profitOrder_quantity. repeat split. apply qtyMatches_Sprintf4.
Qed.

(** C1, as amended: a pass of [checkProtectiveStopProfit] of [part_003] for a
    position that is not flat, on a venue that answers every call, returns
    nil and leaves in the book at least one stop-market order and at least
    one limit order whose quantity is within 0.0001 of [|amt|]; starting from
    no resting order the book is then exactly the two legs placed, one
    stop-market and one limit order of that quantity, which is the target
    configuration. *)
Theorem pass_leaves_both_legs (position : PositionRisk) (s : St) :
  ~ (PositionAmt position == 0)%Q ->
  reliable s ->
  let amt := PositionAmt position in
  let r := TopUp.checkProtectiveStopProfit position s in
  r.1 = None /\
  (exists o, o ∈ book (wd r.2) /\ isStopMarket o = true
             /\ qtyMatches (OrigQuantity o) amt = true) /\
  (exists o, o ∈ book (wd r.2) /\ isLimit o = true
             /\ qtyMatches (OrigQuantity o) amt = true) /\
  (book (wd s) = [] ->
     book (wd r.2) = newLegs amt (EntryPrice position) (nextID (wd s)) false false /\
     targetConfiguration amt (book (wd r.2)) = true).
Proof.
  intros Hnz H. cbn zeta. unfold TopUp.checkProtectiveStopProfit.
  rewrite (Qeq_bool_false _ _ Hnz).
  rewrite (run_bind _ _ _ _ _ (ListOpenOrders_ok s H)).
  set (s1 := setWorld _ s).
  assert (H1 : reliable s1) by (by apply reliable_called').
  destruct (relist_ok (PositionAmt position) (EntryPrice position) s1 Hnz H1)
    as (s2 & E2 & H2 & Ht2 & Hn2 & Hsub2).
  change (book (wd s1)) with (book (wd s)) in E2, Hsub2.
  change (nextID (wd s1)) with (nextID (wd s)) in Hn2.
  rewrite (run_bind _ _ _ _ _ E2), scanValid_spec.
  set (sl := existsb _ (book (wd s2))). set (tp := existsb _ (book (wd s2))).
  destruct (placeMissing_ok (PositionAmt position) (EntryPrice position) sl tp s2 H2)
    as (s3 & E3 & H3 & Ht3 & Hb3).
  rewrite (run_bind _ _ _ _ _ E3).
  destruct (trackAndClose_ok position s3 H3) as (Hres & Hbook).
  rewrite Hbook, Hb3, Hn2. split; [exact Hres|]. split; [|split].
  - destruct sl eqn:Esl.
    + apply existsb_exists in Esl as (o & Ho & Hm). apply andb_true_iff in Hm as [? ?].
      exists o. split; [|done]. apply elem_of_app. left. by apply list_elem_of_In.
    + eexists. split; [|split].
      * apply elem_of_app. right. unfold newLegs. apply elem_of_app. left.
        apply list_elem_of_here.
      * apply rest_stop_matches.
      * apply rest_stop_matches.
  - destruct tp eqn:Etp.
    + apply existsb_exists in Etp as (o & Ho & Hm). apply andb_true_iff in Hm as [? ?].
      exists o. split; [|done]. apply elem_of_app. left. by apply list_elem_of_In.
    + eexists. split; [|split].
      * apply elem_of_app. right. unfold newLegs. apply elem_of_app. right.
        apply list_elem_of_here.
      * apply rest_profit_matches.
      * apply rest_profit_matches.
  - intros Hempty.
    assert (Hb2 : book (wd s2) = []).
    { apply elem_of_nil_inv. intros o Ho. apply Hsub2 in Ho. rewrite Hempty in Ho.
      by apply elem_of_nil in Ho. }
    subst sl tp. rewrite Hb2. cbn [existsb app]. split; [done|].
    destruct (rest_stop_matches (nextID (wd s)) (PositionAmt position)
                (below (PositionAmt position) (EntryPrice position) 1)
                (Some WorkingTypeContractPrice)) as (S1 & S2 & S3).
    destruct (rest_profit_matches (nextID (wd s) + 1) (PositionAmt position)
                (above (PositionAmt position) (EntryPrice position) 2)
                (Some WorkingTypeContractPrice)) as (P1 & P2 & P3).
    unfold targetConfiguration, newLegs. cbn [app List.filter forallb].
    rewrite S1, S2, S3, P1, P2, P3. reflexivity.
Qed.

Lemma pass_leaves_both_legs_witness :
  let r := TopUp.checkProtectiveStopProfit long1 idle in
  ~ (PositionAmt long1 == 0)%Q /\ reliable idle /\
  r.1 = None /\
  targetConfiguration (PositionAmt long1) (book (wd r.2)) = true.
Proof.
  assert (Hnz : ~ (PositionAmt long1 == 0)%Q) by (intros H; discriminate H).
  assert (Hrel : reliable idle) by constructor.
  destruct (pass_leaves_both_legs long1 idle Hnz Hrel) as (Hres & _ & _ & Hempty).
  destruct (Hempty eq_refl) as [_ Htarget].
  repeat split; assumption.
Defined.

(** C1 as stated fails where a leg is resting twice: the long of 1 with two
    stop-market orders and one limit order of quantity 1.  The pass (with the
    position remembered as the loop of [part_003] leaves it, and through one
    turn of that loop from an empty cache) finds both legs valid, cancels and
    places nothing, and leaves two stop-loss orders resting. *)
Lemma duplicate_stop_is_left_resting :
  (let s := {| tr := setCache SOLUSDC long1 0 noMaps; wd := venue twoStops [long1] [] |} in
   let r := TopUp.checkProtectiveStopProfit long1 s in
   reliable s /\ r.1 = None /\ book (wd r.2) = twoStops /\
   trace (wd r.2) = [CallListOpenOrders]) /\
  (let s := {| tr := noMaps; wd := venue twoStops [long1] [] |} in
   book (wd (TopUp.runOnce s).2) = twoStops /\
   trace (wd (TopUp.runOnce s).2) = [CallGetPositionRisk; CallListOpenOrders]) /\
  length (List.filter isStopMarket twoStops) = 2%nat /\
  targetConfiguration (PositionAmt long1) twoStops = false.
Proof. vm_compute. repeat split. constructor. Qed.

(** In [part_001] the pass does not reach both legs: from an empty book the
    take-profit is placed, then [checkAndSetStopLoss] finds no stop, cancels
    every limit and stop-market order, the take-profit among them, and places
    the stop; the next pass cancels the stop and does the same again. *)
Lemma totals_pass_cancels_its_take_profit :
  let s1 := (Totals.visit long1 idle).2 in
  let s2 := (Totals.visit long1 s1).2 in
  (Typ <$> book (wd s1), OrderID <$> book (wd s1)) = ([OrderTypeStopMarket], [2]) /\
  (Typ <$> book (wd s2), OrderID <$> book (wd s2)) = ([OrderTypeStopMarket], [4]) /\
  targetConfiguration (PositionAmt long1) (book (wd s1)) = false.
Proof. vm_compute. repeat split. Qed.

(** ** Prices of the legs placed by [checkAndSetStopLoss] and [checkAndSetTakeProfit] *)

(** ** Binary64: the error of a rounding *)


Lemma pow2_pos (k : Z) : (0 < Binary64.pow2 k)%Q.
Proof. unfold Binary64.pow2. apply Qpower_0_lt. reflexivity. Qed.

Lemma pow2_plus (a b : Z) : (Binary64.pow2 (a + b) == Binary64.pow2 a * Binary64.pow2 b)%Q.
Proof. unfold Binary64.pow2. apply Qpower_plus. discriminate. Qed.

Lemma pow2_nonneg_Z (a : Z) : 0 <= a -> (Binary64.pow2 a == inject_Z (2 ^ a))%Q.
Proof. intros H. unfold Binary64.pow2. by rewrite (Zpower_Qpower 2 a H). Qed.

(** The exponent is not above the number. *)
Lemma ilog2_le (x : Q) : ~ (x == 0)%Q -> (Binary64.pow2 (Binary64.ilog2 x) <= Qabs x)%Q.
Proof.
  intros Hx. unfold Binary64.ilog2.
  set (a := Z.log2 (Z.abs (Qnum x))). set (b := Z.log2 (Z.pos (Qden x))).
  destruct (Qle_bool _ _) eqn:E; [by apply Qle_bool_iff in E|].
  clear E.
  assert (Hn : 0 < Z.abs (Qnum x)).
  { destruct x as [n d]. unfold Qeq in Hx. simpl in *. lia. }
  assert (Ha : 2 ^ a <= Z.abs (Qnum x)) by (apply Z.log2_spec; exact Hn).
  assert (Hb : Z.pos (Qden x) < 2 ^ (b + 1)).
  { replace (b + 1) with (Z.succ b) by lia. apply Z.log2_spec. lia. }
  assert (Ha0 : 0 <= a) by apply Z.log2_nonneg.
  assert (Hb0 : 0 <= b) by apply Z.log2_nonneg.
  assert (E : (Binary64.pow2 (a - b - 1) * inject_Z (2 ^ (b + 1)) == inject_Z (2 ^ a))%Q).
  { rewrite <- (pow2_nonneg_Z (b + 1)) by lia. rewrite <- pow2_plus.
    replace (a - b - 1 + (b + 1)) with a by lia. by apply pow2_nonneg_Z. }
  assert (Habs : (Qabs x == inject_Z (Z.abs (Qnum x)) / inject_Z (Z.pos (Qden x)))%Q).
  { destruct x as [n d]. simpl. unfold Qeq, Qdiv, Qmult, Qinv, inject_Z. simpl. lia. }
  rewrite Habs.
  apply Qle_shift_div_l; [reflexivity|].
  pose proof (pow2_pos (a - b - 1)) as Hp.
  apply (Qle_trans _ (Binary64.pow2 (a - b - 1) * inject_Z (2 ^ (b + 1)))).
  - apply Qmult_le_l; [exact Hp|]. rewrite <- Zle_Qle. lia.
  - rewrite E. rewrite <- Zle_Qle. exact Ha.
Qed.

(** The number is below the next power of two: the exponent is the right one. *)
Lemma ilog2_lt (x : Q) : (Qabs x < Binary64.pow2 (Binary64.ilog2 x + 1))%Q.
Proof.
  unfold Binary64.ilog2.
  set (a := Z.log2 (Z.abs (Qnum x))). set (b := Z.log2 (Z.pos (Qden x))).
  destruct (Qle_bool _ _) eqn:E.
  - clear E.
    assert (Ha : Z.abs (Qnum x) < 2 ^ (a + 1)).
    { destruct (Z.eq_dec (Z.abs (Qnum x)) 0) as [E0|E0].
      - rewrite E0. apply Z.pow_pos_nonneg; [lia|].
        pose proof (Z.log2_nonneg (Z.abs (Qnum x))). lia.
      - replace (a + 1) with (Z.succ a) by lia. apply Z.log2_spec. lia. }
    assert (Hb : 2 ^ b <= Z.pos (Qden x)) by (apply Z.log2_spec; lia).
    assert (Ha0 : 0 <= a) by apply Z.log2_nonneg.
    assert (Hb0 : 0 <= b) by apply Z.log2_nonneg.
    assert (E : (Binary64.pow2 (a - b + 1) * inject_Z (2 ^ b) == inject_Z (2 ^ (a + 1)))%Q).
    { rewrite <- (pow2_nonneg_Z b) by lia. rewrite <- pow2_plus.
      replace (a - b + 1 + b) with (a + 1) by lia. apply pow2_nonneg_Z. lia. }
    assert (Habs : (Qabs x == inject_Z (Z.abs (Qnum x)) / inject_Z (Z.pos (Qden x)))%Q).
    { destruct x as [n d]. simpl. unfold Qeq, Qdiv, Qmult, Qinv, inject_Z. simpl. lia. }
    rewrite Habs.
    apply Qlt_shift_div_r; [reflexivity|].
    pose proof (pow2_pos (a - b + 1)) as Hp.
    apply (Qlt_le_trans _ (inject_Z (2 ^ (a + 1)))).
    + rewrite <- Zlt_Qlt. exact Ha.
    + rewrite <- E. apply Qmult_le_l; [exact Hp|]. rewrite <- Zle_Qle. exact Hb.
  - replace (a - b - 1 + 1) with (a - b) by lia.
    apply Qnot_le_lt. intros H. apply Qle_bool_iff in H. congruence.
Qed.

Lemma ulp_pos (x : Q) : (0 < Binary64.ulp x)%Q.
Proof. apply pow2_pos. Qed.

Lemma nearest_eq (x : Q) :
  (Binary64.nearest x == inject_Z (roundHalfEven (x / Binary64.ulp x)) * Binary64.ulp x)%Q.
Proof. unfold Binary64.nearest. apply Qred_correct. Qed.

(** Rounding moves a number by half an [Binary64.ulp] at most. *)
Lemma nearest_half_ulp (x : Q) :
  (Qabs (Binary64.nearest x - x) <= Binary64.ulp x * (1 # 2))%Q.
Proof.
  rewrite nearest_eq.
  pose proof (ulp_pos x) as HU. set (U := Binary64.ulp x) in *.
  pose proof (roundHalfEven_near (x / U)) as H.
  apply Qabs_Qle_condition in H. destruct H as [H1 H2].
  set (n := inject_Z _) in *.
  assert (E : (x == x / U * U)%Q) by (field; lra).
  set (y := (x / U)%Q) in *.
  apply Qabs_Qle_condition.
  assert (E1 : (n * U - x == (n - y) * U)%Q) by (rewrite E at 1; ring).
  rewrite E1. split.
  - apply (Qle_trans _ (- (1 # 2) * U)); [lra|].
    apply Qmult_le_compat_r; lra.
  - apply (Qle_trans _ ((1 # 2) * U)); [|lra].
    apply Qmult_le_compat_r; lra.
Qed.

(** The rounding at numbers whose binary64 values are well known: 0.1, 0.01
    and 1/3; [0.1 + 0.2], which is 0.30000000000000004...; [2^53 + 1], a tie
    that goes to the even [2^53]; the largest finite number [2^1024 - 2^971]
    and the tie above it, which overflows; the tie below the least subnormal
    [2^-1074], which goes to zero, and the number just above that tie. *)
Lemma binary64_samples :
  Binary64.ParseFloat (1 # 10) = Some (3602879701896397 # 36028797018963968) /\
  Binary64.ParseFloat (1 # 100) = Some (5764607523034235 # 576460752303423488) /\
  Binary64.ParseFloat (1 # 3) = Some (6004799503160661 # 18014398509481984) /\
  (x ← Binary64.ParseFloat (1 # 10); y ← Binary64.ParseFloat (2 # 10); Binary64.add x y)
  = Some (1351079888211149 # 4503599627370496) /\
  Binary64.ParseFloat 9007199254740993 = Some 9007199254740992%Q /\
  Binary64.round (2 ^ 1024 - 2 ^ 971) = Some (Qred (2 ^ 1024 - 2 ^ 971)) /\
  Binary64.round (2 ^ 1024 - 2 ^ 970) = None /\
  Binary64.round (2 ^ (-1075)) = Some 0%Q /\
  Binary64.round (2 ^ (-1075) + 2 ^ (-1100)) = Some (Qred (2 ^ (-1074))).
Proof. vm_compute. repeat split. Qed.

(** The unit roundoff of binary64 and half the least subnormal. *)
Lemma half_ulp_bound (x : Q) :
  ~ (x == 0)%Q ->
  (Binary64.ulp x * (1 # 2) <= Binary64.pow2 (-53) * Qabs x + Binary64.pow2 (-1075))%Q.
Proof.
  intros Hx. unfold Binary64.ulp.
  pose proof (ilog2_le x Hx) as He. set (e := Binary64.ilog2 x) in *.
  pose proof (pow2_pos (-53)) as Hu. pose proof (pow2_pos (-1075)) as Heta.
  assert (Hhalf : forall k,
             (Binary64.pow2 (k - 52) * (1 # 2) == Binary64.pow2 k * Binary64.pow2 (-53))%Q).
  { intros k. replace (k - 52) with (k + (-52)) by lia. rewrite pow2_plus.
    assert (E : (Binary64.pow2 (-52) * (1 # 2) == Binary64.pow2 (-53))%Q) by reflexivity.
    rewrite <- E. ring. }
  rewrite Hhalf.
  destruct (Z.max_spec e (-1022)) as [[Hlt ->]|[Hge ->]].
  - assert (E : (Binary64.pow2 (-1022) * Binary64.pow2 (-53) == Binary64.pow2 (-1075))%Q).
    { rewrite <- pow2_plus. reflexivity. }
    rewrite E. pose proof (Qabs_nonneg x) as Ha.
    assert ((0 <= Binary64.pow2 (-53) * Qabs x)%Q) by (apply Qmult_le_0_compat; lra).
    lra.
  - apply (Qle_trans _ (Binary64.pow2 (-53) * Qabs x)); [|lra].
    rewrite (Qmult_comm (Binary64.pow2 e)). apply Qmult_le_l; [exact Hu|exact He].
Qed.

Lemma nearest_zero (x : Q) : (x == 0)%Q -> (Binary64.nearest x == 0)%Q.
Proof.
  intros Hx. rewrite nearest_eq. set (U := Binary64.ulp x).
  rewrite (roundHalfEven_integer (x / U) 0); [ring|].
  rewrite Hx. unfold Qdiv. ring.
Qed.

(** The error of a rounding, for a number of magnitude [M] at most. *)
Lemma nearest_err (x M : Q) :
  (Qabs x <= M)%Q ->
  (Qabs (Binary64.nearest x - x) <= Binary64.pow2 (-53) * M + Binary64.pow2 (-1075))%Q.
Proof.
  intros HM.
  pose proof (pow2_pos (-53)) as Hu. pose proof (pow2_pos (-1075)) as Heta.
  pose proof (Qabs_nonneg x) as Ha.
  assert (HuM : (Binary64.pow2 (-53) * Qabs x <= Binary64.pow2 (-53) * M)%Q)
    by (apply Qmult_le_l; [exact Hu|exact HM]).
  destruct (Qeq_dec x 0) as [Hx|Hx].
  - pose proof (nearest_zero x Hx) as Hr. set (r := Binary64.nearest x) in *.
    assert (E : (r - x == 0)%Q) by (rewrite Hr, Hx; ring).
    rewrite E. change (Qabs 0) with 0%Q.
    assert ((0 <= Binary64.pow2 (-53) * Qabs x)%Q) by (apply Qmult_le_0_compat; lra).
    set (a := (Binary64.pow2 (-53) * M)%Q) in *.
    set (b := (Binary64.pow2 (-53) * Qabs x)%Q) in *. lra.
  - eapply Qle_trans; [apply nearest_half_ulp|].
    eapply Qle_trans; [apply (half_ulp_bound x Hx)|]. lra.
Qed.

(** Below [2^1000] every rounding has a result. *)
Lemma Binary64_round_some (x M : Q) :
  (Qabs x <= M)%Q -> (M <= Binary64.pow2 1000)%Q ->
  Binary64.round x = Some (Binary64.nearest x).
Proof.
  intros HM HB. unfold Binary64.round.
  destruct (Qle_bool _ _) eqn:E; [|done]. exfalso.
  apply Qle_bool_iff in E.
  pose proof (nearest_err x M HM) as H.
  assert (Hr : (Qabs (Binary64.nearest x) <= Qabs x + Qabs (Binary64.nearest x - x))%Q).
  { assert (E1 : (Binary64.nearest x == x + (Binary64.nearest x - x))%Q) by ring.
    rewrite E1 at 1. apply Qabs_triangle. }
  assert (H1 : (Binary64.pow2 (-53) * M <= Binary64.pow2 (-53) * Binary64.pow2 1000)%Q)
    by (apply Qmult_le_l; [apply pow2_pos|exact HB]).
  assert (H2 : (Binary64.pow2 1000 + Binary64.pow2 (-53) * Binary64.pow2 1000
                + Binary64.pow2 (-1075) < Binary64.pow2 1024)%Q)
    by reflexivity.
  lra.
Qed.

(** The same with the constants written out, for [lra]. *)
Lemma nearest_close (x M : Q) :
  (Qabs x <= M)%Q ->
  (Qabs (Binary64.nearest x - x) <= M * (1 # 9007199254740992) + (1 # 1000000000000000000))%Q.
Proof.
  intros HM. eapply Qle_trans; [apply (nearest_err x M HM)|].
  assert (E1 : (Binary64.pow2 (-53) == 1 # 9007199254740992)%Q) by reflexivity.
  assert (E2 : (Binary64.pow2 (-1075) <= 1 # 1000000000000000000)%Q)
    by (vm_compute; discriminate).
  rewrite E1. set (eta := Binary64.pow2 (-1075)) in *. lra.
Qed.

Lemma close_integer (m n : Z) : (Qabs (inject_Z m - inject_Z n) < 1)%Q -> m = n.
Proof.
  intros H. apply Qabs_Qlt_condition in H. destruct H as [H1 H2].
  unfold Qlt, Qminus, Qplus, Qopp, inject_Z in H1, H2. simpl in H1, H2. lia.
Qed.

Lemma roundHalfEven_close (y : Q) (n : Z) :
  (Qabs (y - inject_Z n) < 1 # 2)%Q -> roundHalfEven y = n.
Proof.
  intros H. apply close_integer.
  pose proof (roundHalfEven_near y) as Hm.
  apply Qabs_Qlt_condition in H. apply Qabs_Qle_condition in Hm.
  apply Qabs_Qlt_condition.
  set (a := inject_Z (roundHalfEven y)) in *. set (b := inject_Z n) in *. split; lra.
Qed.

Lemma Round_close (y : Q) (n : Z) :
  (Qabs (y - inject_Z n) < 1 # 2)%Q -> Round y = n.
Proof.
  intros H. apply close_integer.
  pose proof (Round_near y) as Hm.
  apply Qabs_Qlt_condition in H. apply Qabs_Qle_condition in Hm.
  apply Qabs_Qlt_condition.
  set (a := inject_Z (_ y)) in *. set (b := inject_Z n) in *. split; lra.
Qed.

Lemma tickSize_value : Binary64.tickSize = 5764607523034235 # 576460752303423488.
Proof. vm_compute. reflexivity. Qed.

(** [Binary64.roundToTickSize] at the tick 0.01, for a price of magnitude [10^9 + 3] at
    most: the result lies within [2 * 10^-7] of a multiple [n * 0.01] that is
    itself within half a tick and [2 * 10^-7] of the price; it is printed as
    that multiple, and rounding it again returns it. *)
Lemma tick_rounding (x : Q) :
  (Qabs x <= 1000000003)%Q ->
  exists (r : Q) (n : Z),
    Binary64.roundToTickSize x Binary64.tickSize = Some r /\
    (Qabs (inject_Z n * tick - x) <= (1 # 200) + (1 # 5000000))%Q /\
    (Qabs (r - inject_Z n * tick) <= 1 # 5000000)%Q /\
    (Sprintf2 r == inject_Z n * tick)%Q /\
    Binary64.roundToTickSize r Binary64.tickSize = Some r.
Proof.
  intros Hx. unfold Binary64.roundToTickSize, Binary64.div, Binary64.mul.
  rewrite tickSize_value.
  set (t := 5764607523034235 # 576460752303423488).
  assert (Et : Qeq_bool t 0 = false) by reflexivity. rewrite Et.
  assert (Ediv : forall y, (y / t == y * (576460752303423488 # 5764607523034235))%Q).
  { intros y. unfold Qdiv. reflexivity. }
  apply Qabs_Qle_condition in Hx.
  (* the quotient *)
  assert (Hq0 : (Qabs (x / t) <= 100000000301)%Q).
  { rewrite Ediv. apply Qabs_Qle_condition. split; lra. }
  rewrite (Binary64_round_some (x / t) 100000000301 Hq0) by (vm_compute; discriminate).
  pose proof (nearest_close (x / t) 100000000301 Hq0) as Hq.
  set (q := Binary64.nearest (x / t)) in *. cbn [mbind option_bind].
  unfold Binary64.Round. pose proof (Round_near q) as Hn.
  set (n := Round q) in *.
  apply Qabs_Qle_condition in Hq. rewrite Ediv in Hq.
  apply Qabs_Qle_condition in Hn.
  assert (Hnt : (Qabs (inject_Z n * t) <= 1000000004)%Q).
  { apply Qabs_Qle_condition. unfold t. set (z := inject_Z n) in *. split; lra. }
  rewrite (Binary64_round_some (inject_Z n * t) 1000000004 Hnt) by (vm_compute; discriminate).
  pose proof (nearest_close (inject_Z n * t) 1000000004 Hnt) as Hr.
  set (r := Binary64.nearest (inject_Z n * t)) in *.
  apply Qabs_Qle_condition in Hr.
  assert (Hrn : (Qabs (r - inject_Z n * tick) <= 1 # 5000000)%Q).
  { apply Qabs_Qle_condition. unfold t, tick in *. set (z := inject_Z n) in *. split; lra. }
  exists r, n. split_and!.
  - reflexivity.
  - apply Qabs_Qle_condition. unfold tick. set (z := inject_Z n) in *. split; lra.
  - exact Hrn.
  - unfold Sprintf2. rewrite Qred_correct.
    rewrite (roundHalfEven_close (r * 100) n).
    + rewrite Qmake_scale. reflexivity.
    + apply Qabs_Qle_condition in Hrn. apply Qabs_Qlt_condition.
      unfold tick in *. set (z := inject_Z n) in *. split; lra.
  - assert (Hq1 : (Qabs (r / t) <= 100000000301)%Q).
    { rewrite Ediv. apply Qabs_Qle_condition. unfold t in *.
      set (z := inject_Z n) in *. split; lra. }
    rewrite (Binary64_round_some (r / t) 100000000301 Hq1) by (vm_compute; discriminate).
    pose proof (nearest_close (r / t) 100000000301 Hq1) as Hq'.
    set (q' := Binary64.nearest (r / t)) in *. cbn [mbind option_bind].
    apply Qabs_Qle_condition in Hq'. rewrite Ediv in Hq'.
    rewrite (Round_close q' n).
    + fold r.
      rewrite (Binary64_round_some (inject_Z n * t) 1000000004 Hnt)
        by (vm_compute; discriminate).
      reflexivity.
    + apply Qabs_Qlt_condition. unfold t in *. set (z := inject_Z n) in *. split; lra.
Qed.

(** ** The prices of the legs in binary64 *)

(** An amount between [10^-9] and [10^9] in magnitude is parsed to a number
    of its sign. *)
Lemma parsed_amount (amt : Q) :
  (1 # 1000000000 <= Qabs amt)%Q -> (Qabs amt <= 1000000000)%Q ->
  exists a, Binary64.ParseFloat amt = Some a /\
            Qeq_bool a 0 = false /\ Qltb 0 a = Qltb 0 amt /\
            (Qabs a <= 1000000001)%Q.
Proof.
  intros Hlo Hhi. exists (Binary64.nearest amt).
  unfold Binary64.ParseFloat.
  rewrite (Binary64_round_some amt 1000000000 Hhi) by (vm_compute; discriminate).
  split; [reflexivity|].
  pose proof (nearest_close amt (Qabs amt) (Qle_refl _)) as H.
  set (a := Binary64.nearest amt) in *.
  apply Qabs_Qle_condition in H. destruct H as [H1 H2].
  destruct (Qlt_le_dec amt 0) as [Hneg|Hpos].
  - rewrite (Qabs_neg amt) in * by lra.
    assert (Ha : (a < 0)%Q) by lra.
    split_and!.
    + apply Qeq_bool_false. lra.
    + transitivity false; [apply Qltb_ge; lra|symmetry; apply Qltb_ge; lra].
    + apply Qabs_Qle_condition. split; lra.
  - rewrite (Qabs_pos amt) in * by lra.
    assert (Ha : (0 < a)%Q) by lra.
    split_and!.
    + apply Qeq_bool_false. lra.
    + transitivity true; [apply Qltb_lt; lra|symmetry; apply Qltb_lt; lra].
    + apply Qabs_Qle_condition. split; lra.
Qed.

(** The entry price parsed, moved by [c] and taken to the tick: the result
    is printed as a multiple of 0.01 within half a tick and [10^-6] of
    [entryPrice + c]. *)
Lemma leg_price (entryPrice c : Q) :
  (Qabs entryPrice <= 1000000000)%Q -> (Qabs c <= 2)%Q ->
  exists e r,
    Binary64.ParseFloat entryPrice = Some e /\
    (Binary64.round (e + c) ≫= fun p => Binary64.roundToTickSize p Binary64.tickSize)
    = Some r /\
    nearTick slack (entryPrice + c) (Sprintf2 r).
Proof.
  intros HE Hc. exists (Binary64.nearest entryPrice).
  unfold Binary64.ParseFloat.
  rewrite (Binary64_round_some entryPrice 1000000000 HE) by (vm_compute; discriminate).
  pose proof (nearest_close entryPrice 1000000000 HE) as He.
  set (e := Binary64.nearest entryPrice) in *.
  apply Qabs_Qle_condition in HE, Hc, He.
  assert (Hec : (Qabs (e + c) <= 1000000003 - (1 # 2))%Q).
  { apply Qabs_Qle_condition. split; lra. }
  rewrite (Binary64_round_some (e + c) _ Hec) by (vm_compute; discriminate).
  pose proof (nearest_close (e + c) _ Hec) as Hp.
  set (p := Binary64.nearest (e + c)) in *. cbn [mbind option_bind].
  apply Qabs_Qle_condition in Hp.
  assert (Hp3 : (Qabs p <= 1000000003)%Q).
  { apply Qabs_Qle_condition. split; lra. }
  destruct (tick_rounding p Hp3) as (r & n & Er & Hn & _ & Hs & _).
  exists r. split_and!; [reflexivity|exact Er|].
  exists n. split; [exact Hs|]. rewrite Hs.
  apply Qabs_Qle_condition in Hn. apply Qabs_Qle_condition.
  unfold tick, slack in *. set (z := inject_Z n) in *. split; lra.
Qed.

Lemma stopPrice_near (amt a entryPrice : Q) :
  Qltb 0 a = Qltb 0 amt ->
  (Qabs entryPrice <= 1000000000)%Q ->
  exists e p,
    Binary64.ParseFloat entryPrice = Some e /\ Binary64.stopPrice a e = Some p /\
    nearTick slack (below amt entryPrice 1) (Sprintf2 p).
Proof.
  intros Hs HE. unfold Binary64.stopPrice, below, Binary64.sub, Binary64.add.
  rewrite Hs. destruct (Qltb 0 amt).
  - destruct (leg_price entryPrice (-1) HE) as (e & r & H1 & H2 & H3);
      [vm_compute; discriminate|].
    exists e, r. by split_and!.
  - destruct (leg_price entryPrice 1 HE) as (e & r & H1 & H2 & H3);
      [vm_compute; discriminate|].
    exists e, r. by split_and!.
Qed.

Lemma takeProfitPrice_near (amt a entryPrice : Q) :
  Qltb 0 a = Qltb 0 amt ->
  (Qabs entryPrice <= 1000000000)%Q ->
  exists e p,
    Binary64.ParseFloat entryPrice = Some e /\ Binary64.takeProfitPrice a e = Some p /\
    nearTick slack (above amt entryPrice 2) (Sprintf2 p).
Proof.
  intros Hs HE. unfold Binary64.takeProfitPrice, above, Binary64.sub, Binary64.add.
  rewrite Hs. destruct (Qltb 0 amt).
  - destruct (leg_price entryPrice 2 HE) as (e & r & H1 & H2 & H3);
      [vm_compute; discriminate|].
    exists e, r. by split_and!.
  - destruct (leg_price entryPrice (-2) HE) as (e & r & H1 & H2 & H3);
      [vm_compute; discriminate|].
    exists e, r. by split_and!.
Qed.

(** ** The methods that call [roundToTickSize], in binary64 *)

Section Runs.

Context (P : Call -> Prop).

Lemma runs_ret {A : Type} (a : A) (s : St) : runs P (mret a) s.
Proof. exists a, s. split; [reflexivity|]. exists []. by rewrite app_nil_r. Qed.

Lemma runs_bind {A B : Type} (m : Binary64.Fw A) (k : A -> Binary64.Fw B) (s : St) :
  runs P m s -> (forall a s', runs P (k a) s') -> runs P (m ≫= k) s.
Proof.
  intros (a & s1 & E1 & cs1 & T1 & F1) Hk.
  destruct (Hk a s1) as (b & s2 & E2 & cs2 & T2 & F2).
  exists b, s2. split.
  - unfold mbind, Binary64.Fw_bind. by rewrite E1.
  - exists (cs1 ++ cs2). split; [by rewrite T2, T1, app_assoc|by apply Forall_app].
Qed.

Lemma runs_lift {A : Type} (m : Gw A) (s : St) : issues P m -> runs P (Binary64.lift m) s.
Proof.
  intros H. destruct (H s) as (cs & T & F).
  exists (m s).1, (m s).2. split; [|by exists cs].
  unfold Binary64.lift. by destruct (m s).
Qed.

Lemma runs_finite {A : Type} (a : A) (s : St) : runs P (Binary64.finite (Some a)) s.
Proof. exists a, s. split; [reflexivity|]. exists []. by rewrite app_nil_r. Qed.

Lemma runs_finite_bind {A B : Type} (a : A) (k : A -> Binary64.Fw B) (s : St) :
  runs P (k a) s -> runs P (Binary64.finite (Some a) ≫= k) s.
Proof. exact id. Qed.

End Runs.

Ltac runs_step :=
  first
    [ apply runs_ret | apply runs_finite_bind | apply runs_finite
    | apply runs_bind; [|intros ? ?]
    | apply runs_lift
    | match goal with
      | |- runs _ (if ?b then _ else _) _ => destruct b eqn:?
      | |- runs _ (match ?x with _ => _ end) _ => destruct x eqn:?
      end ].

Lemma joint_cancel_creates (L : CreateOrder -> Prop) (f : Order -> bool) :
  issues (creates L) (cancelAllTPSL_joint f).
Proof. unfold cancelAllTPSL_joint, cancelEach_joint. issues_walk; exact I. Qed.

Lemma cancelAllTPSL_joint_empty (f : Order -> bool) (s : St) :
  reliable s -> book (wd s) = [] ->
  cancelAllTPSL_joint f s = (None, setWorld (called CallListOpenOrders (wd s)) s).
Proof.
  intros H Hb. unfold cancelAllTPSL_joint.
  rewrite (run_bind _ _ _ _ _ (ListOpenOrders_ok s H)), Hb. reflexivity.
Qed.

(** The scans have a result on a tame book. *)
Lemma quantity_compared (a q : Q) :
  (Qabs a <= 1000000001)%Q -> (Qabs q <= 1000000000)%Q ->
  exists qty d, Binary64.ParseFloat q = Some qty /\ Binary64.sub qty (Qabs a) = Some d.
Proof.
  intros Ha Ho.
  pose proof (nearest_close _ _ Ho) as Hq.
  exists (Binary64.nearest q), (Binary64.nearest (Binary64.nearest q - Qabs a)).
  unfold Binary64.ParseFloat, Binary64.sub.
  rewrite (Binary64_round_some _ _ Ho) by (vm_compute; discriminate).
  set (qty := Binary64.nearest q) in *.
  assert (Hd : (Qabs (qty - Qabs a) <= 3000000000)%Q).
  { pose proof (Qabs_nonneg a). set (x := Qabs a) in *.
    apply Qabs_Qle_condition in Ho, Hq.
    apply Qabs_Qle_condition. split; lra. }
  by rewrite (Binary64_round_some _ _ Hd) by (vm_compute; discriminate).
Qed.

Lemma hasValidStopLoss_some (a : Q) (orders : list Order) :
  (Qabs a <= 1000000001)%Q ->
  Forall (fun o => (Qabs (OrigQuantity o) <= 1000000000)%Q) orders ->
  exists b, Binary64.Part000.hasValidStopLoss a orders = Some b.
Proof.
  intros Ha.
  induction 1 as [|o l Ho _ IH]; cbn [Binary64.Part000.hasValidStopLoss]; [by eexists|].
  destruct (isStopMarket o); [|exact IH].
  destruct (quantity_compared a _ Ha Ho) as (qty & d & -> & E).
  cbn [mbind option_bind]. rewrite E. cbn [mbind option_bind].
  destruct (Qle_bool (Qabs d) Binary64.tolerance); [by eexists|exact IH].
Qed.

Lemma totalQty_some (pick : Order -> bool) (orders : list Order) (total : Q) :
  Forall (fun o => (Qabs (OrigQuantity o) <= 1000000000)%Q) orders ->
  (Qabs total + 2000000000 * inject_Z (Z.of_nat (length orders)) <= 2000000000000)%Q ->
  exists t, Binary64.Totals.totalQty pick total orders = Some t /\
            (Qabs t <= 2000000000000)%Q.
Proof.
  intros H. revert total.
  induction H as [|o l Ho _ IH]; intros total Ht; cbn [Binary64.Totals.totalQty].
  - exists total. split; [reflexivity|].
    change (inject_Z (Z.of_nat (length []))) with 0%Q in Ht.
    set (x := Qabs total) in *. lra.
  - assert (El : (inject_Z (Z.of_nat (length (o :: l)))
                  == inject_Z (Z.of_nat (length l)) + 1)%Q).
    { simpl length. rewrite Nat2Z.inj_succ. unfold Z.succ. by rewrite inject_Z_plus. }
    rewrite El in Ht.
    assert (Hl : (0 <= inject_Z (Z.of_nat (length l)))%Q).
    { change 0%Q with (inject_Z 0). rewrite <- Zle_Qle. lia. }
    set (n := inject_Z (Z.of_nat (length l))) in *.
    destruct (pick o).
    + unfold Binary64.ParseFloat.
      rewrite (Binary64_round_some _ _ Ho) by (vm_compute; discriminate).
      pose proof (nearest_close _ _ Ho) as Hq.
      set (qty := Binary64.nearest (OrigQuantity o)) in *. cbn [mbind option_bind].
      pose proof (Qabs_nonneg total) as Hn0.
      assert (Hs : (Qabs (total + qty) <= Qabs total + 1500000000)%Q).
      { eapply Qle_trans; [apply Qabs_triangle|].
        assert (Hqa : (Qabs qty <= 1500000000)%Q).
        { apply Qabs_Qle_condition in Ho, Hq. set (y := OrigQuantity o) in *.
          apply Qabs_Qle_condition. split; lra. }
        set (x := Qabs total) in *. set (y := Qabs qty) in *. lra. }
      assert (Hs' : (Qabs (total + qty) <= 2000000000000)%Q).
      { set (x := Qabs total) in *. set (y := Qabs (total + qty)) in *. lra. }
      unfold Binary64.add.
      rewrite (Binary64_round_some _ _ Hs') by (vm_compute; discriminate).
      pose proof (nearest_close _ _ Hs') as Ht'.
      set (t' := Binary64.nearest (total + qty)) in *. cbn [mbind option_bind].
      apply IH.
      assert (Ht2 : (Qabs t' <= Qabs (total + qty) + Qabs (t' - (total + qty)))%Q).
      { assert (E : (t' == (total + qty) + (t' - (total + qty)))%Q) by ring.
        rewrite E at 1. apply Qabs_triangle. }
      set (x := Qabs total) in *. set (y := Qabs (total + qty)) in *.
      set (z := Qabs (t' - (total + qty))) in *. set (w := Qabs t') in *. lra.
    + apply IH. set (x := Qabs total) in *. lra.
Qed.

Lemma off_some (total a : Q) :
  (Qabs total <= 2000000000000)%Q -> (Qabs a <= 1000000001)%Q ->
  exists b, Binary64.Totals.off total a = Some b.
Proof.
  intros Ht Ha. unfold Binary64.Totals.off, Binary64.sub.
  assert (Hd : (Qabs (total - Qabs a) <= 3000000000000)%Q).
  { pose proof (Qabs_nonneg a). set (x := Qabs a) in *.
    apply Qabs_Qle_condition in Ht. apply Qabs_Qle_condition. split; lra. }
  rewrite (Binary64_round_some _ _ Hd) by (vm_compute; discriminate).
  by eexists.
Qed.

Lemma tame_length (s : St) :
  tame s ->
  (Qabs 0 + 2000000000 * inject_Z (Z.of_nat (length (book (wd s)))) <= 2000000000000)%Q.
Proof.
  intros [_ H]. change (Qabs 0) with 0%Q.
  assert (Hn : (inject_Z (Z.of_nat (length (book (wd s)))) <= inject_Z 1000)%Q).
  { rewrite <- Zle_Qle. lia. }
  change (inject_Z 1000) with 1000%Q in Hn.
  set (n := inject_Z _) in *. lra.
Qed.

(** The listing hands the resting orders of the moment to what follows. *)
Lemma runs_listing {B : Type} (P : Call -> Prop)
    (k : error + list Order -> Binary64.Fw B) (s : St) :
  P CallListOpenOrders ->
  (forall err s', runs P (k (inl err)) s') ->
  (forall s', runs P (k (inr (book (wd s)))) s') ->
  runs P (Binary64.lift ListOpenOrders ≫= k) s.
Proof.
  intros HP Hl Hr.
  assert (E : exists r, ListOpenOrders s = (r, setWorld (called CallListOpenOrders (wd s)) s)
                        /\ forall s', runs P (k r) s').
  { unfold ListOpenOrders. destruct (nextOutcome (wd s)); eexists; split; try reflexivity.
    - exact Hr.
    - apply Hl. }
  destruct E as (r & E & Hk).
  destruct (Hk (setWorld (called CallListOpenOrders (wd s)) s)) as (b & s2 & E2 & cs & T & F).
  exists b, s2. split.
  - unfold mbind, Binary64.Fw_bind, Binary64.lift. by rewrite E.
  - exists (CallListOpenOrders :: cs). split.
    + rewrite T. simpl. by rewrite <- app_assoc.
    + by constructor.
Qed.

Lemma stopOrder_is_stopLeg (position : PositionRisk) (a p : Q) :
  Binary64.ParseFloat (PositionAmt position) = Some a ->
  Qltb 0 a = Qltb 0 (PositionAmt position) ->
  nearTick slack (below (PositionAmt position) (EntryPrice position) 1) (Sprintf2 p) ->
  stopLeg position (stopOrder a p None).
Proof.
  intros Ea Es Hp. unfold stopLeg, stopOrder, legSide. rewrite Es.
  destruct (Qltb 0 (PositionAmt position)); simpl; split_and!; try done; eauto.
Qed.

Lemma profitOrder_is_limitLeg (position : PositionRisk) (a p : Q) :
  Binary64.ParseFloat (PositionAmt position) = Some a ->
  Qltb 0 a = Qltb 0 (PositionAmt position) ->
  nearTick slack (above (PositionAmt position) (EntryPrice position) 2) (Sprintf2 p) ->
  limitLeg position (profitOrder a p None).
Proof.
  intros Ea Es Hp. unfold limitLeg, profitOrder, legSide. rewrite Es.
  destruct (Qltb 0 (PositionAmt position)); simpl; split_and!; try done; eauto.
Qed.

Lemma resetStopLoss_runs (L : CreateOrder -> Prop) (a e p : Q) (valid : bool) (s : St) :
  Binary64.stopPrice a e = Some p -> L (stopOrder a p None) ->
  runs (creates L) (Binary64.Part000.resetStopLoss a e valid) s.
Proof.
  intros Ep HL. unfold Binary64.Part000.resetStopLoss. rewrite Ep.
  repeat runs_step; try apply joint_cancel_creates; try apply issues_Sleep.
  all: apply issues_CreateOrderDo; exact HL.
Qed.

Lemma restoreStopLoss_runs (L : CreateOrder -> Prop) (position : PositionRisk)
    (a e p : Q) (orders : list Order) (reset : bool) (s : St) :
  Binary64.ParseFloat (EntryPrice position) = Some e ->
  Binary64.stopPrice a e = Some p -> L (stopOrder a p None) ->
  runs (creates L) (Binary64.Totals.restoreStopLoss position a orders reset) s.
Proof.
  intros Ee Ep HL. unfold Binary64.Totals.restoreStopLoss. rewrite Ee.
  apply runs_bind.
  { repeat runs_step; try apply joint_cancel_creates; try apply issues_Sleep;
      try apply issues_getTrader; try apply issues_putTrader. }
  intros [err|] s1; [apply runs_ret|].
  apply runs_finite_bind. destruct (Totals.hasLeg _ _ _); [apply runs_ret|].
  rewrite Ep. apply runs_finite_bind.
  repeat runs_step. apply issues_CreateOrderDo. exact HL.
Qed.

Lemma restoreTakeProfit_runs (L : CreateOrder -> Prop) (position : PositionRisk)
    (a e p : Q) (orders : list Order) (reset : bool) (s : St) :
  Binary64.ParseFloat (EntryPrice position) = Some e ->
  Binary64.takeProfitPrice a e = Some p -> L (profitOrder a p None) ->
  runs (creates L) (Binary64.Totals.restoreTakeProfit position a orders reset) s.
Proof.
  intros Ee Ep HL. unfold Binary64.Totals.restoreTakeProfit. rewrite Ee.
  apply runs_bind.
  { repeat runs_step; try apply joint_cancel_creates; try apply issues_Sleep. }
  intros [err|] s1; [apply runs_ret|].
  apply runs_finite_bind. destruct (Totals.hasLeg _ _ _); [apply runs_ret|].
  rewrite Ep. apply runs_finite_bind.
  repeat runs_step. apply issues_CreateOrderDo. exact HL.
Qed.

Section Legs.

Variable position : PositionRisk.
Hypothesis amt_lo : (1 # 1000000000 <= Qabs (PositionAmt position))%Q.
Hypothesis amt_hi : (Qabs (PositionAmt position) <= 1000000000)%Q.
Hypothesis entry_hi : (Qabs (EntryPrice position) <= 1000000000)%Q.

Lemma stop_runs_part_000 (s : St) :
  tame s ->
  runs (creates (stopLeg position)) (Binary64.Part000.checkAndSetStopLoss position) s.
Proof.
  intros [Hq Hlen].
  destruct (parsed_amount _ amt_lo amt_hi) as (a & Ea & Ez & Es & Ha).
  destruct (stopPrice_near _ a _ Es entry_hi) as (e & p & Ee & Ep & Hp).
  pose proof (stopOrder_is_stopLeg position a p Ea Es Hp) as HL.
  unfold Binary64.Part000.checkAndSetStopLoss. rewrite Ea, Ee.
  do 2 apply runs_finite_bind. rewrite Ez.
  apply runs_listing; [exact I|intros; apply runs_ret|intros s1].
  destruct (hasValidStopLoss_some a _ Ha Hq) as [b ->].
  apply runs_finite_bind. by apply (resetStopLoss_runs _ a e p).
Qed.

Lemma stop_runs_part_001 (s : St) :
  tame s ->
  runs (creates (stopLeg position)) (Binary64.Totals.checkAndSetStopLoss position) s.
Proof.
  intros Ht. pose proof Ht as [Hq Hlen].
  destruct (parsed_amount _ amt_lo amt_hi) as (a & Ea & Ez & Es & Ha).
  destruct (stopPrice_near _ a _ Es entry_hi) as (e & p & Ee & Ep & Hp).
  pose proof (stopOrder_is_stopLeg position a p Ea Es Hp) as HL.
  unfold Binary64.Totals.checkAndSetStopLoss. rewrite Ea.
  apply runs_finite_bind. rewrite Ez.
  apply runs_listing; [exact I|intros; apply runs_ret|intros s1].
  destruct (totalQty_some isStopMarket _ 0 Hq (tame_length s Ht)) as (t & -> & Htot).
  apply runs_finite_bind.
  destruct (off_some t a Htot Ha) as [b ->].
  apply runs_finite_bind. by apply (restoreStopLoss_runs _ position a e p).
Qed.

Lemma profit_runs_part_001 (s : St) :
  tame s ->
  runs (creates (limitLeg position)) (Binary64.Totals.checkAndSetTakeProfit position) s.
Proof.
  intros Ht. pose proof Ht as [Hq Hlen].
  destruct (parsed_amount _ amt_lo amt_hi) as (a & Ea & Ez & Es & Ha).
  destruct (takeProfitPrice_near _ a _ Es entry_hi) as (e & p & Ee & Ep & Hp).
  pose proof (profitOrder_is_limitLeg position a p Ea Es Hp) as HL.
  unfold Binary64.Totals.checkAndSetTakeProfit. rewrite Ea.
  apply runs_finite_bind. rewrite Ez.
  apply runs_listing; [exact I|intros; apply runs_ret|intros s1].
  destruct (totalQty_some isLimit _ 0 Hq (tame_length s Ht)) as (t & -> & Htot).
  apply runs_finite_bind.
  destruct (off_some t a Htot Ha) as [b ->].
  apply runs_finite_bind. by apply (restoreTakeProfit_runs _ position a e p).
Qed.

End Legs.

Section Placed.

Variable position : PositionRisk.
Hypothesis amt_lo : (1 # 1000000000 <= Qabs (PositionAmt position))%Q.
Hypothesis amt_hi : (Qabs (PositionAmt position) <= 1000000000)%Q.
Hypothesis entry_hi : (Qabs (EntryPrice position) <= 1000000000)%Q.

Lemma stop_placed_part_000 (s : St) :
  reliable s -> book (wd s) = [] ->
  places (stopLeg position) (Binary64.Part000.checkAndSetStopLoss position) s.
Proof.
  intros H Hb.
  destruct (parsed_amount _ amt_lo amt_hi) as (a & Ea & Ez & Es & Ha).
  destruct (stopPrice_near _ a _ Es entry_hi) as (e & p & Ee & Ep & Hp).
  pose proof (stopOrder_is_stopLeg position a p Ea Es Hp) as HL.
  set (s1 := setWorld (called CallListOpenOrders (wd s)) s).
  assert (H1 : reliable s1) by (by apply reliable_called').
  set (s2 := setWorld (called CallListOpenOrders (wd s1)) s1).
  assert (H2 : reliable (Sleep (2 * Second) s2).2) by (by apply reliable_called').
  assert (Hty : cType (stopOrder a p None) <> OrderTypeMarket)
    by (rewrite stopOrder_type; discriminate).
  eexists _, (stopOrder a p None). split_and!; [|exact HL| |].
  - unfold Binary64.Part000.checkAndSetStopLoss, Binary64.Part000.resetStopLoss,
      mbind, Binary64.Fw_bind, Binary64.finite, Binary64.lift, mret, Binary64.Fw_ret.
    rewrite Ea, Ee, Ez, (ListOpenOrders_ok s H), Hb. cbn [Binary64.Part000.hasValidStopLoss].
    fold s1. unfold Part000.cancelAllTPSL.
    rewrite (cancelAllTPSL_joint_empty _ s1 H1 Hb). fold s2. rewrite Ep.
    unfold Sleep. cbv beta iota zeta.
    rewrite CreateOrderDo_ok by first [exact Hty | exact H2]. reflexivity.
  - simpl. by rewrite Hb.
  - simpl. apply last_snoc.
Qed.

Lemma stop_placed_part_001 (s : St) :
  reliable s -> book (wd s) = [] ->
  places (stopLeg position) (Binary64.Totals.checkAndSetStopLoss position) s.
Proof.
  intros H Hb.
  destruct (parsed_amount _ amt_lo amt_hi) as (a & Ea & Ez & Es & Ha).
  destruct (stopPrice_near _ a _ Es entry_hi) as (e & p & Ee & Ep & Hp).
  pose proof (stopOrder_is_stopLeg position a p Ea Es Hp) as HL.
  destruct (off_some 0 a) as [b Eb]; [vm_compute; discriminate|exact Ha|].
  set (s1 := setWorld (called CallListOpenOrders (wd s)) s).
  assert (H1 : reliable s1) by (by apply reliable_called').
  set (s2 := setWorld (called CallListOpenOrders (wd s1)) s1).
  assert (H2 : reliable s2) by (by apply reliable_called').
  assert (Hty : cType (stopOrder a p None) <> OrderTypeMarket)
    by (rewrite stopOrder_type; discriminate).
  unfold places, Binary64.Totals.checkAndSetStopLoss, Binary64.Totals.restoreStopLoss,
    mbind, Binary64.Fw_bind, Binary64.finite, Binary64.lift, mret, Binary64.Fw_ret.
  rewrite Ea, Ez, (ListOpenOrders_ok s H), Hb.
  cbn [Binary64.Totals.totalQty Totals.hasLeg existsb]. rewrite Eb. fold s1.
  destruct b.
  - unfold Totals.cancelAllTPSL. rewrite (cancelAllTPSL_joint_empty _ s1 H1 Hb). fold s2.
    unfold getTrader, putTrader, Sleep. cbv beta iota zeta. rewrite Ee, Ep.
    rewrite CreateOrderDo_ok by first [exact Hty | exact H2].
    eexists _, (stopOrder a p None). split_and!; [reflexivity|exact HL| |].
    + simpl. by rewrite Hb.
    + simpl. apply last_snoc.
  - rewrite Ee, Ep.
    rewrite CreateOrderDo_ok by first [exact Hty | exact H1].
    eexists _, (stopOrder a p None). split_and!; [reflexivity|exact HL| |].
    + simpl. by rewrite Hb.
    + simpl. apply last_snoc.
Qed.

Lemma profit_placed_part_001 (s : St) :
  reliable s -> book (wd s) = [] ->
  places (limitLeg position) (Binary64.Totals.checkAndSetTakeProfit position) s.
Proof.
  intros H Hb.
  destruct (parsed_amount _ amt_lo amt_hi) as (a & Ea & Ez & Es & Ha).
  destruct (takeProfitPrice_near _ a _ Es entry_hi) as (e & p & Ee & Ep & Hp).
  pose proof (profitOrder_is_limitLeg position a p Ea Es Hp) as HL.
  destruct (off_some 0 a) as [b Eb]; [vm_compute; discriminate|exact Ha|].
  set (s1 := setWorld (called CallListOpenOrders (wd s)) s).
  assert (H1 : reliable s1) by (by apply reliable_called').
  set (s2 := setWorld (called CallListOpenOrders (wd s1)) s1).
  assert (H2 : reliable s2) by (by apply reliable_called').
  assert (Hty : cType (profitOrder a p None) <> OrderTypeMarket)
    by (rewrite profitOrder_type; discriminate).
  unfold places, Binary64.Totals.checkAndSetTakeProfit, Binary64.Totals.restoreTakeProfit,
    mbind, Binary64.Fw_bind, Binary64.finite, Binary64.lift, mret, Binary64.Fw_ret.
  rewrite Ea, Ez, (ListOpenOrders_ok s H), Hb.
  cbn [Binary64.Totals.totalQty Totals.hasLeg existsb]. rewrite Eb. fold s1.
  destruct b.
  - unfold Totals.cancelAllTPSL. rewrite (cancelAllTPSL_joint_empty _ s1 H1 Hb). fold s2.
    unfold Sleep. cbv beta iota zeta. rewrite Ee, Ep.
    rewrite CreateOrderDo_ok by first [exact Hty | exact H2].
    eexists _, (profitOrder a p None). split_and!; [reflexivity|exact HL| |].
    + simpl. by rewrite Hb.
    + simpl. apply last_snoc.
  - rewrite Ee, Ep.
    rewrite CreateOrderDo_ok by first [exact Hty | exact H1].
    eexists _, (profitOrder a p None). split_and!; [reflexivity|exact HL| |].
    + simpl. by rewrite Hb.
    + simpl. apply last_snoc.
Qed.

End Placed.

(** ** The rounding of the specification and the rounding of the code *)

Lemma nearestInteger_half (x : Q) (n : Z) :
  nearestInteger x n <-> (Qabs (x - inject_Z n) <= 1 # 2)%Q.
Proof.
  split.
  - intros H. eapply Qle_trans; [apply (H (Round x))|].
    rewrite Qabs_Qminus. apply Round_near.
  - intros H m. destruct (Z.eq_dec m n) as [->|Hne]; [apply Qle_refl|].
    apply Qabs_Qle_condition in H. destruct H as [H1 H2].
    pose proof (Qle_Qabs (x - inject_Z m)) as Hp.
    pose proof (Qle_Qabs (- (x - inject_Z m))) as Hm. rewrite Qabs_opp in Hm.
    assert (Hd : (inject_Z m <= inject_Z n - 1 \/ inject_Z n + 1 <= inject_Z m)%Q).
    { destruct (Z_lt_le_dec m n) as [Hlt|Hge]; [left|right].
      - assert (E : (inject_Z n - 1 == inject_Z (n - 1))%Q).
        { unfold Z.sub. rewrite inject_Z_plus. reflexivity. }
        rewrite E, <- Zle_Qle. lia.
      - assert (E : (inject_Z n + 1 == inject_Z (n + 1))%Q).
        { rewrite inject_Z_plus. reflexivity. }
        rewrite E, <- Zle_Qle. lia. }
    set (a := Qabs (x - inject_Z m)) in *.
    set (zm := inject_Z m) in *. set (zn := inject_Z n) in *.
    apply Qabs_Qle_condition. destruct Hd; split; lra.
Qed.

(** Rounding to the tick as the specification words it is landing on a
    multiple of the tick within half a tick. *)
Lemma roundedToTick_half (x p : Q) : roundedToTick x p <-> nearTick 0 x p.
Proof.
  unfold roundedToTick, nearTick, tick. split.
  - intros (n & Hn & Hp). exists n. split; [exact Hp|].
    apply nearestInteger_half in Hn. rewrite Hp.
    apply Qabs_Qle_condition in Hn. apply Qabs_Qle_condition.
    assert (E : (x / (1 # 100) == x * 100)%Q) by field. rewrite E in Hn.
    set (z := inject_Z n) in *. split; lra.
  - intros (n & Hp & Hn). exists n. split; [|exact Hp].
    apply nearestInteger_half. rewrite Hp in Hn.
    apply Qabs_Qle_condition in Hn. apply Qabs_Qle_condition.
    assert (E : (x / (1 # 100) == x * 100)%Q) by field. rewrite E.
    set (z := inject_Z n) in *. split; lra.
Qed.

Lemma nearTick_slack (x p : Q) : roundedToTick x p -> nearTick slack x p.
Proof.
  intros H. apply roundedToTick_half in H. destruct H as (n & Hp & Hn).
  exists n. split; [exact Hp|]. unfold slack. set (a := Qabs (p - x)) in *.
  unfold tick in *. lra.
Qed.

(** C5 as stated fails next to a half-way point.  For the long of 1 entered
    at 100.00499999999999 and no resting order, [checkAndSetStopLoss] of
    part_000 places the stop at 99.01 and [checkAndSetTakeProfit] of part_001
    the limit at 102.01, although [entryPrice - 1] and [entryPrice + 2] lie
    below the half-way points 99.005 and 102.005 and round to 99.00 and
    102.00.  At the half-way points themselves the code goes either way:
    entered at 120.005 the stop is placed at 119.01, entered at 126.015 the
    take-profit at 128.01, where [Round(price/tick) * tick] in exact
    arithmetic is 128.02.  And a long entered at [10^17] has its stop at
    [10^17], the entry price itself: binary64 has no number between. *)
Lemma price_off_the_nearest_tick :
  let p := longAt (10000499999999999 # 100000000000000) in
  ((fun r => (r.1, StopPrice <$> book (wd r.2)))
     <$> Binary64.Part000.checkAndSetStopLoss p idle = Some (None, [9901 # 100]%Q)) /\
  ~ roundedToTick (EntryPrice p - 1) (9901 # 100) /\
  roundedToTick (EntryPrice p - 1) 99 /\
  ((fun r => (r.1, Price <$> book (wd r.2)))
     <$> Binary64.Totals.checkAndSetTakeProfit p idle = Some (None, [10201 # 100]%Q)) /\
  ~ roundedToTick (EntryPrice p + 2) (10201 # 100) /\
  roundedToTick (EntryPrice p + 2) 102 /\
  ((fun r => StopPrice <$> book (wd r.2))
     <$> Binary64.Part000.checkAndSetStopLoss (longAt (120005 # 1000)) idle
   = Some [11901 # 100]%Q) /\
  ((fun r => Price <$> book (wd r.2))
     <$> Binary64.Totals.checkAndSetTakeProfit (longAt (126015 # 1000)) idle
   = Some [12801 # 100]%Q) /\
  Sprintf2 (roundToTickSize ((126015 # 1000) + 2) tick) = 6401 # 50 /\
  ((fun r => StopPrice <$> book (wd r.2))
     <$> Binary64.Part000.checkAndSetStopLoss (longAt 100000000000000000) idle
   = Some [100000000000000000]%Q).
Proof.
  cbn zeta. split_and!.
  - vm_compute. reflexivity.
  - intros H. apply roundedToTick_half in H. destruct H as (n & _ & H).
    vm_compute in H. by apply H.
  - apply roundedToTick_half. exists 9900. split; [reflexivity|].
    vm_compute. discriminate.
  - vm_compute. reflexivity.
  - intros H. apply roundedToTick_half in H. destruct H as (n & _ & H).
    vm_compute in H. by apply H.
  - apply roundedToTick_half. exists 10200. split; [reflexivity|].
    vm_compute. discriminate.
  - vm_compute. reflexivity.
  - vm_compute. reflexivity.
  - vm_compute. reflexivity.
  - vm_compute. reflexivity.
Qed.

(** C5, as amended: the stop-loss request of [checkAndSetStopLoss]
    ([part_000], [part_001]) and the take-profit request of
    [checkAndSetTakeProfit] ([part_001]), in the binary64 arithmetic of the
    code, for a position of between [10^-9] and [10^9] units entered at a
    price up to [10^9].  Whatever the venue answers, on a book of at most a
    thousand orders of at most [10^9] units each method has an outcome and
    creates no order but its leg: a stop-market (a GTC limit) on the closing
    side, for [|amt|] with four decimals, at a multiple of the tick 0.01
    within half a tick and [10^-6] of [entryPrice - 1] for a long and
    [entryPrice + 1] for a short ([entryPrice + 2] and [entryPrice - 2] for
    the limit).  With no resting order and a venue that answers, the leg is
    sent and rests.  A price rounded as the specification words it is within
    these bounds.  For the long of 1.0000 at 100.00 and no resting order the
    venue receives and rests a stop-market sell of 1 at stop price 99 and a
    GTC limit sell of 1 at 102. *)
Theorem placed_prices_near_the_tick (position : PositionRisk) :
  (1 # 1000000000 <= Qabs (PositionAmt position))%Q ->
  (Qabs (PositionAmt position) <= 1000000000)%Q ->
  (Qabs (EntryPrice position) <= 1000000000)%Q ->
  (forall s, tame s ->
     runs (creates (stopLeg position)) (Binary64.Part000.checkAndSetStopLoss position) s /\
     runs (creates (stopLeg position)) (Binary64.Totals.checkAndSetStopLoss position) s /\
     runs (creates (limitLeg position))
       (Binary64.Totals.checkAndSetTakeProfit position) s) /\
  (forall s, reliable s -> book (wd s) = [] ->
     places (stopLeg position) (Binary64.Part000.checkAndSetStopLoss position) s /\
     places (stopLeg position) (Binary64.Totals.checkAndSetStopLoss position) s /\
     places (limitLeg position) (Binary64.Totals.checkAndSetTakeProfit position) s) /\
  (forall x p, roundedToTick x p -> nearTick slack x p) /\
  ((fun r => (r.1, book (wd r.2))) <$> Binary64.Part000.checkAndSetStopLoss long1 idle
   = Some (None,
           [ {| OrderID := 1; Side := SideTypeSell; Typ := OrderTypeStopMarket;
                OrigQuantity := 1; Price := 0; StopPrice := 99;
                ReduceOnly := true |} ])) /\
  ((fun r => (r.1, book (wd r.2))) <$> Binary64.Totals.checkAndSetStopLoss long1 idle
   = Some (None,
           [ {| OrderID := 1; Side := SideTypeSell; Typ := OrderTypeStopMarket;
                OrigQuantity := 1; Price := 0; StopPrice := 99;
                ReduceOnly := true |} ])) /\
  ((fun r => (r.1, book (wd r.2), last (trace (wd r.2))))
     <$> Binary64.Totals.checkAndSetTakeProfit long1 idle
   = Some (None,
           [ {| OrderID := 1; Side := SideTypeSell; Typ := OrderTypeLimit;
                OrigQuantity := 1; Price := 102; StopPrice := 0;
                ReduceOnly := true |} ],
           Some (CallCreateOrder
                   {| cSide := SideTypeSell; cPositionSide := Some PositionSideTypeLong;
                      cType := OrderTypeLimit; cTimeInForce := Some TimeInForceTypeGTC;
                      cQuantity := 1; cPrice := Some 102%Q; cStopPrice := None;
                      cWorkingType := None |}))).
Proof.
  intros Hlo Hhi He. split_and!.
  - intros s Hs. split_and!.
    + by apply stop_runs_part_000.
    + by apply stop_runs_part_001.
    + by apply profit_runs_part_001.
  - intros s Hr Hb. split_and!.
    + by apply stop_placed_part_000.
    + by apply stop_placed_part_001.
    + by apply profit_placed_part_001.
  - apply nearTick_slack.
  - vm_compute. reflexivity.
  - vm_compute. reflexivity.
  - vm_compute. reflexivity.
Qed.

Lemma placed_prices_near_the_tick_witness :
  (1 # 1000000000 <= Qabs (PositionAmt long1))%Q /\
  (Qabs (PositionAmt long1) <= 1000000000)%Q /\
  (Qabs (EntryPrice long1) <= 1000000000)%Q /\
  reliable idle /\
  places (stopLeg long1) (Binary64.Part000.checkAndSetStopLoss long1) idle /\
  places (limitLeg long1) (Binary64.Totals.checkAndSetTakeProfit long1) idle.
Proof.
  assert (Hlo : (1 # 1000000000 <= Qabs (PositionAmt long1))%Q) by (vm_compute; discriminate).
  assert (Hhi : (Qabs (PositionAmt long1) <= 1000000000)%Q) by (vm_compute; discriminate).
  assert (He : (Qabs (EntryPrice long1) <= 1000000000)%Q) by (vm_compute; discriminate).
  assert (Hr : reliable idle) by constructor.
  destruct (placed_prices_near_the_tick long1 Hlo Hhi He) as (_ & Hp & _).
  destruct (Hp idle Hr eq_refl) as (H0 & _ & H2).
  split; [exact Hlo|]. split; [exact Hhi|]. split; [exact He|]. split; [exact Hr|].
  split; [exact H0|exact H2].
Defined.

(** * Further properties *)

(** ** The cancel loops *)

Lemma forEach_ext {A : Type} (l : list A) (b1 b2 : A -> Gw unit) :
  (forall x s, b1 x s = b2 x s) -> forall s, forEach l b1 s = forEach l b2 s.
Proof.
  intros H. induction l as [|x l IH]; intros s; [done|].
  cbn [forEach]. unfold mbind, Gw_bind. rewrite H.
  destruct (b2 x s) as [u s1]. apply IH.
Qed.

Lemma cancelEach_as_joint (a : Q) (x : Order) (s : St) :
  TopUp.cancelEach a x s = cancelEach_joint (cancels a) x s.
Proof.
  unfold TopUp.cancelEach, cancelEach_joint, cancels.
  destruct (TopUp.isTPSL x); [|done]. by destruct (_ && _).
Qed.

(** The loop of [cancelAllTPSL] over the listed orders [l], whatever the
    venue answers. *)
Lemma cancel_loop (f : Order -> bool) (l : list Order) (s : St) :
  let s' := (forEach l (cancelEach_joint f) s).2 in
  tr s' = tr s /\
  nextID (wd s') = nextID (wd s) /\
  trace (wd s') = trace (wd s) ++ cancelCalls f l /\
  (forall o, o ∈ book (wd s') -> o ∈ book (wd s)) /\
  (forall o, o ∈ book (wd s) -> OrderID o ∉ pickedIds f l -> o ∈ book (wd s')) /\
  (reliable s ->
     reliable s' /\ forall o, o ∈ book (wd s') -> OrderID o ∉ pickedIds f l).
Proof.
  revert s. unfold cancelCalls, pickedIds.
  induction l as [|x l IH]; intros s; cbn zeta.
  { simpl. rewrite app_nil_r. repeat split; try done.
    intros o _. apply not_elem_of_nil. }
  cbn [forEach List.filter]. unfold mbind, Gw_bind.
  destruct (cancelEach_joint f x s) as [u s1] eqn:E1.
  specialize (IH s1). cbn zeta in IH.
  destruct (forEach l (cancelEach_joint f) s1) as [u' s2] eqn:E2.
  simpl in IH |- *.
  destruct IH as (Htr & Hid & Htrace & Hsub & Hkeep & Hrel).
  unfold cancelEach_joint in E1. destruct (f x) eqn:Ef.
  2:{ inversion E1; subst s1. by split_and!. }
  unfold mbind, Gw_bind, CancelOrder in E1.
  destruct (nextOutcome (wd s)) eqn:Eo; inversion E1; subst s1; clear E1; simpl in *.
  - split_and!; try done.
    + by rewrite Htrace, <- app_assoc.
    + intros o Ho. apply Hsub in Ho. apply list_elem_of_filter in Ho. tauto.
    + intros o Ho Hni. apply not_elem_of_cons in Hni as [Hne Hni].
      apply Hkeep; [|done]. apply list_elem_of_filter. split; [|done].
      intros Heq. by apply Hne.
    + intros Hr.
      destruct Hrel as [Hr2 Hgone];
        [by apply (reliable_called (CallCancelOrder (OrderID x)) s)|].
      split; [done|]. intros o Ho. apply not_elem_of_cons. split; [|by apply Hgone].
      apply Hsub in Ho. apply list_elem_of_filter in Ho as [Hne _]. done.
  - split_and!; try done.
    + by rewrite Htrace, <- app_assoc.
    + intros o Ho Hni. apply not_elem_of_cons in Hni as [Hne Hni]. by apply Hkeep.
    + intros Hr. apply reliable_next in Hr. congruence.
Qed.

Lemma cancelAllTPSL_joint_listed (f : Order -> bool) (s : St) :
  nextOutcome (wd s) = true ->
  let r := cancelAllTPSL_joint f s in
  r.1 = None /\
  tr r.2 = tr s /\
  nextID (wd r.2) = nextID (wd s) /\
  trace (wd r.2) = trace (wd s) ++ CallListOpenOrders :: cancelCalls f (book (wd s)) /\
  (forall o, o ∈ book (wd r.2) -> o ∈ book (wd s)) /\
  (forall o, o ∈ book (wd s) -> OrderID o ∉ pickedIds f (book (wd s)) -> o ∈ book (wd r.2)) /\
  (reliable s ->
     reliable r.2 /\
     forall o, o ∈ book (wd r.2) -> OrderID o ∉ pickedIds f (book (wd s))).
Proof.
  intros Hok. cbn zeta. unfold cancelAllTPSL_joint, mbind, Gw_bind, ListOpenOrders.
  rewrite Hok. set (s1 := setWorld _ s).
  pose proof (cancel_loop f (book (wd s)) s1) as H. cbn zeta in H.
  destruct (forEach (book (wd s)) (cancelEach_joint f) s1) as [u s2]. simpl in *.
  destruct H as (Htr & Hid & Htrace & Hsub & Hkeep & Hrel).
  split_and!; try done.
  - by rewrite Htrace, <- app_assoc.
  - intros Hr. apply Hrel. by apply reliable_called'.
Qed.

Lemma cancelAllTPSL_as_joint (a : Q) (s : St) :
  TopUp.cancelAllTPSL a s = cancelAllTPSL_joint (cancels a) s.
Proof.
  unfold TopUp.cancelAllTPSL, cancelAllTPSL_joint, mbind, Gw_bind.
  destruct (ListOpenOrders s) as [[e|orders] s1]; [done|].
  rewrite (forEach_ext orders (TopUp.cancelEach a) (cancelEach_joint (cancels a)));
    [done|]. apply cancelEach_as_joint.
Qed.



Lemma ids_injective (bk : list Order) :
  NoDup (OrderID <$> bk) ->
  forall o o', o ∈ bk -> o' ∈ bk -> OrderID o' = OrderID o -> o' = o.
Proof.
  intros Hnd o o' Ho Ho' Heq.
  apply list_elem_of_lookup in Ho as [i Hi]. apply list_elem_of_lookup in Ho' as [j Hj].
  assert (i = j) as ->; [|congruence].
  eapply NoDup_lookup; [exact Hnd| |]; rewrite list_lookup_fmap.
  - rewrite Hi. reflexivity.
  - rewrite Hj. simpl. by rewrite Heq.
Qed.

Lemma picked_id (f : Order -> bool) (bk : list Order) (o : Order) :
  NoDup (OrderID <$> bk) -> o ∈ bk ->
  (OrderID o ∈ pickedIds f bk <-> f o = true).
Proof.
  intros Hnd Ho. unfold pickedIds. rewrite list_elem_of_fmap. split.
  - intros (x & Hid & Hx). apply list_elem_of_In, filter_In in Hx as [Hx Hf].
    apply list_elem_of_In in Hx.
    by rewrite <- (ids_injective bk Hnd o x Ho Hx (eq_sym Hid)).
  - intros Hf. exists o. split; [done|].
    apply list_elem_of_In, filter_In. split; [by apply list_elem_of_In|done].
Qed.

Lemma cancelAllTPSL_joint_clears (f : Order -> bool) (s : St) :
  reliable s -> NoDup (OrderID <$> book (wd s)) ->
  forall o, o ∈ book (wd (cancelAllTPSL_joint f s).2) <-> o ∈ book (wd s) /\ f o = false.
Proof.
  intros Hr Hnd o.
  destruct (cancelAllTPSL_joint_listed f s (reliable_next s Hr))
    as (_ & _ & _ & _ & Hsub & Hkeep & Hrel).
  destruct (Hrel Hr) as [_ Hgone]. split.
  - intros Ho. pose proof (Hsub o Ho) as Hin. split; [done|].
    destruct (f o) eqn:Ef; [|done]. exfalso. apply (Hgone o Ho).
    by apply picked_id.
  - intros [Ho Hf]. apply Hkeep; [done|]. intros Hin.
    apply picked_id in Hin; [congruence|done|done].
Qed.



(** ** A flat position *)

Lemma joint_cancel_notCreate (f : Order -> bool) : issues notCreate (cancelAllTPSL_joint f).
Proof. unfold cancelAllTPSL_joint, cancelEach_joint. issues_walk; exact I. Qed.

Lemma topup_cancel_notCreate (a : Q) : issues notCreate (TopUp.cancelAllTPSL a).
Proof. unfold TopUp.cancelAllTPSL, TopUp.cancelEach. issues_walk; exact I. Qed.

Lemma flat_pass_notCreate (q : PositionRisk) :
  (PositionAmt q == 0)%Q ->
  issues notCreate (Part002.checkProtectiveStopProfit q) /\
  issues notCreate (TopUp.checkProtectiveStopProfit q).
Proof.
  intros Hz. apply Qeq_bool_iff in Hz.
  unfold Part002.checkProtectiveStopProfit, checkProtectiveStopProfit_joint,
    TopUp.checkProtectiveStopProfit.
  rewrite Hz. split.
  - repeat first [ apply joint_cancel_notCreate | issues_step ].
  - repeat first [ apply topup_cancel_notCreate | issues_step ].
Qed.

(** X3: a position whose amount is zero.  The loops of [part_000] and
    [part_001] skip it: nothing is sent and the state is as before, so legs
    still resting stay.  [checkProtectiveStopProfit] of [part_002] and
    [part_003] creates no order whatever the venue answers; on a venue that
    answers every call and a book of distinct ids it returns nil and leaves
    resting exactly the orders that are neither reduce-only limit nor
    stop-market orders. *)
Theorem flat_position_is_cleaned_or_skipped (q : PositionRisk) (s : St) :
  (PositionAmt q == 0)%Q ->
  let cleaned (r : option error * St) :=
    (exists cs, trace (wd r.2) = trace (wd s) ++ cs /\ Forall notCreate cs) /\
    (reliable s -> NoDup (OrderID <$> book (wd s)) ->
       r.1 = None /\
       forall o, o ∈ book (wd r.2)
                 <-> o ∈ book (wd s) /\ (isLimit o && ReduceOnly o) || isStopMarket o = false) in
  Part000.visit q s = (tt, s) /\
  Totals.visit q s = (tt, s) /\
  cleaned (Part002.checkProtectiveStopProfit q s) /\
  cleaned (TopUp.checkProtectiveStopProfit q s).
Proof.
  intros Hz. cbn zeta.
  destruct (flat_pass_notCreate q Hz) as [I2 I3].
  apply Qeq_bool_iff in Hz.
  split_and!.
  - unfold Part000.visit. rewrite Hz. by rewrite andb_false_r.
  - unfold Totals.visit. rewrite Hz. by rewrite andb_false_r.
  - apply I2.
  - intros Hr Hnd.
    unfold Part002.checkProtectiveStopProfit, checkProtectiveStopProfit_joint.
    rewrite Hz. unfold mbind, Gw_bind, getTrader, putTrader. simpl.
    set (s1 := setTrader _ s).
    assert (Hr1 : reliable s1) by exact Hr.
    destruct (cancelAllTPSL_joint_listed Part002.isTPSL s1 (reliable_next s1 Hr1))
      as (Hres & _).
    pose proof (cancelAllTPSL_joint_clears Part002.isTPSL s1 Hr1 Hnd) as Hclr.
    destruct (cancelAllTPSL_joint Part002.isTPSL s1) as [e s2]. simpl in *. subst e.
    split; [done|]. exact Hclr.
  - apply I3.
  - intros Hr Hnd.
    unfold TopUp.checkProtectiveStopProfit.
    rewrite Hz. unfold mbind, Gw_bind, getTrader, putTrader. simpl.
    set (s1 := setTrader _ s).
    assert (Hr1 : reliable s1) by exact Hr.
    rewrite cancelAllTPSL_as_joint.
    destruct (cancelAllTPSL_joint_listed (cancels 0) s1 (reliable_next s1 Hr1))
      as (Hres & _).
    pose proof (cancelAllTPSL_joint_clears (cancels 0) s1 Hr1 Hnd) as Hclr.
    destruct (cancelAllTPSL_joint (cancels 0) s1) as [e s2]. simpl in *. subst e.
    split; [done|]. intros o. rewrite (Hclr o).
    unfold cancels, TopUp.isTPSL. simpl. by rewrite andb_true_r.
Qed.

Lemma flat_position_is_cleaned_or_skipped_witness :
  let s := {| tr := noMaps; wd := venue mixedBook [] [] |} in
  (PositionAmt (flat SOLUSDC) == 0)%Q /\
  Totals.visit (flat SOLUSDC) s = (tt, s) /\
  (exists cs, trace (wd (TopUp.checkProtectiveStopProfit (flat SOLUSDC) s).2)
              = trace (wd s) ++ cs /\ Forall notCreate cs).
Proof.
  assert (Hz : (PositionAmt (flat SOLUSDC) == 0)%Q) by reflexivity.
  destruct (flat_position_is_cleaned_or_skipped (flat SOLUSDC)
              {| tr := noMaps; wd := venue mixedBook [] [] |} Hz)
    as (_ & Ht & _ & (Hc & _)).
  split; [exact Hz|]. split; [exact Ht|exact Hc].
Defined.

(** ** A failed listing of the orders *)

(** X4: when the venue fails the listing of the open orders, every
    reconciling method called for a position that is not flat returns the
    listing error at once: the failed call is all that has happened, nothing
    is cancelled or created and the trader's maps are as before. *)
Theorem failed_listing_stops_the_pass (position : PositionRisk) (s : St) :
  ~ (PositionAmt position == 0)%Q ->
  nextOutcome (wd s) = false ->
  let stopped := (Some ErrListOrders, setWorld (called CallListOpenOrders (wd s)) s) in
  Part000.checkProtectiveStopProfit position s = stopped /\
  Part000.checkAndSetStopLoss position s = stopped /\
  Totals.checkAndSetTakeProfit position s = stopped /\
  Totals.checkAndSetStopLoss position s = stopped /\
  Part002.checkProtectiveStopProfit position s = stopped /\
  Part002.checkAndSetStopLoss position s = stopped /\
  TopUp.checkProtectiveStopProfit position s = stopped /\
  TopUp.checkAndSetStopLoss position s = stopped.
Proof.
  intros Hnz Hfail. cbn zeta.
  unfold Part000.checkProtectiveStopProfit, Part000.checkAndSetStopLoss,
    Part002.checkProtectiveStopProfit, Part002.checkAndSetStopLoss,
    checkProtectiveStopProfit_joint, checkAndSetStopLoss_joint,
    Totals.checkAndSetTakeProfit, Totals.checkAndSetStopLoss,
    TopUp.checkProtectiveStopProfit, TopUp.checkAndSetStopLoss.
  rewrite (Qeq_bool_false _ _ Hnz).
  unfold mbind, Gw_bind, ListOpenOrders. rewrite Hfail. by split_and!.
Qed.

Lemma failed_listing_stops_the_pass_witness :
  let s := {| tr := noMaps; wd := venue mixedBook [] [false] |} in
  ~ (PositionAmt long1 == 0)%Q /\ nextOutcome (wd s) = false /\
  TopUp.checkProtectiveStopProfit long1 s
  = (Some ErrListOrders, setWorld (called CallListOpenOrders (wd s)) s).
Proof.
  set (s := {| tr := noMaps; wd := venue mixedBook [] [false] |}).
  assert (Hnz : ~ (PositionAmt long1 == 0)%Q) by (intros H; discriminate H).
  assert (Hf : nextOutcome (wd s) = false) by reflexivity.
  split; [exact Hnz|]. split; [exact Hf|].
  exact (proj1 (proj2 (proj2 (proj2 (proj2 (proj2 (proj2
           (failed_listing_stops_the_pass long1 s Hnz Hf)))))))).
Defined.

(** ** The loops *)

Lemma forEach_skip {A : Type} (l : list A) (body : A -> Gw unit) (s : St) :
  (forall x, x ∈ l -> body x s = (tt, s)) -> forEach l body s = (tt, s).
Proof.
  induction l as [|x l IH]; intros H; [done|].
  cbn [forEach]. unfold mbind, Gw_bind. rewrite (H x) by apply list_elem_of_here.
  apply IH. intros y Hy. apply H. by apply list_elem_of_further.
Qed.

(** X5: a failed fetch of the positions ends the turn of every loop: the
    failed call is the only one made, no order is listed, cancelled or
    created, the book and the trader's maps (the cache among them) are as
    before; [part_002] and [part_003] then wait five seconds. *)
Theorem failed_fetch_ends_the_turn (s : St) :
  nextOutcome (wd s) = false ->
  let idleTurn (r : unit * St) :=
    tr r.2 = tr s /\ book (wd r.2) = book (wd s) /\
    trace (wd r.2) = trace (wd s) ++ [CallGetPositionRisk] in
  idleTurn (run_part_000 s) /\
  idleTurn (run_part_001 s) /\
  (idleTurn (run_part_002 s) /\ clock (wd (run_part_002 s).2) = clock (wd s) + 5 * Second) /\
  (cached SOLUSDC (tr s) (clock (wd s)) = None ->
   idleTurn (TopUp.runOnce s) /\
   clock (wd (TopUp.runOnce s).2) = clock (wd s) + 5 * Second).
Proof.
  intros Hfail. cbn zeta.
  unfold run_part_000, run_part_001, run_part_002, TopUp.runOnce,
    mbind, Gw_bind, getTrader, now, GetPositionRisk.
  rewrite Hfail. simpl. split_and!; try done.
  intros ->. simpl. rewrite Hfail. done.
Qed.

Lemma failed_fetch_ends_the_turn_witness :
  let s := {| tr := noMaps; wd := venue mixedBook [long1] [false] |} in
  nextOutcome (wd s) = false /\ cached SOLUSDC (tr s) (clock (wd s)) = None /\
  book (wd (TopUp.runOnce s).2) = mixedBook /\
  trace (wd (TopUp.runOnce s).2) = [CallGetPositionRisk].
Proof.
  set (s := {| tr := noMaps; wd := venue mixedBook [long1] [false] |}).
  assert (Hf : nextOutcome (wd s) = false) by reflexivity.
  assert (Hc : cached SOLUSDC (tr s) (clock (wd s)) = None) by reflexivity.
  destruct (failed_fetch_ends_the_turn s Hf) as (_ & _ & _ & H3).
  destruct (H3 Hc) as ((_ & Hb & Ht) & _).
  split; [exact Hf|]. split; [exact Hc|]. split; [exact Hb|exact Ht].
Defined.

(** X6: the loops of [part_000], [part_001] and [part_002] act on entries
    of the symbol SOLUSDC only: when the listing the venue returns has no
    entry of that symbol, the fetch is the only call of the turn, and the
    book and the trader's maps are as before (no clean-up is run). *)
Theorem other_symbols_are_passed_over (s : St) :
  nextOutcome (wd s) = true ->
  (forall p, p ∈ listing (wd s) -> Symbol p <> SOLUSDC) ->
  let fetched := setWorld (called CallGetPositionRisk (wd s)) s in
  run_part_000 s = (tt, fetched) /\
  run_part_001 s = (tt, fetched) /\
  (run_part_002 s).2 = (Sleep Second fetched).2.
Proof.
  intros Hok Hnone. cbn zeta.
  unfold run_part_000, run_part_001, run_part_002, mbind, Gw_bind, GetPositionRisk.
  rewrite Hok. split_and!.
  - apply forEach_skip. intros p Hp. unfold Part000.visit.
    by rewrite (bool_decide_eq_false_2 _ (Hnone p Hp)).
  - apply forEach_skip. intros p Hp. unfold Totals.visit.
    by rewrite (bool_decide_eq_false_2 _ (Hnone p Hp)).
  - rewrite forEach_skip; [done|]. intros p Hp. unfold Part002.visit.
    by rewrite (bool_decide_eq_false_2 _ (Hnone p Hp)).
Qed.

Lemma other_symbols_are_passed_over_witness :
  let s := {| tr := noMaps; wd := venue mixedBook [btc] [] |} in
  nextOutcome (wd s) = true /\
  (forall p, p ∈ listing (wd s) -> Symbol p <> SOLUSDC) /\
  run_part_001 s = (tt, setWorld (called CallGetPositionRisk (wd s)) s).
Proof.
  set (s := {| tr := noMaps; wd := venue mixedBook [btc] [] |}).
  assert (Hok : nextOutcome (wd s) = true) by reflexivity.
  assert (Hn : forall p, p ∈ listing (wd s) -> Symbol p <> SOLUSDC).
  { intros p Hp. apply list_elem_of_singleton in Hp as ->. discriminate. }
  split; [exact Hok|]. split; [exact Hn|].
  exact (proj1 (proj2 (other_symbols_are_passed_over s Hok Hn))).
Defined.

(** ** The remembered position in the loop of [part_003] *)

Lemma no_move (c x : Q) : (0 < c)%Q -> Qltb c (Qabs (x - x)) = false.
Proof.
  intros Hc. apply Qltb_ge. apply Qabs_Qle_condition. split; lra.
Qed.

(** When the position passed is the one remembered, nothing is cancelled and
    the orders listed are kept. *)
Lemma relist_same (p : PositionRisk) (orders : list Order) (s : St) :
  lastPosition (tr s) !! SOLUSDC = Some p ->
  TopUp.relist (PositionAmt p) (EntryPrice p) orders s = (inr orders, s).
Proof.
  intros H. unfold TopUp.relist, mbind, Gw_bind, getTrader. rewrite H.
  assert (E1 : Qltb (1 # 10000)
                 (Qabs (default 0%Q (PositionAmt <$> Some p) - PositionAmt p)) = false)
    by exact (no_move (1 # 10000) (PositionAmt p) eq_refl).
  assert (E2 : Qltb (1 # 100)
                 (Qabs (default 0%Q (EntryPrice <$> Some p) - EntryPrice p)) = false)
    by exact (no_move (1 # 100) (EntryPrice p) eq_refl).
  by rewrite E1, E2.
Qed.

Lemma placing_notCancel (position : PositionRisk) (orders : list Order) :
  issues notCancel
    (let '(hasValidStopLoss, hasValidTakeProfit) :=
       scanValid (PositionAmt position) orders in
     e ← TopUp.placeMissing (PositionAmt position) (EntryPrice position)
           hasValidStopLoss hasValidTakeProfit;
     match e with
     | Some err => mret (Some err)
     | None => trackAndClose position
     end).
Proof. unfold TopUp.placeMissing, trackAndClose. issues_walk; exact I. Qed.

Lemma pass_no_cancel (p : PositionRisk) (s : St) :
  lastPosition (tr s) !! SOLUSDC = Some p ->
  ~ (PositionAmt p == 0)%Q ->
  exists cs, trace (wd (TopUp.checkProtectiveStopProfit p s).2) = trace (wd s) ++ cs
             /\ Forall notCancel cs.
Proof.
  intros Hlast Hnz. unfold TopUp.checkProtectiveStopProfit.
  rewrite (Qeq_bool_false _ _ Hnz).
  unfold mbind at 1, Gw_bind at 1, ListOpenOrders.
  destruct (nextOutcome (wd s)).
  2:{ exists [CallListOpenOrders]. split; [done|]. by repeat constructor. }
  set (s1 := setWorld _ s).
  rewrite (run_bind _ _ _ _ _ (relist_same p (book (wd s)) s1 Hlast)).
  destruct (placing_notCancel p (book (wd s)) s1) as (cs & E & F).
  exists (CallListOpenOrders :: cs). split.
  - rewrite E. simpl. by rewrite <- app_assoc.
  - by constructor.
Qed.

(** X7: in a turn of the loop of [part_003] the position checked is the one
    the loop has just remembered, so the test for a changed amount or entry
    price never fires: for a position that is not flat, taken from the fresh
    cache or fetched, the turn sends no cancel at all, whatever orders are
    resting. *)
Theorem loop_never_cancels_for_an_open_position (s : St) (p : PositionRisk) :
  ~ (PositionAmt p == 0)%Q ->
  cached SOLUSDC (tr s) (clock (wd s)) = Some p
  \/ (cached SOLUSDC (tr s) (clock (wd s)) = None /\ nextOutcome (wd s) = true /\
      List.find (fun p => negb (Qeq_bool (PositionAmt p) 0)
                          && bool_decide (Symbol p = SOLUSDC)) (listing (wd s)) = Some p) ->
  exists cs, trace (wd (TopUp.runOnce s).2) = trace (wd s) ++ cs /\ Forall notCancel cs.
Proof.
  intros Hnz [Hhit|(Hmiss & Hok & Hfind)].
  - unfold TopUp.runOnce, mbind at 1, Gw_bind at 1, getTrader.
    unfold mbind at 1, Gw_bind at 1, now. rewrite Hhit.
    unfold mbind at 1, Gw_bind at 1, mret at 1, Gw_ret at 1.
    assert (Hlast : lastPosition (tr s) !! SOLUSDC = Some p).
    { unfold cached in Hhit. destruct (lastPosition (tr s) !! SOLUSDC); [|done].
      destruct (lastUpdate (tr s) !! SOLUSDC); [|done].
      by destruct (_ <? _). }
    destruct (pass_no_cancel p s Hlast Hnz) as (cs & E & F).
    exists cs. split; [|done].
    unfold mbind, Gw_bind. destruct (TopUp.checkProtectiveStopProfit p s). exact E.
  - unfold TopUp.runOnce, mbind at 1, Gw_bind at 1, getTrader.
    unfold mbind at 1, Gw_bind at 1, now. rewrite Hmiss.
    unfold mbind, Gw_bind, GetPositionRisk. cbv beta zeta. rewrite Hok, Hfind.
    unfold getTrader, now, putTrader, mret, Gw_ret. cbv beta iota zeta.
    cbn [default from_option]. unfold id.
    set (s1 := setTrader _ _).
    assert (Hlast : lastPosition (tr s1) !! SOLUSDC = Some p) by apply lookup_insert_eq.
    destruct (pass_no_cancel p s1 Hlast Hnz) as (cs & E & F).
    exists (CallGetPositionRisk :: cs). split; [|by constructor].
    destruct (TopUp.checkProtectiveStopProfit p s1). simpl in *.
    by rewrite E, <- app_assoc.
Qed.

Lemma loop_never_cancels_for_an_open_position_witness :
  let s := {| tr := noMaps; wd := venue mixedBook [long1] [] |} in
  ~ (PositionAmt long1 == 0)%Q /\
  exists cs, trace (wd (TopUp.runOnce s).2) = trace (wd s) ++ cs /\ Forall notCancel cs.
Proof.
  assert (Hnz : ~ (PositionAmt long1 == 0)%Q) by (intros H; discriminate H).
  split; [exact Hnz|].
  apply (loop_never_cancels_for_an_open_position
           {| tr := noMaps; wd := venue mixedBook [long1] [] |} long1 Hnz).
  right. repeat split.
Defined.

(** The stale legs of [mixedBook] stay beside the new ones after the turn. *)
Lemma stale_legs_stay_in_the_loop :
  let s := {| tr := noMaps; wd := venue mixedBook [long1] [] |} in
  OrderID <$> book (wd (TopUp.runOnce s).2) = [1; 2; 3; 4; 5] /\
  OrigQuantity <$> book (wd (TopUp.runOnce s).2) = [3; 3; 5; 1; 1]%Q.
Proof. vm_compute. repeat split. Qed.

(** ** A second pass of [part_003] *)

Lemma cancel_loop_idle (f : Order -> bool) (l : list Order) (s : St) :
  (forall o, o ∈ l -> f o = false) -> forEach l (cancelEach_joint f) s = (tt, s).
Proof.
  intros H. apply forEach_skip. intros o Ho. unfold cancelEach_joint.
  by rewrite (H o Ho).
Qed.

Lemma relist_shape (amt entryPrice : Q) (s : St) :
  ~ (amt == 0)%Q -> reliable s ->
  exists s', TopUp.relist amt entryPrice (book (wd s)) s = (inr (book (wd s')), s') /\
             reliable s' /\ tr s' = tr s /\
             (moved (tr s) amt entryPrice = true ->
              forall o, o ∈ book (wd s') -> cancels amt o = false).
Proof.
  intros Hnz H. unfold TopUp.relist, mbind at 1, Gw_bind at 1, getTrader.
  change (Qltb _ _ || Qltb _ _) with (moved (tr s) amt entryPrice).
  destruct (moved (tr s) amt entryPrice).
  - unfold mbind at 1, Gw_bind at 1. rewrite cancelAllTPSL_as_joint.
    destruct (cancelAllTPSL_joint_listed (cancels amt) s (reliable_next s H))
      as (Hres & Htr & _ & _ & Hsub & _ & Hrel).
    destruct (Hrel H) as [H1 Hgone].
    destruct (cancelAllTPSL_joint (cancels amt) s) as [e s1] eqn:E1. simpl in *. subst e.
    unfold mbind at 1, Gw_bind at 1, Sleep.
    set (s2 := setWorld _ s1).
    assert (H2 : reliable s2) by exact H1.
    rewrite (run_bind _ _ _ _ _ (ListOpenOrders_ok s2 H2)).
    exists (setWorld (called CallListOpenOrders (wd s2)) s2).
    split; [reflexivity|]. split_and!; try done.
    + by apply reliable_called'.
    + intros _ o Ho. destruct (cancels amt o) eqn:Ec; [|done]. exfalso.
      apply (Hgone o Ho). unfold pickedIds. apply list_elem_of_fmap.
      exists o. split; [done|]. apply list_elem_of_In, filter_In.
      split; [|done]. apply list_elem_of_In. by apply Hsub.
  - exists s. by split_and!.
Qed.

Lemma trackAndClose_reliable (position : PositionRisk) (s : St) :
  reliable s ->
  reliable (trackAndClose position s).2 /\
  lastPosition (tr (trackAndClose position s).2) = lastPosition (tr s).
Proof.
  intros H. unfold trackAndClose, mbind, Gw_bind, getTrader, putTrader, mret, Gw_ret,
    CreateOrderDo.
  rewrite marketOrder_type.
  destruct (_ || _); simpl; destruct (drawdown _ _); simpl;
    rewrite ?(reliable_next _ H); simpl; split; try done;
    by apply (reliable_called' (CallCreateOrder (marketOrder (PositionAmt position))) s).
Qed.

Lemma newLegs_not_cancelled (amt entryPrice : Q) (n : Z) (sl tp : bool) (o : Order) :
  ~ (amt == 0)%Q -> o ∈ newLegs amt entryPrice n sl tp -> cancels amt o = false.
Proof.
  intros Hnz Ho. unfold cancels. rewrite (Qeq_bool_false _ _ Hnz). simpl.
  unfold newLegs in Ho. apply elem_of_app in Ho as [Ho|Ho].
  - destruct sl; [by apply elem_of_nil in Ho|].
    apply list_elem_of_singleton in Ho as ->.
    destruct (rest_stop_matches n amt (below amt entryPrice 1)
                (Some WorkingTypeContractPrice)) as (_ & _ & ->).
    by rewrite andb_false_r.
  - destruct tp; [by apply elem_of_nil in Ho|].
    apply list_elem_of_singleton in Ho as ->.
    destruct (rest_profit_matches (if sl then n else n + 1) amt (above amt entryPrice 2)
                (Some WorkingTypeContractPrice)) as (_ & _ & ->).
    by rewrite andb_false_r.
Qed.

Lemma scan_after_placing (amt entryPrice : Q) (n : Z) (bk : list Order) :
  let sl := existsb (fun o => qtyMatches (OrigQuantity o) amt && isStopMarket o) bk in
  let tp := existsb (fun o => qtyMatches (OrigQuantity o) amt && isLimit o) bk in
  scanValid amt (bk ++ newLegs amt entryPrice n sl tp) = (true, true).
Proof.
  cbn zeta. rewrite scanValid_spec, !existsb_app. unfold newLegs.
  destruct (rest_stop_matches n amt (below amt entryPrice 1)
              (Some WorkingTypeContractPrice)) as (S1 & S2 & S3).
  f_equal.
  - destruct (existsb _ bk) eqn:E1; [done|]. cbn [existsb app orb].
    by rewrite S1, S3.
  - destruct (existsb (fun o => qtyMatches (OrigQuantity o) amt && isLimit o) bk) eqn:E2;
      [done|].
    set (k := if existsb _ bk then n else (n + 1)%Z).
    destruct (rest_profit_matches k amt (above amt entryPrice 2)
                (Some WorkingTypeContractPrice)) as (P1 & P2 & P3).
    rewrite existsb_app. cbn [existsb app orb]. rewrite P1, P3.
    cbn [andb orb]. by rewrite !orb_true_r.
Qed.

(** The state a pass leaves on a venue that answers every call. *)
Lemma pass_result (position : PositionRisk) (s : St) :
  ~ (PositionAmt position == 0)%Q ->
  reliable s ->
  let s1 := (TopUp.checkProtectiveStopProfit position s).2 in
  reliable s1 /\
  lastPosition (tr s1) = lastPosition (tr s) /\
  scanValid (PositionAmt position) (book (wd s1)) = (true, true) /\
  (moved (tr s) (PositionAmt position) (EntryPrice position) = true ->
   forall o, o ∈ book (wd s1) -> cancels (PositionAmt position) o = false).
Proof.
  intros Hnz H. cbn zeta. unfold TopUp.checkProtectiveStopProfit.
  rewrite (Qeq_bool_false _ _ Hnz).
  rewrite (run_bind _ _ _ _ _ (ListOpenOrders_ok s H)).
  set (s1 := setWorld _ s).
  assert (H1 : reliable s1) by (by apply reliable_called').
  destruct (relist_shape (PositionAmt position) (EntryPrice position) s1 Hnz H1)
    as (s2 & E2 & H2 & Ht2 & Hclean).
  change (book (wd s1)) with (book (wd s)) in E2.
  change (tr s1) with (tr s) in Ht2, Hclean.
  rewrite (run_bind _ _ _ _ _ E2), scanValid_spec.
  set (sl := existsb _ (book (wd s2))). set (tp := existsb _ (book (wd s2))).
  destruct (placeMissing_ok (PositionAmt position) (EntryPrice position) sl tp s2 H2)
    as (s3 & E3 & H3 & Ht3 & Hb3).
  rewrite (run_bind _ _ _ _ _ E3).
  destruct (trackAndClose_ok position s3 H3) as (_ & Hbook).
  destruct (trackAndClose_reliable position s3 H3) as (Hr & Hlast).
  rewrite Hbook, Hb3, Hlast, Ht3, Ht2. split_and!; try done.
  - apply scan_after_placing.
  - intros Hm o Ho. apply elem_of_app in Ho as [Ho|Ho].
    + by apply Hclean.
    + by apply (newLegs_not_cancelled _ _ _ _ _ _ Hnz Ho).
Qed.

Lemma placeMissing_nothing (amt entryPrice : Q) (s : St) :
  TopUp.placeMissing amt entryPrice true true s = (None, s).
Proof. reflexivity. Qed.

Lemma trackAndClose_sends (position : PositionRisk) :
  issues (listOrClose (PositionAmt position)) (trackAndClose position).
Proof. unfold trackAndClose. issues_walk. by right. Qed.

(** A pass over a book that holds both legs and nothing to cancel. *)
Lemma idle_pass (position : PositionRisk) (s : St) :
  ~ (PositionAmt position == 0)%Q ->
  reliable s ->
  scanValid (PositionAmt position) (book (wd s)) = (true, true) ->
  (moved (tr s) (PositionAmt position) (EntryPrice position) = true ->
   forall o, o ∈ book (wd s) -> cancels (PositionAmt position) o = false) ->
  let r := TopUp.checkProtectiveStopProfit position s in
  r.1 = None /\
  book (wd r.2) = book (wd s) /\
  exists cs, trace (wd r.2) = trace (wd s) ++ cs
             /\ Forall (listOrClose (PositionAmt position)) cs.
Proof.
  intros Hnz H Hscan Hclean. cbn zeta. unfold TopUp.checkProtectiveStopProfit.
  rewrite (Qeq_bool_false _ _ Hnz).
  rewrite (run_bind _ _ _ _ _ (ListOpenOrders_ok s H)).
  set (s1 := setWorld _ s).
  assert (H1 : reliable s1) by (by apply reliable_called').
  assert (Hrelist : exists s2,
             TopUp.relist (PositionAmt position) (EntryPrice position) (book (wd s)) s1
             = (inr (book (wd s)), s2) /\ reliable s2 /\ book (wd s2) = book (wd s) /\
             exists cs, trace (wd s2) = trace (wd s) ++ cs
                        /\ Forall (listOrClose (PositionAmt position)) cs).
  { unfold TopUp.relist, mbind at 1, Gw_bind at 1, getTrader.
    change (Qltb _ _ || Qltb _ _)
      with (moved (tr s) (PositionAmt position) (EntryPrice position)).
    destruct (moved _ _ _) eqn:Em.
    - unfold mbind at 1, Gw_bind at 1.
      rewrite cancelAllTPSL_as_joint. unfold cancelAllTPSL_joint at 1.
      rewrite (run_bind _ _ _ _ _ (ListOpenOrders_ok s1 H1)).
      set (s1' := setWorld _ s1).
      unfold mbind at 1, Gw_bind at 1.
      rewrite (cancel_loop_idle _ (book (wd s1)) s1') by (by apply Hclean).
      unfold mret at 1, Gw_ret at 1. cbv beta iota.
      unfold mbind at 1, Gw_bind at 1, Sleep.
      set (s2 := setWorld _ s1').
      assert (H2 : reliable s2) by (by apply reliable_called', reliable_called').
      rewrite (run_bind _ _ _ _ _ (ListOpenOrders_ok s2 H2)).
      eexists. split; [reflexivity|]. split_and!.
      + by apply reliable_called'.
      + reflexivity.
      + exists [CallListOpenOrders; CallListOpenOrders; CallListOpenOrders]. split.
        * simpl. by rewrite <- !app_assoc.
        * repeat constructor; by left.
    - exists s1. split; [reflexivity|]. split_and!; try done.
      exists [CallListOpenOrders]. split; [done|]. repeat constructor; by left. }
  destruct Hrelist as (s2 & E2 & H2 & Hb2 & cs2 & Ht2 & F2).
  rewrite (run_bind _ _ _ _ _ E2), Hscan.
  rewrite (run_bind _ _ _ _ _
             (placeMissing_nothing (PositionAmt position) (EntryPrice position) s2)).
  destruct (trackAndClose_ok position s2 H2) as (Hres & Hbook).
  destruct (trackAndClose_sends position s2) as (cs3 & Ht3 & F3).
  split_and!.
  - exact Hres.
  - by rewrite Hbook.
  - exists (cs2 ++ cs3). split.
    + by rewrite Ht3, Ht2, app_assoc.
    + by apply Forall_app.
Qed.

(** X8: a pass of [checkProtectiveStopProfit] of [part_003] run again right
    after a pass, for the same position that is not flat and on a venue that
    answers every call, changes no resting order: it returns nil, the book is
    the one the first pass left, and all it sends are listings of the orders
    and, when the drawdown test holds, the market order of the protective
    close; no cancel and no stop or limit order. *)
Theorem second_pass_is_idle (position : PositionRisk) (s : St) :
  ~ (PositionAmt position == 0)%Q ->
  reliable s ->
  let s1 := (TopUp.checkProtectiveStopProfit position s).2 in
  let r := TopUp.checkProtectiveStopProfit position s1 in
  r.1 = None /\
  book (wd r.2) = book (wd s1) /\
  exists cs, trace (wd r.2) = trace (wd s1) ++ cs
             /\ Forall (listOrClose (PositionAmt position)) cs.
Proof.
  intros Hnz H. cbn zeta.
  destruct (pass_result position s Hnz H) as (H1 & Hlast & Hscan & Hclean).
  apply idle_pass; try done.
  intros Hm. apply Hclean. unfold moved in *. by rewrite <- Hlast.
Qed.

Lemma second_pass_is_idle_witness :
  let s := {| tr := noMaps; wd := venue mixedBook [] [] |} in
  let s1 := (TopUp.checkProtectiveStopProfit long1 s).2 in
  ~ (PositionAmt long1 == 0)%Q /\ reliable s /\
  book (wd (TopUp.checkProtectiveStopProfit long1 s1).2) = book (wd s1).
Proof.
  set (s := {| tr := noMaps; wd := venue mixedBook [] [] |}).
  assert (Hnz : ~ (PositionAmt long1 == 0)%Q) by (intros H; discriminate H).
  assert (Hr : reliable s) by constructor.
  split; [exact Hnz|]. split; [exact Hr|].
  exact (proj1 (proj2 (second_pass_is_idle long1 s Hnz Hr))).
Defined.

(** ** The position cache of [trader.go] *)

Lemma cached_fresh (symbol : string) (t : Trader) (p : PositionRisk) (at_ clk : Z) :
  lastPosition t !! symbol = Some p -> lastUpdate t !! symbol = Some at_ ->
  cached symbol t clk = if clk - at_ <? 5 * Second then Some p else None.
Proof. intros H1 H2. unfold cached. by rewrite H1, H2. Qed.

Lemma GetPosition_miss_calls (symbol : string) (s : St) :
  cached symbol (tr s) (clock (wd s)) = None ->
  trace (wd (Trading.GetPosition symbol s).2) = trace (wd s) ++ [CallGetPositionRisk].
Proof.
  intros Hc.
  unfold Trading.GetPosition, mbind, Gw_bind, getTrader, now, GetPositionRisk. simpl.
  rewrite Hc. destruct (nextOutcome _); simpl; [|done]. by destruct (List.find _ _).
Qed.

(** X9: a call of [GetPosition] that goes to the venue and is answered
    remembers for the symbol the first listed entry of that symbol, or the
    flat position when there is none, under the time of the call; the entries
    of other symbols, the other maps and the orders are left alone.  Asked
    again less than five seconds later it returns what it remembered, with no
    error and no call to the venue (also after the "position not found"
    error); five seconds later or more it calls the venue again. *)
Theorem GetPosition_remembers (symbol : string) (s : St) :
  cached symbol (tr s) (clock (wd s)) = None ->
  nextOutcome (wd s) = true ->
  let found := List.find (fun p => bool_decide (Symbol p = symbol)) (listing (wd s)) in
  let entry := default (flat symbol) found in
  let r := Trading.GetPosition symbol s in
  (forall p, found = Some p -> r.1 = inr p) /\
  lastPosition (tr r.2) !! symbol = Some entry /\
  lastUpdate (tr r.2) !! symbol = Some (clock (wd s)) /\
  (forall k, k <> symbol ->
     lastPosition (tr r.2) !! k = lastPosition (tr s) !! k /\
     lastUpdate (tr r.2) !! k = lastUpdate (tr s) !! k) /\
  maxProfit (tr r.2) = maxProfit (tr s) /\
  positions (tr r.2) = positions (tr s) /\
  book (wd r.2) = book (wd s) /\
  (forall d, 0 <= d < 5 * Second ->
     Trading.GetPosition symbol (Sleep d r.2).2 = (inr entry, (Sleep d r.2).2)) /\
  (forall d, 5 * Second <= d ->
     trace (wd (Trading.GetPosition symbol (Sleep d r.2).2).2)
     = trace (wd r.2) ++ [CallGetPositionRisk]).
Proof.
  intros Hc Hok. cbn zeta.
  assert (Hrun : exists t',
            (Trading.GetPosition symbol s).2
            = {| tr := setCache symbol
                         (default (flat symbol)
                            (List.find (fun p => bool_decide (Symbol p = symbol))
                               (listing (wd s))))
                         (clock (wd s)) (tr s);
                 wd := called CallGetPositionRisk (wd s) |}
            /\ t' = tt).
  { exists tt. split; [|done].
    unfold Trading.GetPosition, mbind, Gw_bind, getTrader, now, GetPositionRisk. simpl.
    rewrite Hc, Hok. simpl. by destruct (List.find _ _). }
  destruct Hrun as (_ & Hrun & _).
  split.
  { intros p Hp.
    unfold Trading.GetPosition, mbind, Gw_bind, getTrader, now, GetPositionRisk. simpl.
    rewrite Hc, Hok. simpl. by rewrite Hp. }
  rewrite Hrun. simpl. split_and!; try done.
  - apply lookup_insert_eq.
  - apply lookup_insert_eq.
  - intros k Hk. by rewrite !lookup_insert_ne.
  - intros d [Hd0 Hd5]. apply GetPosition_cached. simpl.
    rewrite (cached_fresh symbol _ _ (clock (wd s))) by apply lookup_insert_eq.
    destruct (Z.ltb_spec (clock (wd s) + d - clock (wd s)) (5 * Second)); [done|lia].
  - intros d Hd. rewrite GetPosition_miss_calls; [done|]. simpl.
    rewrite (cached_fresh symbol _ _ (clock (wd s))) by apply lookup_insert_eq.
    destruct (Z.ltb_spec (clock (wd s) + d - clock (wd s)) (5 * Second)); [lia|done].
Qed.

Lemma GetPosition_remembers_witness :
  let s := {| tr := noMaps; wd := venue [] [btc; long1] [] |} in
  cached SOLUSDC (tr s) (clock (wd s)) = None /\ nextOutcome (wd s) = true /\
  (Trading.GetPosition SOLUSDC s).1 = inr long1 /\
  lastPosition (tr (Trading.GetPosition SOLUSDC s).2) !! SOLUSDC = Some long1.
Proof.
  set (s := {| tr := noMaps; wd := venue [] [btc; long1] [] |}).
  assert (Hc : cached SOLUSDC (tr s) (clock (wd s)) = None) by reflexivity.
  assert (Hok : nextOutcome (wd s) = true) by reflexivity.
  destruct (GetPosition_remembers SOLUSDC s Hc Hok) as (Hfound & Hlast & _).
  split; [exact Hc|]. split; [exact Hok|]. split.
  - apply Hfound. reflexivity.
  - exact Hlast.
Defined.

(** ** When the protective close can fire *)

Lemma no_drawdown_at_the_mark (x : Q) : drawdown x x = false.
Proof.
  destruct (drawdown x x) eqn:E; [|done].
  apply drawdown_spec in E as [H1 H2]. lra.
Qed.

(** X10: the monitor, for a position that is not flat, touches no resting
    order, no entry of another symbol and none of the other maps; and when it
    sends anything (the market order of the close), the entry of the symbol
    was there before the observation, stood at 200 or more, and the observed
    PnL is at most half of it: the observation that creates or raises the
    mark never closes the position.  This holds for the monitor of
    [part_001] and for the one that ends [checkProtectiveStopProfit] in the
    other variants. *)
Theorem close_needs_an_earlier_mark (position : PositionRisk) (s : St) :
  ~ (PositionAmt position == 0)%Q ->
  let watched (r : option error * St) :=
    book (wd r.2) = book (wd s) /\
    positions (tr r.2) = positions (tr s) /\
    lastPosition (tr r.2) = lastPosition (tr s) /\
    lastUpdate (tr r.2) = lastUpdate (tr s) /\
    (forall k, k <> Symbol position -> maxProfit (tr r.2) !! k = maxProfit (tr s) !! k) /\
    (trace (wd r.2) <> trace (wd s) ->
     exists m, maxProfit (tr s) !! Symbol position = Some m /\
               (200 <= m)%Q /\ (UnRealizedProfit position <= m * (1 # 2))%Q) in
  watched (Totals.checkProtectiveStopProfit position s) /\
  watched (trackAndClose position s).
Proof.
  intros Hnz. cbn zeta. split.
  - unfold Totals.checkProtectiveStopProfit. rewrite (Qeq_bool_false _ _ Hnz).
    unfold mbind, Gw_bind, getTrader, putTrader, mret, Gw_ret, CreateOrderDo.
    rewrite marketOrder_type.
    destruct (maxProfit (tr s) !! Symbol position) as [m|] eqn:Em; simpl;
      [destruct (Qltb m (UnRealizedProfit position)) eqn:Elt; simpl|];
      rewrite ?lookup_insert_eq, ?Em; simpl;
      rewrite ?no_drawdown_at_the_mark; simpl;
      try (destruct (drawdown m (UnRealizedProfit position)) eqn:Ed; simpl;
           [destruct (nextOutcome (wd s)); simpl|]);
      split_and!; try done;
      try (intros k Hk; by rewrite ?lookup_delete_ne, ?lookup_insert_ne by done);
      intros _; exists m; apply drawdown_spec in Ed as [? ?]; by split_and!.
  - unfold trackAndClose, mbind, Gw_bind, getTrader, putTrader, mret, Gw_ret, CreateOrderDo.
    rewrite marketOrder_type.
    destruct (maxProfit (tr s) !! Symbol position) as [m|] eqn:Em; simpl;
      [destruct (Qeq_bool m 0) eqn:Ez; simpl;
       [|destruct (Qltb m (UnRealizedProfit position)) eqn:Elt; simpl]|];
      rewrite ?no_drawdown_at_the_mark; simpl;
      try (destruct (drawdown m (UnRealizedProfit position)) eqn:Ed; simpl;
           [destruct (nextOutcome (wd s)); simpl|]);
      split_and!; try done;
      try (intros k Hk; by rewrite ?lookup_delete_ne, ?lookup_insert_ne by done);
      intros _; exists m; apply drawdown_spec in Ed as [? ?]; by split_and!.
Qed.

Lemma close_needs_an_earlier_mark_witness :
  let p := withPnl long1 140 in
  let s := marked SOLUSDC 300 idle in
  ~ (PositionAmt p == 0)%Q /\
  book (wd (Totals.checkProtectiveStopProfit p s).2) = book (wd s) /\
  (trace (wd (Totals.checkProtectiveStopProfit p s).2) <> trace (wd s) ->
   exists m, maxProfit (tr s) !! Symbol p = Some m /\
             (200 <= m)%Q /\ (UnRealizedProfit p <= m * (1 # 2))%Q).
Proof.
  assert (Hnz : ~ (PositionAmt (withPnl long1 140) == 0)%Q) by (intros H; discriminate H).
  destruct (close_needs_an_earlier_mark (withPnl long1 140) (marked SOLUSDC 300 idle) Hnz)
    as ((Hb & _ & _ & _ & _ & Hm) & _).
  split; [exact Hnz|]. split; [exact Hb|exact Hm].
Defined.

(** ** Rounding to the tick *)

(** X11: [roundToTickSize] at the tick 0.01, in the binary64 arithmetic of
    the code, for a price of magnitude [10^9] at most: it has a result, which
    lies within [2 * 10^-7] of a multiple of 0.01 that is itself within half
    a tick and [2 * 10^-7] of the price; printed with two decimals the result
    is that multiple, and rounding it again returns it unchanged.  The result
    need not be the multiple itself, nor the multiple nearest to the price:
    100.07 comes back as 100.07000000000001..., and the binary64 number read
    from 119.005, which is below 119.005, is taken to 119.01. *)
Theorem roundToTickSize_lands_by_a_tick (price : Q) :
  (Qabs price <= 1000000000)%Q ->
  (exists (r : Q) (n : Z),
     Binary64.roundToTickSize price Binary64.tickSize = Some r /\
     (Qabs (r - inject_Z n * tick) <= 1 # 5000000)%Q /\
     (Qabs (inject_Z n * tick - price) <= tick * (1 # 2) + (1 # 5000000))%Q /\
     (Sprintf2 r == inject_Z n * tick)%Q /\
     Binary64.roundToTickSize r Binary64.tickSize = Some r) /\
  (Binary64.ParseFloat (10007 # 100)
     ≫= (fun x => Binary64.roundToTickSize x Binary64.tickSize)
   = Some (7041800229858837 # 70368744177664) /\
   (10007 # 100 < 7041800229858837 # 70368744177664)%Q) /\
  (exists x r, Binary64.ParseFloat (119005 # 1000) = Some x /\
               (x < 119005 # 1000)%Q /\
               Binary64.roundToTickSize x Binary64.tickSize = Some r /\
               Sprintf2 r = 11901 # 100).
Proof.
  intros H. split_and!.
  - assert (H3 : (Qabs price <= 1000000003)%Q).
    { set (a := Qabs price) in *. lra. }
    destruct (tick_rounding price H3) as (r & n & E & Hn & Hr & Hs & Hi).
    exists r, n. by split_and!.
  - vm_compute. reflexivity.
  - vm_compute. reflexivity.
  - eexists _, _. split_and!.
    + vm_compute. reflexivity.
    + vm_compute. reflexivity.
    + vm_compute. reflexivity.
    + vm_compute. reflexivity.
Qed.

Lemma roundToTickSize_lands_by_a_tick_witness :
  (Qabs (9950 # 100) <= 1000000000)%Q /\
  exists r, Binary64.roundToTickSize (9950 # 100) Binary64.tickSize = Some r /\
            Binary64.roundToTickSize r Binary64.tickSize = Some r.
Proof.
  assert (H : (Qabs (9950 # 100) <= 1000000000)%Q) by (vm_compute; discriminate).
  destruct (roundToTickSize_lands_by_a_tick (9950 # 100) H)
    as ((r & n & E & _ & _ & _ & Hi) & _).
  split; [exact H|]. exists r. split; [exact E|exact Hi].
Defined.

(** ** The joint reset of [part_000] *)

Lemma filter_none (f : Order -> bool) (l : list Order) :
  (forall o, o ∈ l -> f o = false) -> List.filter f l = [].
Proof.
  induction l as [|x l IH]; intros H; [done|]. simpl.
  rewrite (H x) by apply list_elem_of_here.
  apply IH. intros o Ho. apply H. by apply list_elem_of_further.
Qed.

(** X12: [checkProtectiveStopProfit] of [part_000], for a position that is
    not flat, on a venue that answers every call and a book of distinct ids
    in which a leg of the position's size is missing: every limit and
    stop-market order is cancelled and both legs are placed anew, so that
    afterwards exactly one stop-market and exactly one limit order rest, both
    of the position's size; the orders of other types are untouched; and the
    [checkAndSetStopLoss] that the loop runs next finds the stop and changes
    nothing. *)
Theorem joint_reset_leaves_one_of_each (position : PositionRisk) (s : St) :
  ~ (PositionAmt position == 0)%Q ->
  reliable s ->
  NoDup (OrderID <$> book (wd s)) ->
  scanValid (PositionAmt position) (book (wd s)) <> (true, true) ->
  let amt := PositionAmt position in
  let sl := rest (nextID (wd s)) (stopOrder amt (below amt (EntryPrice position) 1) None) in
  let tp := rest (nextID (wd s) + 1)
              (profitOrder amt (above amt (EntryPrice position) 2) None) in
  let r := Part000.checkProtectiveStopProfit position s in
  r.1 = None /\
  List.filter isStopMarket (book (wd r.2)) = [sl] /\
  List.filter isLimit (book (wd r.2)) = [tp] /\
  qtyMatches (OrigQuantity sl) amt = true /\
  qtyMatches (OrigQuantity tp) amt = true /\
  (forall o, isLimit o || isStopMarket o = false ->
     (o ∈ book (wd r.2) <-> o ∈ book (wd s))) /\
  (Part000.checkAndSetStopLoss position r.2).1 = None /\
  book (wd (Part000.checkAndSetStopLoss position r.2).2) = book (wd r.2).
Proof.
  intros Hnz H Hnd Hscan. cbn zeta.
  set (amt := PositionAmt position). set (e := EntryPrice position).
  destruct (rest_stop_matches (nextID (wd s)) amt (below amt e 1) None) as (S1 & S2 & S3).
  destruct (rest_profit_matches (nextID (wd s) + 1) amt (above amt e 2) None)
    as (P1 & P2 & P3).
  set (sl := rest (nextID (wd s)) _) in *. set (tp := rest (nextID (wd s) + 1) _) in *.
  (* the state after the pass *)
  assert (Hpass : exists s3,
            Part000.checkProtectiveStopProfit position s = trackAndClose position s3
            /\ reliable s3
            /\ (exists kept, book (wd s3) = kept ++ [sl; tp]
                  /\ forall o, o ∈ kept <-> o ∈ book (wd s) /\ Part000.isTPSL o = false)).
  { unfold Part000.checkProtectiveStopProfit, checkProtectiveStopProfit_joint.
    fold amt e. rewrite (Qeq_bool_false amt 0 Hnz).
    rewrite (run_bind _ _ _ _ _ (ListOpenOrders_ok s H)).
    set (s1 := setWorld _ s).
    assert (H1 : reliable s1) by (by apply reliable_called').
    destruct (scanValid amt (book (wd s))) as [a b] eqn:Es.
    assert (negb a || negb b = true) as ->.
    { destruct a, b; try done; exfalso; apply Hscan; exact Es. }
    destruct (cancelAllTPSL_joint_listed Part000.isTPSL s1 (reliable_next s1 H1))
      as (Hres & _ & Hid & _ & _ & _ & Hrel).
    destruct (Hrel H1) as [H2 _].
    pose proof (cancelAllTPSL_joint_clears Part000.isTPSL s1 H1 Hnd) as Hclr.
    destruct (cancelAllTPSL_joint Part000.isTPSL s1) as [c s2] eqn:E2.
    simpl in Hres, Hid, H2, Hclr. subst c.
    change (nextID (wd s1)) with (nextID (wd s)) in Hid.
    unfold mbind at 1, Gw_bind at 1. unfold mbind at 1, Gw_bind at 1. rewrite E2.
    unfold mbind at 1, Gw_bind at 1, Sleep.
    set (s2' := setWorld _ s2).
    assert (H2' : reliable s2') by exact H2.
    rewrite (run_bind _ _ _ _ _ (CreateOrderDo_ok _ s2' H2'
               ltac:(rewrite stopOrder_type; discriminate))).
    set (s2'' := setWorld _ s2').
    assert (H2'' : reliable s2'') by (by apply reliable_called).
    rewrite (run_bind _ _ _ _ _ (CreateOrderDo_ok _ s2'' H2''
               ltac:(rewrite profitOrder_type; discriminate))).
    set (s3 := setWorld _ s2'').
    exists s3. split; [reflexivity|]. split; [by apply reliable_called|].
    exists (book (wd s2)). split.
    - subst s3 s2'' s2' sl tp. simpl. rewrite Hid. by rewrite <- app_assoc.
    - exact Hclr. }
  destruct Hpass as (s3 & Epass & H3 & kept & Hbook3 & Hkept).
  destruct (trackAndClose_ok position s3 H3) as (Hres & Hbook).
  destruct (trackAndClose_reliable position s3 H3) as (Hr4 & _).
  rewrite Epass, Hbook, Hbook3.
  assert (Hnone : forall o, o ∈ kept -> isLimit o || isStopMarket o = false).
  { intros o Ho. by apply Hkept in Ho as [_ ?]. }
  split_and!.
  - exact Hres.
  - rewrite List.filter_app, (filter_none isStopMarket kept).
    + simpl. by rewrite S1, P2.
    + intros o Ho. apply Hnone in Ho. by apply orb_false_iff in Ho as [_ ?].
  - rewrite List.filter_app, (filter_none isLimit kept).
    + simpl. by rewrite S2, P1.
    + intros o Ho. apply Hnone in Ho. by apply orb_false_iff in Ho as [? _].
  - exact S3.
  - exact P3.
  - intros o Ho. rewrite elem_of_app, Hkept. split.
    + intros [[? _]|Hin]; [done|]. exfalso.
      apply elem_of_cons in Hin as [->|Hin].
      * by rewrite S1, orb_true_r in Ho.
      * apply list_elem_of_singleton in Hin as ->. by rewrite P1 in Ho.
    + intros Hin. left. by split.
  - unfold Part000.checkAndSetStopLoss, checkAndSetStopLoss_joint.
    fold amt e. rewrite (Qeq_bool_false amt 0 Hnz).
    rewrite (run_bind _ _ _ _ _ (ListOpenOrders_ok _ Hr4)), Hbook, Hbook3.
    rewrite existsb_app. cbn [existsb]. by rewrite S1, S3, orb_true_r.
  - unfold Part000.checkAndSetStopLoss, checkAndSetStopLoss_joint.
    fold amt e. rewrite (Qeq_bool_false amt 0 Hnz).
    rewrite (run_bind _ _ _ _ _ (ListOpenOrders_ok _ Hr4)), Hbook, Hbook3.
    rewrite existsb_app. cbn [existsb]. rewrite S1, S3, orb_true_r. simpl.
    by rewrite Hbook, Hbook3.
Qed.

Lemma joint_reset_leaves_one_of_each_witness :
  let s := {| tr := noMaps; wd := venue mixedBook [] [] |} in
  ~ (PositionAmt long1 == 0)%Q /\ reliable s /\
  length (List.filter isStopMarket
            (book (wd (Part000.checkProtectiveStopProfit long1 s).2))) = 1%nat /\
  length (List.filter isLimit
            (book (wd (Part000.checkProtectiveStopProfit long1 s).2))) = 1%nat.
Proof.
  set (s := {| tr := noMaps; wd := venue mixedBook [] [] |}).
  assert (Hnz : ~ (PositionAmt long1 == 0)%Q) by (intros H; discriminate H).
  assert (Hr : reliable s) by constructor.
  assert (Hnd : NoDup (OrderID <$> book (wd s))).
  { apply (bool_decide_unpack _). vm_compute. exact I. }
  assert (Hscan : scanValid (PositionAmt long1) (book (wd s)) <> (true, true))
    by (vm_compute; discriminate).
  destruct (joint_reset_leaves_one_of_each long1 s Hnz Hr Hnd Hscan)
    as (_ & Hs & Hl & _).
  split; [exact Hnz|]. split; [exact Hr|]. split.
  - by rewrite Hs.
  - by rewrite Hl.
Defined.

(** ** The stop-loss check of [part_001] *)

(** X13: [checkAndSetStopLoss] of [part_001], for a position that is not
    flat, on a venue that answers every call and a book of distinct ids, when
    the quantities of the resting stop-market orders do not add up to the
    position's size: every limit and stop-market order is cancelled, the
    take-profit with them, and the amount is noted in [positions].  Whether a
    stop is then placed is decided on the orders listed before the cancel: if
    a stop-market order on the closing side was among them nothing is placed
    and neither a stop nor a limit order is left; otherwise the new stop is
    the only stop.  The orders of other types are untouched. *)
Theorem stop_check_cancels_the_take_profit (position : PositionRisk) (s : St) :
  ~ (PositionAmt position == 0)%Q ->
  reliable s ->
  NoDup (OrderID <$> book (wd s)) ->
  Qltb (1 # 10000)
       (Qabs (Totals.totalQty isStopMarket (book (wd s)) - Qabs (PositionAmt position)))
  = true ->
  let amt := PositionAmt position in
  let sl := rest (nextID (wd s))
              (stopOrder amt (roundToTickSize (below amt (EntryPrice position) 1) (1 # 100))
                 None) in
  let r := Totals.checkAndSetStopLoss position s in
  r.1 = None /\
  List.filter isLimit (book (wd r.2)) = [] /\
  positions (tr r.2) !! SOLUSDC = Some amt /\
  (forall o, isLimit o || isStopMarket o = false ->
     (o ∈ book (wd r.2) <-> o ∈ book (wd s))) /\
  (Totals.hasLeg isStopMarket amt (book (wd s)) = true ->
     List.filter isStopMarket (book (wd r.2)) = [] /\
     trace (wd r.2)
     = trace (wd s) ++ CallListOpenOrders :: CallListOpenOrders
                       :: cancelCalls Totals.isTPSL (book (wd s))) /\
  (Totals.hasLeg isStopMarket amt (book (wd s)) = false ->
     List.filter isStopMarket (book (wd r.2)) = [sl]).
Proof.
  intros Hnz H Hnd Hoff. cbn zeta.
  set (amt := PositionAmt position) in *. set (e := EntryPrice position).
  destruct (rest_stop_matches (nextID (wd s)) amt
              (roundToTickSize (below amt e 1) (1 # 100)) None) as (S1 & S2 & S3).
  set (sl := rest (nextID (wd s)) _) in *.
  unfold Totals.checkAndSetStopLoss, Totals.cancelAllTPSL. fold amt e.
  rewrite (Qeq_bool_false amt 0 Hnz).
  rewrite (run_bind _ _ _ _ _ (ListOpenOrders_ok s H)), Hoff.
  set (s1 := setWorld _ s).
  assert (H1 : reliable s1) by (by apply reliable_called').
  destruct (cancelAllTPSL_joint_listed Totals.isTPSL s1 (reliable_next s1 H1))
    as (Hres & Htr & Hid & Htrace & _ & _ & Hrel).
  destruct (Hrel H1) as [H2 _].
  pose proof (cancelAllTPSL_joint_clears Totals.isTPSL s1 H1 Hnd) as Hclr.
  destruct (cancelAllTPSL_joint Totals.isTPSL s1) as [c s2] eqn:E2.
  simpl in Hres, Htr, Hid, Htrace, H2, Hclr. subst c.
  change (nextID (wd s1)) with (nextID (wd s)) in Hid.
  unfold mbind, Gw_bind, getTrader, putTrader, Sleep, mret, Gw_ret. cbv beta iota.
  rewrite E2. cbv beta iota.
  assert (Hnone : forall o, o ∈ book (wd s2) -> isLimit o || isStopMarket o = false).
  { intros o Ho. by apply Hclr in Ho as [_ ?]. }
  assert (HnoL : List.filter isLimit (book (wd s2)) = []).
  { apply filter_none. intros o Ho. apply Hnone in Ho.
    by apply orb_false_iff in Ho as [? _]. }
  assert (HnoS : List.filter isStopMarket (book (wd s2)) = []).
  { apply filter_none. intros o Ho. apply Hnone in Ho.
    by apply orb_false_iff in Ho as [_ ?]. }
  destruct (Totals.hasLeg isStopMarket amt (book (wd s))) eqn:Eleg.
  - simpl. split_and!; try done.
    + apply lookup_insert_eq.
    + intros o Ho. rewrite (Hclr o). unfold Totals.isTPSL. tauto.
    + intros _. split; [done|]. by rewrite Htrace, <- app_assoc.
  - set (s3 := setWorld _ (setTrader _ s2)).
    assert (H3 : reliable s3) by exact H2.
    rewrite (CreateOrderDo_ok _ s3 H3) by (rewrite stopOrder_type; discriminate).
    simpl. rewrite Hid. fold sl. split_and!; try done.
    + rewrite List.filter_app, HnoL. simpl. by rewrite S2.
    + apply lookup_insert_eq.
    + intros o Ho. rewrite elem_of_app, (Hclr o). unfold Totals.isTPSL. split.
      * intros [[? _]|Hin]; [done|]. exfalso.
        apply list_elem_of_singleton in Hin as ->. by rewrite S1, orb_true_r in Ho.
      * intros Hin. left. by split.
    + intros _. rewrite List.filter_app, HnoS. simpl. by rewrite S1.
Qed.

Lemma stop_check_cancels_the_take_profit_witness :
  let s := {| tr := noMaps; wd := venue doubleStopBook [] [] |} in
  ~ (PositionAmt long1 == 0)%Q /\ reliable s /\
  List.filter isLimit (book (wd (Totals.checkAndSetStopLoss long1 s).2)) = [] /\
  List.filter isStopMarket (book (wd (Totals.checkAndSetStopLoss long1 s).2)) = [].
Proof.
  set (s := {| tr := noMaps; wd := venue doubleStopBook [] [] |}).
  assert (Hnz : ~ (PositionAmt long1 == 0)%Q) by (intros H; discriminate H).
  assert (Hr : reliable s) by constructor.
  assert (Hnd : NoDup (OrderID <$> book (wd s))).
  { apply (bool_decide_unpack _). vm_compute. exact I. }
  destruct (stop_check_cancels_the_take_profit long1 s Hnz Hr Hnd eq_refl)
    as (_ & Hl & _ & _ & Hleg & _).
  split; [exact Hnz|]. split; [exact Hr|]. split; [exact Hl|].
  exact (proj1 (Hleg eq_refl)).
Defined.

(** ** The take-profit check of [part_001] *)

(** X14: [checkAndSetTakeProfit] of [part_001], for a position that is not
    flat, on a venue that answers every call and a book of distinct ids, when
    the quantities of the resting limit orders do not add up to the
    position's size: every limit and stop-market order is cancelled, the
    stop-loss with them, and the receiver's maps are left as they were.
    Whether a limit is then placed is decided on the orders listed before the
    cancel: if a limit order on the closing side was among them nothing is
    placed and neither a stop nor a limit order is left; otherwise the new
    limit is the only limit and no stop is left. *)
Theorem take_profit_check_cancels_the_stop (position : PositionRisk) (s : St) :
  ~ (PositionAmt position == 0)%Q ->
  reliable s ->
  NoDup (OrderID <$> book (wd s)) ->
  Qltb (1 # 10000)
       (Qabs (Totals.totalQty isLimit (book (wd s)) - Qabs (PositionAmt position)))
  = true ->
  let amt := PositionAmt position in
  let tp := rest (nextID (wd s))
              (profitOrder amt (roundToTickSize (above amt (EntryPrice position) 2) (1 # 100))
                 None) in
  let r := Totals.checkAndSetTakeProfit position s in
  r.1 = None /\
  List.filter isStopMarket (book (wd r.2)) = [] /\
  tr r.2 = tr s /\
  (forall o, isLimit o || isStopMarket o = false ->
     (o ∈ book (wd r.2) <-> o ∈ book (wd s))) /\
  (Totals.hasLeg isLimit amt (book (wd s)) = true ->
     List.filter isLimit (book (wd r.2)) = [] /\
     trace (wd r.2)
     = trace (wd s) ++ CallListOpenOrders :: CallListOpenOrders
                       :: cancelCalls Totals.isTPSL (book (wd s))) /\
  (Totals.hasLeg isLimit amt (book (wd s)) = false ->
     List.filter isLimit (book (wd r.2)) = [tp]).
Proof.
  intros Hnz H Hnd Hoff. cbn zeta.
  set (amt := PositionAmt position) in *. set (e := EntryPrice position).
  destruct (rest_profit_matches (nextID (wd s)) amt
              (roundToTickSize (above amt e 2) (1 # 100)) None) as (P1 & P2 & P3).
  set (tp := rest (nextID (wd s)) _) in *.
  unfold Totals.checkAndSetTakeProfit, Totals.cancelAllTPSL. fold amt e.
  rewrite (Qeq_bool_false amt 0 Hnz).
  rewrite (run_bind _ _ _ _ _ (ListOpenOrders_ok s H)), Hoff.
  set (s1 := setWorld _ s).
  assert (H1 : reliable s1) by (by apply reliable_called').
  destruct (cancelAllTPSL_joint_listed Totals.isTPSL s1 (reliable_next s1 H1))
    as (Hres & Htr & Hid & Htrace & _ & _ & Hrel).
  destruct (Hrel H1) as [H2 _].
  pose proof (cancelAllTPSL_joint_clears Totals.isTPSL s1 H1 Hnd) as Hclr.
  destruct (cancelAllTPSL_joint Totals.isTPSL s1) as [c s2] eqn:E2.
  simpl in Hres, Htr, Hid, Htrace, H2, Hclr. subst c.
  change (nextID (wd s1)) with (nextID (wd s)) in Hid.
  unfold mbind, Gw_bind, getTrader, putTrader, Sleep, mret, Gw_ret. cbv beta iota.
  rewrite E2. cbv beta iota.
  assert (Hnone : forall o, o ∈ book (wd s2) -> isLimit o || isStopMarket o = false).
  { intros o Ho. by apply Hclr in Ho as [_ ?]. }
  assert (HnoL : List.filter isLimit (book (wd s2)) = []).
  { apply filter_none. intros o Ho. apply Hnone in Ho.
    by apply orb_false_iff in Ho as [? _]. }
  assert (HnoS : List.filter isStopMarket (book (wd s2)) = []).
  { apply filter_none. intros o Ho. apply Hnone in Ho.
    by apply orb_false_iff in Ho as [_ ?]. }
  destruct (Totals.hasLeg isLimit amt (book (wd s))) eqn:Eleg.
  - simpl. split_and!; try done.
    + intros o Ho. rewrite (Hclr o). unfold Totals.isTPSL. tauto.
    + intros _. split; [done|]. by rewrite Htrace, <- app_assoc.
  - set (s3 := setWorld _ s2).
    assert (H3 : reliable s3) by exact H2.
    rewrite (CreateOrderDo_ok _ s3 H3) by (rewrite profitOrder_type; discriminate).
    simpl. rewrite Hid. fold tp. split_and!; try done.
    + rewrite List.filter_app, HnoS. simpl. by rewrite P2.
    + intros o Ho. rewrite elem_of_app, (Hclr o). unfold Totals.isTPSL. split.
      * intros [[? _]|Hin]; [done|]. exfalso.
        apply list_elem_of_singleton in Hin as ->. by rewrite P1 in Ho.
      * intros Hin. left. by split.
    + intros _. rewrite List.filter_app, HnoL. simpl. by rewrite P1.
Qed.

Lemma take_profit_check_cancels_the_stop_witness :
  let s := {| tr := noMaps; wd := venue doubleLimitBook [] [] |} in
  ~ (PositionAmt long1 == 0)%Q /\ reliable s /\
  List.filter isStopMarket (book (wd (Totals.checkAndSetTakeProfit long1 s).2)) = [] /\
  List.filter isLimit (book (wd (Totals.checkAndSetTakeProfit long1 s).2)) = [].
Proof.
  set (s := {| tr := noMaps; wd := venue doubleLimitBook [] [] |}).
  assert (Hnz : ~ (PositionAmt long1 == 0)%Q) by (intros H; discriminate H).
  assert (Hr : reliable s) by constructor.
  assert (Hnd : NoDup (OrderID <$> book (wd s))).
  { apply (bool_decide_unpack _). vm_compute. exact I. }
  destruct (take_profit_check_cancels_the_stop long1 s Hnz Hr Hnd eq_refl)
    as (_ & Hs & _ & _ & Hleg & _).
  split; [exact Hnz|]. split; [exact Hr|]. split; [exact Hs|].
  exact (proj1 (Hleg eq_refl)).
Defined.

(** ** src/pkg/trading/trader.go: the order calls and the cache *)

Lemma closingSide_closes (amt : Q) :
  closes {| cSide := (closingSide amt).1; cPositionSide := Some (closingSide amt).2;
            cType := OrderTypeMarket; cTimeInForce := None; cQuantity := 0;
            cPrice := None; cStopPrice := None; cWorkingType := None |} = true.
Proof. unfold closingSide. by destruct (Qltb amt 0). Qed.

Lemma SetStopLoss_ok (position : PositionRisk) (stopPrice : Q) (s : St) :
  ~ (PositionAmt position == 0)%Q -> reliable s ->
  exists o,
    Trading.SetStopLoss position stopPrice s
    = (None, setWorld (withBook (book (wd s) ++ [o]) (nextID (wd s) + 1)
                         (called (CallCreateOrder
                                    {| cSide := (closingSide (PositionAmt position)).1;
                                       cPositionSide :=
                                         Some (closingSide (PositionAmt position)).2;
                                       cType := OrderTypeStopMarket; cTimeInForce := None;
                                       cQuantity := Sprintf4 (Qabs (PositionAmt position));
                                       cPrice := None;
                                       cStopPrice := Some (Sprintf2 stopPrice);
                                       cWorkingType := None |}) (wd s))) s)
    /\ isStopMarket o = true /\ isLimit o = false
    /\ OrigQuantity o = Sprintf4 (Qabs (PositionAmt position))
    /\ Side o = (closingSide (PositionAmt position)).1
    /\ StopPrice o = Sprintf2 stopPrice
    /\ ReduceOnly o = true.
Proof.
  intros Hnz H. unfold Trading.SetStopLoss. rewrite (Qeq_bool_false _ _ Hnz).
  pose proof (closingSide_closes (PositionAmt position)) as Hc.
  destruct (closingSide (PositionAmt position)) as [side ps].
  rewrite (CreateOrderDo_ok _ s H) by discriminate.
  eexists. split; [reflexivity|]. by split_and!.
Qed.

Lemma SetTakeProfit_ok (position : PositionRisk) (price : Q) (s : St) :
  ~ (PositionAmt position == 0)%Q -> reliable s ->
  exists o,
    Trading.SetTakeProfit position price s
    = (None, setWorld (withBook (book (wd s) ++ [o]) (nextID (wd s) + 1)
                         (called (CallCreateOrder
                                    {| cSide := (closingSide (PositionAmt position)).1;
                                       cPositionSide :=
                                         Some (closingSide (PositionAmt position)).2;
                                       cType := OrderTypeLimit;
                                       cTimeInForce := Some TimeInForceTypeGTC;
                                       cQuantity := Sprintf4 (Qabs (PositionAmt position));
                                       cPrice := Some (Sprintf2 price);
                                       cStopPrice := None;
                                       cWorkingType := None |}) (wd s))) s)
    /\ isLimit o = true /\ isStopMarket o = false
    /\ OrigQuantity o = Sprintf4 (Qabs (PositionAmt position))
    /\ Side o = (closingSide (PositionAmt position)).1
    /\ Price o = Sprintf2 price
    /\ ReduceOnly o = true.
Proof.
  intros Hnz H. unfold Trading.SetTakeProfit. rewrite (Qeq_bool_false _ _ Hnz).
  pose proof (closingSide_closes (PositionAmt position)) as Hc.
  destruct (closingSide (PositionAmt position)) as [side ps].
  rewrite (CreateOrderDo_ok _ s H) by discriminate.
  eexists. split; [reflexivity|]. by split_and!.
Qed.

(** X15: the legs set through [SetStopLoss] and [SetTakeProfit] of
    [trader.go] are the legs the reconcilers of [part_000] and [part_002]
    look for.  For a position that is not flat, on a venue that answers every
    call: the two calls add a stop-market and a limit order on the closing
    side, of the position's size printed with four decimals, at the prices
    given printed with two; the scan of [checkProtectiveStopProfit] then
    finds both legs valid, whatever else rests and whatever the prices, and
    a pass returns nil, leaves the book as it is and sends nothing but the
    listing of the orders and, when the drawdown test holds, the market
    order of the protective close. *)
Theorem legs_of_the_library_are_kept (isTPSL : Order -> bool) (position : PositionRisk)
    (stopPrice price : Q) (s : St) :
  ~ (PositionAmt position == 0)%Q ->
  reliable s ->
  let amt := PositionAmt position in
  let s2 := (Trading.SetTakeProfit position price
               (Trading.SetStopLoss position stopPrice s).2).2 in
  let r := checkProtectiveStopProfit_joint isTPSL position s2 in
  (exists sl tp,
     book (wd s2) = book (wd s) ++ [sl; tp] /\
     isStopMarket sl = true /\ isLimit tp = true /\
     Side sl = (closingSide amt).1 /\ Side tp = (closingSide amt).1 /\
     OrigQuantity sl = Sprintf4 (Qabs amt) /\ OrigQuantity tp = Sprintf4 (Qabs amt) /\
     StopPrice sl = Sprintf2 stopPrice /\ Price tp = Sprintf2 price) /\
  scanValid amt (book (wd s2)) = (true, true) /\
  r.1 = None /\
  book (wd r.2) = book (wd s2) /\
  exists cs, trace (wd r.2) = trace (wd s2) ++ cs /\ Forall (listOrClose amt) cs.
Proof.
  intros Hnz H. cbn zeta.
  destruct (SetStopLoss_ok position stopPrice s Hnz H)
    as (sl & E1 & S1 & S2 & S3 & S4 & S5 & _).
  rewrite E1. cbn [snd].
  set (s1 := setWorld _ s).
  assert (H1 : reliable s1) by (by apply reliable_called).
  destruct (SetTakeProfit_ok position price s1 Hnz H1)
    as (tp & E2 & P1 & P2 & P3 & P4 & P5 & _).
  rewrite E2. cbn [snd].
  set (s2 := setWorld _ s1).
  assert (H2 : reliable s2) by (by apply reliable_called).
  assert (Hb : book (wd s2) = book (wd s) ++ [sl; tp]).
  { simpl. by rewrite <- app_assoc. }
  assert (Hscan : scanValid (PositionAmt position) (book (wd s2)) = (true, true)).
  { rewrite Hb, scanValid_spec, !existsb_app. cbn [existsb].
    rewrite S1, S2, S3, P1, P3, qtyMatches_Sprintf4. cbn [andb orb].
    by rewrite !orb_true_r. }
  split; [|split; [exact Hscan|]].
  { exists sl, tp. by split_and!. }
  set (s3 := setWorld (called CallListOpenOrders (wd s2)) s2).
  assert (H3 : reliable s3) by (by apply reliable_called').
  assert (E3 : checkProtectiveStopProfit_joint isTPSL position s2
               = trackAndClose position s3).
  { unfold checkProtectiveStopProfit_joint. rewrite (Qeq_bool_false _ _ Hnz).
    by rewrite (run_bind _ _ _ _ _ (ListOpenOrders_ok s2 H2)), Hscan. }
  rewrite E3.
  destruct (trackAndClose_ok position s3 H3) as (Hres & Hbook).
  destruct (trackAndClose_sends position s3) as (cs & Ht & F).
  split_and!.
  - exact Hres.
  - exact Hbook.
  - exists (CallListOpenOrders :: cs). split.
    + rewrite Ht. subst s3. cbn [wd setWorld called trace]. by rewrite <- app_assoc.
    + constructor; [by left|done].
Qed.

Lemma legs_of_the_library_are_kept_witness :
  let s2 := (Trading.SetTakeProfit long1 102 (Trading.SetStopLoss long1 99 idle).2).2 in
  ~ (PositionAmt long1 == 0)%Q /\ reliable idle /\
  book (wd (Part002.checkProtectiveStopProfit long1 s2).2) = book (wd s2).
Proof.
  assert (Hnz : ~ (PositionAmt long1 == 0)%Q) by (intros H; discriminate H).
  assert (Hr : reliable idle) by constructor.
  destruct (legs_of_the_library_are_kept Part002.isTPSL long1 99 102 idle Hnz Hr)
    as (_ & _ & _ & Hb & _).
  split; [exact Hnz|]. split; [exact Hr|]. exact Hb.
Defined.

(** X16: [GetPosition] keeps the cache keyed by symbol, and what it returns
    without an error is a position of the symbol asked for, whether it comes
    from the cache or from the venue.  (The empty cache of a new [Trader] is
    keyed.) *)
Theorem GetPosition_answers_for_the_symbol (symbol : string) (s : St) :
  keyed (tr s) ->
  keyed (tr (Trading.GetPosition symbol s).2) /\
  forall p, (Trading.GetPosition symbol s).1 = inr p -> Symbol p = symbol.
Proof.
  intros Hk.
  assert (Hset : forall p clk t, keyed t -> Symbol p = symbol ->
                                 keyed (setCache symbol p clk t)).
  { intros p clk t Ht Hp k q. unfold setCache. simpl.
    destruct (decide (k = symbol)) as [->|Hne].
    - rewrite lookup_insert_eq. by intros [= <-].
    - rewrite lookup_insert_ne by done. apply Ht. }
  unfold Trading.GetPosition, mbind, Gw_bind, getTrader, now, putTrader, mret, Gw_ret.
  destruct (cached symbol (tr s) (clock (wd s))) as [lastPos|] eqn:Ec.
  - simpl. split; [done|]. intros p [= <-]. apply Hk.
    unfold cached in Ec. destruct (lastPosition (tr s) !! symbol) as [q|]; [|done].
    destruct (lastUpdate (tr s) !! symbol); [|done].
    by destruct (_ <? _)%Z; inversion Ec.
  - unfold GetPositionRisk. destruct (nextOutcome (wd s)); [|by simpl].
    cbv beta iota zeta.
    destruct (List.find _ (listing (wd s))) as [p|] eqn:Ef; simpl.
    + apply find_some in Ef as [_ Hp]. apply bool_decide_eq_true in Hp.
      split; [by apply Hset|]. by intros q [= <-].
    + split; [by apply Hset|done].
Qed.

Lemma GetPosition_answers_for_the_symbol_witness :
  let s := {| tr := noMaps; wd := venue [] [btc; long1] [] |} in
  keyed (tr s) /\
  forall p, (Trading.GetPosition SOLUSDC s).1 = inr p -> Symbol p = SOLUSDC.
Proof.
  set (s := {| tr := noMaps; wd := venue [] [btc; long1] [] |}).
  assert (Hk : keyed (tr s)).
  { intros k p Hp. simpl in Hp. by rewrite lookup_empty in Hp. }
  split; [exact Hk|].
  exact (proj2 (GetPosition_answers_for_the_symbol SOLUSDC s Hk)).
Defined.

(** X17: [PlaceOrder] makes one call to the venue, the creation of an order
    of the side and type given, for the quantity printed with four decimals;
    it never sends a position side, a stop price or a working type; the
    price, printed with two decimals, and the time in force GTC go out for a
    limit order only, so that for any other type the price given plays no
    part.  The error returned is the venue's. *)
Theorem PlaceOrder_sends_one_request (side : SideType) (orderType : OrderType)
    (quantity price : Q) (s : St) :
  let r := Trading.PlaceOrder side orderType quantity price s in
  let limit := bool_decide (orderType = OrderTypeLimit) in
  (exists c,
     trace (wd r.2) = trace (wd s) ++ [CallCreateOrder c] /\
     cSide c = side /\ cType c = orderType /\ cQuantity c = Sprintf4 quantity /\
     cPositionSide c = None /\ cStopPrice c = None /\ cWorkingType c = None /\
     cPrice c = (if limit then Some (Sprintf2 price) else None) /\
     cTimeInForce c = (if limit then Some TimeInForceTypeGTC else None)) /\
  r.1 = (if nextOutcome (wd s) then None else Some VenueError) /\
  tr r.2 = tr s /\
  (limit = false ->
   forall price', Trading.PlaceOrder side orderType quantity price' s = r).
Proof.
  cbn zeta. unfold Trading.PlaceOrder.
  destruct (bool_decide (orderType = OrderTypeLimit)) eqn:El.
  - split_and!; [| | |done].
    + eexists. split.
      * unfold CreateOrderDo. destruct (nextOutcome (wd s)); [|reflexivity].
        by destruct orderType.
      * by split_and!.
    + unfold CreateOrderDo. destruct (nextOutcome (wd s)); [|reflexivity].
      by destruct orderType.
    + unfold CreateOrderDo. destruct (nextOutcome (wd s)); [|reflexivity].
      by destruct orderType.
  - split_and!; [| | |done].
    + eexists. split.
      * unfold CreateOrderDo. destruct (nextOutcome (wd s)); [|reflexivity].
        by destruct orderType.
      * by split_and!.
    + unfold CreateOrderDo. destruct (nextOutcome (wd s)); [|reflexivity].
      by destruct orderType.
    + unfold CreateOrderDo. destruct (nextOutcome (wd s)); [|reflexivity].
      by destruct orderType.
Qed.

Lemma PlaceOrder_sends_one_request_witness :
  Trading.PlaceOrder SideTypeSell OrderTypeMarket 1 100 idle
  = Trading.PlaceOrder SideTypeSell OrderTypeMarket 1 0 idle.
Proof.
  exact (proj2 (proj2 (proj2
           (PlaceOrder_sends_one_request SideTypeSell OrderTypeMarket 1 0 idle)))
           eq_refl 100%Q).
Defined.
